(** * The salon database layer: repositories over an embedded store

    A shallow embedding of [src/lib/database.ts]: the six repositories
    ([customerDb], [employeeDb], [appointmentDb], [tallyDb], [serviceDb],
    [productDb]), the schema of [createTables] and the seeding of
    [insertInitialData], over a model of what the statements run on.

    - JavaScript values are undefined, null, booleans, numbers, strings,
      arrays and objects. The repositories never compute with numbers (they
      test them for zero and copy them); numbers are the integers here.
    - A record passed to or returned by a repository is a finite map from
      property names to values; a missing property reads as undefined.
    - [JSON.stringify] and [JSON.parse] are executable functions on strings
      (number literals with a fraction or an exponent denote no integer and
      are not accepted).
    - The store is the list of rows of each of the six tables. INSERT,
      UPDATE and DELETE check the constraints the schema declares (NOT NULL,
      UNIQUE, CHECK, foreign keys) and either fail, leaving the store as it
      was, or succeed. A cell holds what was bound to it: the conversions
      of column affinity are outside the model.
    - A statement takes one argument per [?]: undefined and null are bound
      as NULL, numbers and strings as themselves. Booleans, arrays and
      objects are no parameter values and are refused (the driver's reading
      of an array or object argument as a list of parameters is outside the
      model; the signatures of the repositories do not pass them).
    - The clock ([Date.now()], [new Date().toISOString()], CURRENT_TIMESTAMP)
      is an argument of the operations that read it. *)

From Stdlib Require Import ZArith Ascii String Decimal DecimalN DecimalPos DecimalFacts DecimalString.
From stdpp Require Import base option list gmap strings sorting.

Set Warnings "-register-all".

(** ** JavaScript values *)

(** An object keeps its properties in insertion order. *)
Inductive value : Type :=
| VUndef
| VNull
| VBool (b : bool)
| VNum (n : Z)
| VStr (s : string)
| VArr (l : list value)
| VObj (kvs : list (string * value)).

(** ** [JSON.stringify] *)

Definition dquote : ascii := "034"%char.
Definition bslash : ascii := "092"%char.

(** Lower-case hexadecimal digit. *)
Definition hex_digit (n : N) : ascii :=
  if (n <? 10)%N then ascii_of_N (48 + n) else ascii_of_N (87 + n).

(** A character inside a string literal: the quote, the backslash and the
    control characters are escaped, the short escapes where there is one. *)
Definition escape_char (c : ascii) : string :=
  let n := N_of_ascii c in
  if (n =? 34)%N then String bslash (String dquote "")
  else if (n =? 92)%N then String bslash (String bslash "")
  else if (n =? 8)%N then String bslash "b"
  else if (n =? 9)%N then String bslash "t"
  else if (n =? 10)%N then String bslash "n"
  else if (n =? 12)%N then String bslash "f"
  else if (n =? 13)%N then String bslash "r"
  else if (n <? 32)%N then
    String bslash (String "u" (String "0" (String "0"
      (String (hex_digit (n / 16)) (String (hex_digit (n mod 16)) "")))))
  else String c "".

Fixpoint escape (s : string) : string :=
  match s with
  | EmptyString => EmptyString
  | String c s' => escape_char c +:+ escape s'
  end.

Definition quote (s : string) : string :=
  String dquote (escape s +:+ String dquote "").

(** Decimal digits, with a minus sign below zero. *)
Definition number_to_string (z : Z) : string :=
  match z with
  | Zneg p => String "-" (NilEmpty.string_of_uint (Pos.to_uint p))
  | _ => NilEmpty.string_of_uint (N.to_uint (Z.to_N z))
  end.

Fixpoint join_comma (l : list string) : string :=
  match l with
  | [] => ""
  | [s] => s
  | s :: l' => s +:+ "," +:+ join_comma l'
  end.

(** The text of a value; [None] where [JSON.stringify] returns undefined.
    Inside an array undefined is written [null]; a property holding
    undefined is left out of its object. *)
Fixpoint JSON_ser (v : value) : option string :=
  match v with
  | VUndef => None
  | VNull => Some "null"
  | VBool b => Some (if b then "true" else "false")
  | VNum n => Some (number_to_string n)
  | VStr s => Some (quote s)
  | VArr l =>
      Some ("[" +:+ join_comma (map (λ x, default "null" (JSON_ser x)) l) +:+ "]")
  | VObj kvs =>
      Some ("{" +:+ join_comma
              (omap (λ kv : string * value,
                       let '(k, x) := kv in
                       (λ s, quote k +:+ ":" +:+ s) <$> JSON_ser x) kvs)
            +:+ "}")
  end.


(** ** [JSON.parse] *)

(** Space, tab, line feed, carriage return. *)
Definition is_ws (c : ascii) : bool :=
  let n := N_of_ascii c in
  ((n =? 32) || (n =? 9) || (n =? 10) || (n =? 13))%N.

Fixpoint skip_ws (s : string) : string :=
  match s with
  | String c s' => if is_ws c then skip_ws s' else s
  | EmptyString => s
  end.

Definition digit_of_char (c : ascii) : option (uint → uint) :=
  match N_of_ascii c with
  | 48%N => Some D0 | 49%N => Some D1 | 50%N => Some D2 | 51%N => Some D3
  | 52%N => Some D4 | 53%N => Some D5 | 54%N => Some D6 | 55%N => Some D7
  | 56%N => Some D8 | 57%N => Some D9
  | _ => None
  end.

Fixpoint read_digits (s : string) : uint * string :=
  match s with
  | String c r =>
      match digit_of_char c with
      | Some f => let '(d, r') := read_digits r in (f d, r')
      | None => (Nil, s)
      end
  | EmptyString => (Nil, s)
  end.

(** A [.], [e] or [E] after the digits. *)
Definition starts_fraction (s : string) : bool :=
  match s with
  | String c _ =>
      let n := N_of_ascii c in ((n =? 46) || (n =? 101) || (n =? 69))%N
  | EmptyString => false
  end.

(** The digits of an integer literal, without superfluous leading zero. *)
Definition parse_nat (s : string) : option (N * string) :=
  let '(d, r) := read_digits s in
  match d with
  | Nil => None
  | D0 Nil => if starts_fraction r then None else Some (0%N, r)
  | D0 _ => None
  | _ => if starts_fraction r then None else Some (N.of_uint d, r)
  end.

Definition parse_number (s : string) : option (value * string) :=
  match s with
  | String "-" r => '(n, r') ← parse_nat r; Some (VNum (- Z.of_N n), r')
  | _ => '(n, r') ← parse_nat s; Some (VNum (Z.of_N n), r')
  end.

Definition hex_value (c : ascii) : option N :=
  let n := N_of_ascii c in
  if ((48 <=? n) && (n <=? 57))%N then Some (n - 48)%N
  else if ((97 <=? n) && (n <=? 102))%N then Some (n - 87)%N
  else if ((65 <=? n) && (n <=? 70))%N then Some (n - 55)%N
  else None.

(** The bytes of the code unit written [\uXXXX]. *)
Definition utf8 (cp : N) : string :=
  if (cp <? 128)%N then String (ascii_of_N cp) ""
  else if (cp <? 2048)%N then
    String (ascii_of_N (192 + cp / 64)) (String (ascii_of_N (128 + cp mod 64)) "")
  else
    String (ascii_of_N (224 + cp / 4096))
      (String (ascii_of_N (128 + (cp / 64) mod 64))
         (String (ascii_of_N (128 + cp mod 64)) "")).

Definition unescape (c : ascii) : option ascii :=
  match N_of_ascii c with
  | 34%N => Some dquote
  | 92%N => Some bslash
  | 47%N => Some "/"%char
  | 98%N => Some "008"%char
  | 102%N => Some "012"%char
  | 110%N => Some "010"%char
  | 114%N => Some "013"%char
  | 116%N => Some "009"%char
  | _ => None
  end.

(** The characters of a string literal after its opening quote, up to the
    closing quote; the rest of the input is handed back. *)
Fixpoint parse_string_body (s : string) : option (string * string) :=
  match s with
  | EmptyString => None
  | String c r =>
      if Ascii.eqb c dquote then Some ("", r)
      else if Ascii.eqb c bslash then
        match r with
        | String "u" (String h1 (String h2 (String h3 (String h4 r')))) =>
            a ← hex_value h1; b ← hex_value h2; c ← hex_value h3; d ← hex_value h4;
            '(t, rest) ← parse_string_body r';
            Some (utf8 (((a * 16 + b) * 16 + c) * 16 + d) +:+ t, rest)
        | String e r' =>
            ch ← unescape e;
            '(t, rest) ← parse_string_body r';
            Some (String ch t, rest)
        | EmptyString => None
        end
      else if (N_of_ascii c <? 32)%N then None
      else '(t, rest) ← parse_string_body r; Some (String c t, rest)
  end.

Fixpoint strip_prefix (p s : string) : option string :=
  match p, s with
  | EmptyString, _ => Some s
  | String a p', String b s' => if Ascii.eqb a b then strip_prefix p' s' else None
  | String _ _, EmptyString => None
  end.

(** [o[k] = v]: a property that exists keeps its place. *)
Fixpoint kv_set (k : string) (v : value) (kvs : list (string * value)) :=
  match kvs with
  | [] => [(k, v)]
  | (k', v') :: rest =>
      if String.eqb k k' then (k, v) :: rest else (k', v') :: kv_set k v rest
  end.

Definition kv_of_members (l : list (string * value)) : list (string * value) :=
  foldl (λ acc kv, kv_set kv.1 kv.2 acc) [] l.

(** A value, the elements of an array after its first bracket, and the
    members of an object after its first brace. Each nested value and each
    further element takes one unit of fuel; [JSON_parse_text] starts with
    twice the length of the text and two. *)
Fixpoint parse_value (fuel : nat) (s : string) : option (value * string) :=
  match fuel with
  | O => None
  | S n =>
      match skip_ws s with
      | EmptyString => None
      | String c r as s0 =>
          if Ascii.eqb c "["%char then
            match skip_ws r with
            | String "]" r' => Some (VArr [], r')
            | _ => '(l, r') ← parse_elements n r; Some (VArr l, r')
            end
          else if Ascii.eqb c "{"%char then
            match skip_ws r with
            | String "}" r' => Some (VObj [], r')
            | _ => '(l, r') ← parse_members n r; Some (VObj (kv_of_members l), r')
            end
          else if Ascii.eqb c dquote then
            '(t, r') ← parse_string_body r; Some (VStr t, r')
          else if Ascii.eqb c "t"%char then
            r' ← strip_prefix "true" s0; Some (VBool true, r')
          else if Ascii.eqb c "f"%char then
            r' ← strip_prefix "false" s0; Some (VBool false, r')
          else if Ascii.eqb c "n"%char then
            r' ← strip_prefix "null" s0; Some (VNull, r')
          else parse_number s0
      end
  end
with parse_elements (fuel : nat) (s : string) : option (list value * string) :=
  match fuel with
  | O => None
  | S n =>
      '(v, r) ← parse_value n s;
      match skip_ws r with
      | String "," r' => '(l, r'') ← parse_elements n r'; Some (v :: l, r'')
      | String "]" r' => Some ([v], r')
      | _ => None
      end
  end
with parse_members (fuel : nat) (s : string) : option (list (string * value) * string) :=
  match fuel with
  | O => None
  | S n =>
      match skip_ws s with
      | String c r =>
          if Ascii.eqb c dquote then
            '(k, r1) ← parse_string_body r;
            match skip_ws r1 with
            | String ":" r2 =>
                '(v, r3) ← parse_value n r2;
                match skip_ws r3 with
                | String "," r4 => '(l, r5) ← parse_members n r4; Some ((k, v) :: l, r5)
                | String "}" r4 => Some ([(k, v)], r4)
                | _ => None
                end
            | _ => None
            end
          else None
      | EmptyString => None
      end
  end.

(** The value a text denotes; [None] where [JSON.parse] throws. *)
Definition JSON_parse_text (s : string) : option value :=
  '(v, r) ← parse_value (2 * String.length s + 2) s;
  match skip_ws r with
  | EmptyString => Some v
  | _ => None
  end.


(** The values JSON can carry: no undefined anywhere, no property twice. *)
Fixpoint json_safe (v : value) : bool :=
  match v with
  | VUndef => false
  | VNull | VBool _ | VNum _ | VStr _ => true
  | VArr l => forallb json_safe l
  | VObj kvs =>
      forallb (λ kv : string * value, let '(_, x) := kv in json_safe x) kvs
      && bool_decide (NoDup kvs.*1)
  end.


(** ** JavaScript operators used by the repositories *)

(** [ToBoolean]: the test behind [if (x)], [x || y] and [x ? a : b]. *)
Definition truthy (v : value) : bool :=
  match v with
  | VUndef | VNull => false
  | VBool b => b
  | VNum n => negb (n =? 0)%Z
  | VStr s => negb (String.eqb s "")
  | VArr _ | VObj _ => true
  end.

(** [a || b]. *)
Definition js_or (a b : value) : value := if truthy a then a else b.

(** [x !== undefined]. *)
Definition defined (v : value) : bool :=
  match v with
  | VUndef => false
  | _ => true
  end.

Fixpoint kv_get (k : string) (kvs : list (string * value)) : value :=
  match kvs with
  | [] => VUndef
  | (k', v) :: rest => if String.eqb k k' then v else kv_get k rest
  end.

(** [v?.k]: undefined on [null] and [undefined], a property read otherwise
    (primitives and arrays have none of the properties read here). *)
Definition opt_prop (v : value) (k : string) : value :=
  match v with
  | VObj kvs => kv_get k kvs
  | _ => VUndef
  end.

(** [ToString] on the values [JSON.parse] can be handed. *)
Fixpoint to_js_string (v : value) : string :=
  match v with
  | VUndef => "undefined"
  | VNull => "null"
  | VBool b => if b then "true" else "false"
  | VNum n => number_to_string n
  | VStr s => s
  | VArr l =>
      join_comma (map (λ x, match x with
                            | VUndef | VNull => ""
                            | _ => to_js_string x
                            end) l)
  | VObj _ => "[object Object]"
  end.

(** Top-level records (the argument and result objects of the repository
    functions) are finite maps from property names to values; reading a
    missing property yields [undefined]. *)
#[global] Instance value_inhabited : Inhabited value := populate VUndef.

Abbreviation obj := (gmap string value).


(** ** Outcomes *)

Inductive constraint : Type :=
| NotNull (c : string)
| Check (c : string)
| Unique (c : string)
| ForeignKey (c : string).

Inductive error : Type :=
| TypeError          (* property read on null or undefined *)
| SyntaxError        (* JSON.parse *)
| BindError          (* a value the driver cannot bind, or a wrong count *)
| SqliteError (c : constraint).

Inductive result (A : Type) : Type :=
| Ok (a : A)
| Err (e : error).
Arguments Ok {A} a.
Arguments Err {A} e.

Definition rbind {A B : Type} (m : result A) (k : A → result B) : result B :=
  match m with
  | Ok a => k a
  | Err e => Err e
  end.

#[global] Instance result_bind : MBind result := λ A B k m, rbind m k.
#[global] Instance result_ret : MRet result := λ A a, Ok a.
#[global] Instance result_fmap : FMap result := λ A B f m, rbind m (λ a, Ok (f a)).

Fixpoint traverse {A B : Type} (f : A → result B) (l : list A) : result (list B) :=
  match l with
  | [] => Ok []
  | x :: l' => y ← f x; ys ← traverse f l'; Ok (y :: ys)
  end.

Definition JSON_stringify (v : value) : value :=
  match JSON_ser v with
  | Some s => VStr s
  | None => VUndef
  end.

Definition JSON_parse (v : value) : result value :=
  match JSON_parse_text (to_js_string v) with
  | Some x => Ok x
  | None => Err SyntaxError
  end.

(** ** The store *)

Inductive sqlval : Type :=
| SNull
| SNum (n : Z)
| SText (s : string).

#[global] Instance sqlval_inhabited : Inhabited sqlval := populate SNull.
#[global] Instance sqlval_eq_dec : EqDecision sqlval.
Proof. solve_decision. Defined.

(** A row maps column names to cells; a column without entry reads NULL. *)
Abbreviation row := (gmap string sqlval).

(** What the driver binds for a statement parameter: [undefined] and [null]
    become NULL, numbers and strings themselves; anything else is refused. *)
Definition bind_param (v : value) : result sqlval :=
  match v with
  | VUndef | VNull => Ok SNull
  | VNum n => Ok (SNum n)
  | VStr s => Ok (SText s)
  | VBool _ | VArr _ | VObj _ => Err BindError
  end.

(** What the driver hands back for a cell. *)
Definition js_of_sql (x : sqlval) : value :=
  match x with
  | SNull => VNull
  | SNum n => VNum n
  | SText s => VStr s
  end.

(** [a = b] in a WHERE clause: never true on NULL. *)
Definition sql_eqb (a b : sqlval) : bool :=
  match a, b with
  | SNum x, SNum y => (x =? y)%Z
  | SText s, SText t => String.eqb s t
  | _, _ => false
  end.

Inductive table : Type :=
| Customers | Employees | Services | Appointments | TallyItems | Products.

#[global] Instance table_eq_dec : EqDecision table.
Proof. solve_decision. Defined.

Inductive default_expr : Type :=
| DefaultValue (x : sqlval)
| CURRENT_TIMESTAMP.

Record column : Type := Column {
  col_name : string;
  col_not_null : bool;
  col_unique : bool;
  col_check : option (list string);
  col_default : option default_expr;
  col_references : option table
}.

Definition COL (name : string) : column :=
  Column name false false None None None.
Definition NOT_NULL (c : column) : column :=
  Column (col_name c) true (col_unique c) (col_check c) (col_default c) (col_references c).
Definition UNIQUE (c : column) : column :=
  Column (col_name c) (col_not_null c) true (col_check c) (col_default c) (col_references c).
(** A TEXT PRIMARY KEY of a rowid table is unique but admits NULL. *)
Definition PRIMARY_KEY (c : column) : column := UNIQUE c.
Definition CHECK_IN (allowed : list string) (c : column) : column :=
  Column (col_name c) (col_not_null c) (col_unique c) (Some allowed) (col_default c) (col_references c).
Definition DEFAULT (e : default_expr) (c : column) : column :=
  Column (col_name c) (col_not_null c) (col_unique c) (col_check c) (Some e) (col_references c).
Definition REFERENCES (t : table) (c : column) : column :=
  Column (col_name c) (col_not_null c) (col_unique c) (col_check c) (col_default c) (Some t).

Definition timestamps : list column :=
  [ DEFAULT CURRENT_TIMESTAMP (COL "created_at");
    DEFAULT CURRENT_TIMESTAMP (COL "updated_at") ].

(** [createTables]: the six CREATE TABLE statements. *)
Definition schema (t : table) : list column :=
  match t with
  | Customers =>
      [ PRIMARY_KEY (COL "id");
        NOT_NULL (COL "name");
        UNIQUE (NOT_NULL (COL "phone"));
        COL "email";
        NOT_NULL (CHECK_IN ["male"; "female"] (COL "gender"));
        DEFAULT (DefaultValue (SNum 0)) (COL "visit_count");
        DEFAULT (DefaultValue (SNum 0)) (COL "total_spent");
        COL "last_visit";
        COL "preferred_services";
        COL "notes";
        COL "photo" ] ++ timestamps
  | Employees =>
      [ PRIMARY_KEY (COL "id");
        NOT_NULL (COL "name");
        NOT_NULL (COL "role");
        COL "email";
        COL "phone";
        COL "photo";
        DEFAULT (DefaultValue (SNum 1)) (COL "available");
        COL "specialties";
        DEFAULT (DefaultValue (SNum 5)) (COL "rating");
        COL "next_available";
        DEFAULT (DefaultValue (SText "09:00")) (COL "working_hours_start");
        DEFAULT (DefaultValue (SText "18:00")) (COL "working_hours_end") ] ++ timestamps
  | Services =>
      [ PRIMARY_KEY (COL "id");
        NOT_NULL (COL "name");
        NOT_NULL (COL "duration");
        NOT_NULL (COL "price");
        NOT_NULL (COL "category");
        COL "description" ] ++ timestamps
  | Appointments =>
      [ PRIMARY_KEY (COL "id");
        REFERENCES Customers (NOT_NULL (COL "customer_id"));
        REFERENCES Employees (NOT_NULL (COL "employee_id"));
        NOT_NULL (COL "service_ids");
        NOT_NULL (COL "date");
        NOT_NULL (COL "time");
        DEFAULT (DefaultValue (SText "scheduled"))
          (CHECK_IN ["scheduled"; "completed"; "cancelled"] (COL "status"));
        NOT_NULL (COL "total");
        COL "notes" ] ++ timestamps
  | TallyItems =>
      [ PRIMARY_KEY (COL "id");
        NOT_NULL (COL "date");
        NOT_NULL (COL "time");
        NOT_NULL (COL "customer_name");
        NOT_NULL (COL "customer_phone");
        NOT_NULL (COL "staff_name");
        NOT_NULL (COL "services");
        NOT_NULL (COL "total_cost");
        NOT_NULL (CHECK_IN ["cash"; "card"; "upi"] (COL "payment_method"));
        DEFAULT (DefaultValue (SText "pending"))
          (CHECK_IN ["pending"; "completed"; "failed"; "cancelled"] (COL "payment_status"));
        COL "payment_date";
        COL "upi_transaction_id" ] ++ timestamps
  | Products =>
      [ PRIMARY_KEY (COL "id");
        NOT_NULL (COL "name");
        NOT_NULL (COL "price");
        COL "image";
        NOT_NULL (COL "category");
        DEFAULT (DefaultValue (SNum 0)) (COL "stock");
        COL "description";
        COL "brand" ] ++ timestamps
  end.

(** The database file: the rows of each table, in rowid order. *)
Record db : Type := Db {
  customers : list row;
  employees : list row;
  services : list row;
  appointments : list row;
  tally_items : list row;
  products : list row
}.

Definition empty_db : db := Db [] [] [] [] [] [].

Definition rows_of (t : table) (d : db) : list row :=
  match t with
  | Customers => customers d
  | Employees => employees d
  | Services => services d
  | Appointments => appointments d
  | TallyItems => tally_items d
  | Products => products d
  end.

Definition with_rows (t : table) (rs : list row) (d : db) : db :=
  match t with
  | Customers => Db rs (employees d) (services d) (appointments d) (tally_items d) (products d)
  | Employees => Db (customers d) rs (services d) (appointments d) (tally_items d) (products d)
  | Services => Db (customers d) (employees d) rs (appointments d) (tally_items d) (products d)
  | Appointments => Db (customers d) (employees d) (services d) rs (tally_items d) (products d)
  | TallyItems => Db (customers d) (employees d) (services d) (appointments d) rs (products d)
  | Products => Db (customers d) (employees d) (services d) (appointments d) (tally_items d) rs
  end.

(** The three readings of the clock an operation can take. *)
Record clock : Type := Clock {
  Date_now : Z;               (* Date.now() *)
  toISOString : string;       (* new Date().toISOString() *)
  sql_timestamp : string      (* CURRENT_TIMESTAMP, inside the store *)
}.

Definition has_id (idv : sqlval) (r : row) : bool := sql_eqb (r !!! "id") idv.

Definition check_allows (allowed : list string) (x : sqlval) : bool :=
  match x with
  | SNull => true
  | SText s => bool_decide (s ∈ allowed)
  | SNum _ => false
  end.

(** The constraints of one column on the value [x] it is about to hold,
    given the rows [others] it must stay unique among. *)
Definition column_violation (d : db) (others : list row) (c : column) (x : sqlval)
  : option constraint :=
  if col_not_null c && bool_decide (x = SNull) then Some (NotNull (col_name c))
  else if negb (from_option (λ allowed, check_allows allowed x) true (col_check c))
  then Some (Check (col_name c))
  else if col_unique c && existsb (λ r, sql_eqb (r !!! col_name c) x) others
  then Some (Unique (col_name c))
  else
    match col_references c with
    | Some parent =>
        if bool_decide (x = SNull) || existsb (has_id x) (rows_of parent d)
        then None else Some (ForeignKey (col_name c))
    | None => None
    end.

Fixpoint first_violation (d : db) (others : list row) (cols : list column) (r : row)
  : option constraint :=
  match cols with
  | [] => None
  | c :: cols' =>
      match column_violation d others c (r !!! col_name c) with
      | Some v => Some v
      | None => first_violation d others cols' r
      end
  end.

Definition default_cell (clk : clock) (c : column) : sqlval :=
  match col_default c with
  | Some (DefaultValue x) => x
  | Some CURRENT_TIMESTAMP => SText (sql_timestamp clk)
  | None => SNull
  end.

(** The row an INSERT builds: the listed columns take the given cells, the
    other columns of the table their default. *)
Definition new_row (t : table) (given : list (string * sqlval)) (clk : clock) : row :=
  list_to_map given ∪
  list_to_map (map (λ c, (col_name c, default_cell clk c)) (schema t)).

Definition sql_insert (t : table) (given : list (string * sqlval)) (clk : clock) (d : db)
  : result db :=
  let r := new_row t given clk in
  match first_violation d (rows_of t d) (schema t) r with
  | Some v => Err (SqliteError v)
  | None => Ok (with_rows t (rows_of t d ++ [r]) d)
  end.

Definition assign (sets : list (string * sqlval)) (r : row) : row :=
  foldl (λ acc kv, <[kv.1 := kv.2]> acc) r sets.

Definition column_named (t : table) (name : string) : option column :=
  List.find (λ c, String.eqb (col_name c) name) (schema t).

(** The constraints of the assigned columns, in the order of the SET list
    (every column the repositories assign is a column of its table). *)
Fixpoint assignment_violation (d : db) (others : list row) (t : table)
    (sets : list (string * sqlval)) : option constraint :=
  match sets with
  | [] => None
  | (name, x) :: sets' =>
      match from_option (λ c, column_violation d others c x) None (column_named t name) with
      | Some v => Some v
      | None => assignment_violation d others t sets'
      end
  end.

(** [UPDATE t SET c1 = ?, ... WHERE id = ?]: every row whose id equals the
    parameter takes the assignments. When no row does, nothing is checked
    and nothing changes. Otherwise the assigned columns are checked against
    the rows left alone and the further rows touched by the same statement. *)
Definition sql_update (t : table) (sets : list (string * sqlval)) (idv : sqlval) (d : db)
  : result db :=
  let rows := rows_of t d in
  if negb (existsb (has_id idv) rows) then Ok d
  else
    let others :=
      List.filter (λ r, negb (has_id idv r)) rows
      ++ map (assign sets) (tail (List.filter (has_id idv) rows)) in
    match assignment_violation d others t sets with
    | Some v => Err (SqliteError v)
    | None =>
        Ok (with_rows t (map (λ r, if has_id idv r then assign sets r else r) rows) d)
    end.

Definition all_tables : list table :=
  [Customers; Employees; Services; Appointments; TallyItems; Products].

(** The (table, column) pairs that reference table [t]. *)
Definition referencing (t : table) : list (table * string) :=
  flat_map (λ t', flat_map (λ c,
      match col_references c with
      | Some p => if bool_decide (p = t) then [(t', col_name c)] else []
      | None => []
      end) (schema t')) all_tables.

(** [DELETE FROM t WHERE id = ?], with foreign keys enforced: a row that is
    still referenced cannot go. *)
Definition sql_delete (t : table) (idv : sqlval) (d : db) : result db :=
  let rows := rows_of t d in
  if negb (existsb (has_id idv) rows) then Ok d
  else
    match List.find (λ tc : table * string,
              existsb (λ r, sql_eqb (r !!! tc.2) idv) (rows_of tc.1 d))
            (referencing t) with
    | Some tc => Err (SqliteError (ForeignKey tc.2))
    | None => Ok (with_rows t (List.filter (λ r, negb (has_id idv r)) rows) d)
    end.

(** ORDER BY: NULL sorts first, then numbers, then text by its bytes. *)
Definition sql_leb (a b : sqlval) : bool :=
  match a, b with
  | SNull, _ => true
  | _, SNull => false
  | SNum x, SNum y => (x <=? y)%Z
  | SNum _, SText _ => true
  | SText _, SNum _ => false
  | SText s, SText t => String.leb s t
  end.

Inductive direction : Type := ASC | DESC.

Fixpoint row_leb (order : list (string * direction)) (r1 r2 : row) : bool :=
  match order with
  | [] => true
  | (c, dir) :: order' =>
      let a := r1 !!! c in
      let b := r2 !!! c in
      if bool_decide (a = b) then row_leb order' r1 r2
      else match dir with
           | ASC => sql_leb a b
           | DESC => sql_leb b a
           end
  end.

Definition row_le (order : list (string * direction)) (r1 r2 : row) : Prop :=
  row_leb order r1 r2 = true.

#[global] Instance row_le_dec order : RelDecision (row_le order).
Proof. intros r1 r2. unfold row_le. apply _. Defined.

(** [SELECT * FROM t ORDER BY ...] through [stmt.all()]: the rows, sorted.
    (The order among rows with equal keys is the one of the merge sort; the
    statements below do not depend on it.) *)
Definition sql_all (t : table) (order : list (string * direction)) (d : db) : list row :=
  merge_sort (row_le order) (rows_of t d).

(** [SELECT * FROM t WHERE id = ?] through [stmt.get(id)]: the first row, if any. *)
Definition sql_get (t : table) (idv : sqlval) (d : db) : option row :=
  head (List.filter (has_id idv) (rows_of t d)).

(** [SELECT COUNT( * ) FROM t]. *)
Definition sql_count (t : table) (d : db) : Z := Z.of_nat (length (rows_of t d)).

(** ** Running prepared statements *)

(** A value list of an INSERT: [?] takes the next argument of [run]. *)
Inductive sql_expr : Type :=
| Param
| Lit (x : sqlval).

Fixpoint fill (exprs : list sql_expr) (args : list sqlval) : result (list sqlval) :=
  match exprs, args with
  | [], [] => Ok []
  | [], _ :: _ => Err BindError
  | Lit x :: exprs', _ => xs ← fill exprs' args; Ok (x :: xs)
  | Param :: exprs', a :: args' => xs ← fill exprs' args'; Ok (a :: xs)
  | Param :: _, [] => Err BindError
  end.

(** [db.prepare('INSERT INTO t (cols) VALUES (exprs)').run(...args)]. *)
Definition run_insert (t : table) (cols : list string) (exprs : list sql_expr)
    (args : list value) (clk : clock) (d : db) : result db :=
  params ← traverse bind_param args;
  cells ← fill exprs params;
  sql_insert t (zip cols cells) clk d.

(** [db.prepare(`UPDATE t SET ${fields.join(', ')} WHERE id = ?`).run(...values)]
    where [values] ends with the id. The arrays [fields] and [values] are
    pushed in lockstep and are kept here as one list of pairs. *)
Definition run_update (t : table) (sets : list (string * value)) (id : string) (d : db)
  : result db :=
  params ← traverse bind_param (sets.*2 ++ [VStr id]);
  sql_update t (zip sets.*1 params) (SText id) d.

(** [db.prepare('DELETE FROM t WHERE id = ?').run(id)]. *)
Definition run_delete (t : table) (id : string) (d : db) : result db :=
  sql_delete t (SText id) d.

(** [if (cond) { fields.push('f = ?'); values.push(v); }]. *)
Definition push (cond : bool) (f : string) (v : value) (acc : list (string * value))
  : list (string * value) :=
  if cond then acc ++ [(f, v)] else acc.

(** The record a result row is mapped to: [{ k1: e1, k2: e2, ... }]. *)
Definition object (fields : list (string * value)) : obj := list_to_map fields.

Definition field (r : row) (c : string) : value := js_of_sql (r !!! c).

(** ** The repositories *)

Module customerDb.

(** The record a result row is mapped to, by [getAll] and by [getById]. *)
Definition of_row (r : row) : result obj :=
  preferredServices ← JSON_parse (js_or (field r "preferred_services") (VStr "[]"));
  Ok (object
    [ ("id", field r "id");
      ("name", field r "name");
      ("phone", field r "phone");
      ("email", field r "email");
      ("gender", field r "gender");
      ("visitCount", field r "visit_count");
      ("totalSpent", field r "total_spent");
      ("lastVisit", field r "last_visit");
      ("preferredServices", preferredServices);
      ("notes", field r "notes");
      ("photo", field r "photo") ]).

Definition getAll (d : db) : result (list obj) :=
  traverse of_row (sql_all Customers [("name", ASC)] d).

(** [None] is the [null] returned when no row matches. *)
Definition getById (id : string) (d : db) : result (option obj) :=
  match sql_get Customers (SText id) d with
  | None => Ok None
  | Some r => Some <$> of_row r
  end.

Definition new_id (clk : clock) : string := "cust-" +:+ number_to_string (Date_now clk).

Definition create (customer : obj) (clk : clock) (d : db) : result (obj * db) :=
  let id := new_id clk in
  let now := toISOString clk in
  d' ← run_insert Customers
    [ "id"; "name"; "phone"; "email"; "gender"; "visit_count"; "total_spent";
      "last_visit"; "preferred_services"; "notes"; "photo" ]
    [ Param; Param; Param; Param; Param; Lit (SNum 0); Lit (SNum 0);
      Param; Param; Param; Param ]
    [ VStr id;
      customer !!! "name";
      customer !!! "phone";
      customer !!! "email";
      customer !!! "gender";
      VStr now;
      JSON_stringify (customer !!! "preferredServices");
      js_or (customer !!! "notes") (VStr "");
      customer !!! "photo" ]
    clk d;
  Ok (<["lastVisit" := VStr now]>
        (<["totalSpent" := VNum 0]>
           (<["visitCount" := VNum 0]>
              (<["id" := VStr id]> customer))), d').

Definition update_sets (updates : obj) (clk : clock) : list (string * value) :=
  let a := [] in
  let a := push (truthy (updates !!! "name")) "name" (updates !!! "name") a in
  let a := push (truthy (updates !!! "phone")) "phone" (updates !!! "phone") a in
  let a := push (defined (updates !!! "email")) "email" (updates !!! "email") a in
  let a := push (truthy (updates !!! "gender")) "gender" (updates !!! "gender") a in
  let a := push (defined (updates !!! "visitCount")) "visit_count" (updates !!! "visitCount") a in
  let a := push (defined (updates !!! "totalSpent")) "total_spent" (updates !!! "totalSpent") a in
  let a := push (truthy (updates !!! "lastVisit")) "last_visit" (updates !!! "lastVisit") a in
  let a := push (truthy (updates !!! "preferredServices")) "preferred_services"
             (JSON_stringify (updates !!! "preferredServices")) a in
  let a := push (defined (updates !!! "notes")) "notes" (updates !!! "notes") a in
  let a := push (defined (updates !!! "photo")) "photo" (updates !!! "photo") a in
  a ++ [("updated_at", VStr (toISOString clk))].

Definition update (id : string) (updates : obj) (clk : clock) (d : db) : result db :=
  run_update Customers (update_sets updates clk) id d.

Definition delete (id : string) (d : db) : result db :=
  run_delete Customers id d.

End customerDb.

Module employeeDb.

(** The callback of [rows.map] in [getAll]. *)
Definition of_row (r : row) : result obj :=
  specialties ← JSON_parse (js_or (field r "specialties") (VStr "[]"));
  Ok (object
    [ ("id", field r "id");
      ("name", field r "name");
      ("role", field r "role");
      ("email", field r "email");
      ("phone", field r "phone");
      ("photo", field r "photo");
      ("available", VBool (truthy (field r "available")));
      ("specialties", specialties);
      ("rating", field r "rating");
      ("nextAvailable", field r "next_available");
      ("workingHours",
        VObj [ ("start", field r "working_hours_start");
               ("end", field r "working_hours_end") ]) ]).

Definition getAll (d : db) : result (list obj) :=
  traverse of_row (sql_all Employees [("name", ASC)] d).

Definition new_id (clk : clock) : string := "emp-" +:+ number_to_string (Date_now clk).

Definition create (employee : obj) (clk : clock) (d : db) : result (obj * db) :=
  let id := new_id clk in
  d' ← run_insert Employees
    [ "id"; "name"; "role"; "email"; "phone"; "photo"; "available"; "specialties";
      "rating"; "next_available"; "working_hours_start"; "working_hours_end" ]
    [ Param; Param; Param; Param; Param; Param; Param; Param;
      Param; Param; Param; Param ]
    [ VStr id;
      employee !!! "name";
      employee !!! "role";
      js_or (employee !!! "email") (VStr "");
      js_or (employee !!! "phone") (VStr "");
      employee !!! "photo";
      VNum (if truthy (employee !!! "available") then 1 else 0);
      JSON_stringify (js_or (employee !!! "specialties") (VArr []));
      js_or (employee !!! "rating") (VNum 5);
      js_or (employee !!! "nextAvailable") (VStr "Now");
      js_or (opt_prop (employee !!! "workingHours") "start") (VStr "09:00");
      js_or (opt_prop (employee !!! "workingHours") "end") (VStr "18:00") ]
    clk d;
  Ok (<["id" := VStr id]> employee, d').

Definition update_sets (updates : obj) (clk : clock) : list (string * value) :=
  let a := [] in
  let a := push (truthy (updates !!! "name")) "name" (updates !!! "name") a in
  let a := push (truthy (updates !!! "role")) "role" (updates !!! "role") a in
  let a := push (defined (updates !!! "email")) "email" (updates !!! "email") a in
  let a := push (defined (updates !!! "phone")) "phone" (updates !!! "phone") a in
  let a := push (defined (updates !!! "photo")) "photo" (updates !!! "photo") a in
  let a := push (defined (updates !!! "available")) "available"
             (VNum (if truthy (updates !!! "available") then 1 else 0)) a in
  let a := push (truthy (updates !!! "specialties")) "specialties"
             (JSON_stringify (updates !!! "specialties")) a in
  let a := push (defined (updates !!! "rating")) "rating" (updates !!! "rating") a in
  let a := push (defined (updates !!! "nextAvailable")) "next_available"
             (updates !!! "nextAvailable") a in
  (* a truthy workingHours is neither null nor undefined: reading its
     properties cannot throw *)
  let a := push (truthy (updates !!! "workingHours")) "working_hours_start"
             (opt_prop (updates !!! "workingHours") "start") a in
  let a := push (truthy (updates !!! "workingHours")) "working_hours_end"
             (opt_prop (updates !!! "workingHours") "end") a in
  a ++ [("updated_at", VStr (toISOString clk))].

Definition update (id : string) (updates : obj) (clk : clock) (d : db) : result db :=
  run_update Employees (update_sets updates clk) id d.

Definition delete (id : string) (d : db) : result db :=
  run_delete Employees id d.

End employeeDb.

Module appointmentDb.

(** The callback of [rows.map] in [getAll]: [service_ids] is parsed as it is. *)
Definition of_row (r : row) : result obj :=
  serviceIds ← JSON_parse (field r "service_ids");
  Ok (object
    [ ("id", field r "id");
      ("customerId", field r "customer_id");
      ("employeeId", field r "employee_id");
      ("serviceIds", serviceIds);
      ("date", field r "date");
      ("time", field r "time");
      ("status", field r "status");
      ("total", field r "total");
      ("notes", field r "notes") ]).

Definition getAll (d : db) : result (list obj) :=
  traverse of_row (sql_all Appointments [("date", ASC); ("time", ASC)] d).

(** Returns nothing (the [unit] of the result). *)
Definition create (appointment : obj) (clk : clock) (d : db) : result db :=
  run_insert Appointments
    [ "id"; "customer_id"; "employee_id"; "service_ids"; "date"; "time";
      "status"; "total"; "notes" ]
    [ Param; Param; Param; Param; Param; Param; Param; Param; Param ]
    [ appointment !!! "id";
      appointment !!! "customerId";
      appointment !!! "employeeId";
      JSON_stringify (appointment !!! "serviceIds");
      appointment !!! "date";
      appointment !!! "time";
      appointment !!! "status";
      appointment !!! "total";
      js_or (appointment !!! "notes") (VStr "") ]
    clk d.

Definition update_sets (updates : obj) (clk : clock) : list (string * value) :=
  let a := [] in
  let a := push (truthy (updates !!! "status")) "status" (updates !!! "status") a in
  let a := push (defined (updates !!! "notes")) "notes" (updates !!! "notes") a in
  let a := push (defined (updates !!! "total")) "total" (updates !!! "total") a in
  a ++ [("updated_at", VStr (toISOString clk))].

Definition update (id : string) (updates : obj) (clk : clock) (d : db) : result db :=
  run_update Appointments (update_sets updates clk) id d.

End appointmentDb.

(** The payment states [updatePaymentStatus] accepts. *)
Inductive payment_outcome : Type := completed | failed | cancelled.

Definition payment_outcome_text (s : payment_outcome) : string :=
  match s with
  | completed => "completed"
  | failed => "failed"
  | cancelled => "cancelled"
  end.

Module tallyDb.

(** The callback of [rows.map] in [getAll]: [services] is parsed as it is. *)
Definition of_row (r : row) : result obj :=
  services ← JSON_parse (field r "services");
  Ok (object
    [ ("id", field r "id");
      ("date", field r "date");
      ("time", field r "time");
      ("customerName", field r "customer_name");
      ("customerPhone", field r "customer_phone");
      ("staffName", field r "staff_name");
      ("services", services);
      ("totalCost", field r "total_cost");
      ("paymentMethod", field r "payment_method");
      ("paymentStatus", field r "payment_status");
      ("paymentDate", field r "payment_date");
      ("upiTransactionId", field r "upi_transaction_id") ]).

Definition getAll (d : db) : result (list obj) :=
  traverse of_row (sql_all TallyItems [("date", DESC); ("time", DESC)] d).

Definition new_id (clk : clock) : string := "tally-" +:+ number_to_string (Date_now clk).

Definition create (item : obj) (clk : clock) (d : db) : result (obj * db) :=
  let id := new_id clk in
  let paymentDate := toISOString clk in
  d' ← run_insert TallyItems
    [ "id"; "date"; "time"; "customer_name"; "customer_phone"; "staff_name";
      "services"; "total_cost"; "payment_method"; "payment_status"; "payment_date" ]
    [ Param; Param; Param; Param; Param; Param; Param; Param; Param; Param; Param ]
    [ VStr id;
      item !!! "date";
      item !!! "time";
      item !!! "customerName";
      item !!! "customerPhone";
      item !!! "staffName";
      JSON_stringify (item !!! "services");
      item !!! "totalCost";
      item !!! "paymentMethod";
      item !!! "paymentStatus";
      VStr paymentDate ]
    clk d;
  Ok (<["upiTransactionId" := VUndef]>
        (<["paymentDate" := VStr paymentDate]>
           (<["id" := VStr id]> item)), d').

(** [upiTransactionId] is optional: [None] when the call leaves it out. *)
Definition updatePaymentStatus (id : string) (status : payment_outcome)
    (upiTransactionId : option string) (clk : clock) (d : db) : result db :=
  run_update TallyItems
    [ ("payment_status", VStr (payment_outcome_text status));
      ("upi_transaction_id", js_or (from_option VStr VUndef upiTransactionId) VNull);
      ("updated_at", VStr (toISOString clk)) ]
    id d.

End tallyDb.

(** [stmt.all()] handed back as it is: each row of [SELECT *] is an object
    with one property per column of the table. *)
Definition raw_row (t : table) (r : row) : obj :=
  object (map (λ c, (col_name c, field r (col_name c))) (schema t)).

Module serviceDb.

Definition getAll (d : db) : result (list obj) :=
  Ok (raw_row Services <$> sql_all Services [("name", ASC)] d).

Definition create (service : obj) (clk : clock) (d : db) : result db :=
  run_insert Services
    [ "id"; "name"; "duration"; "price"; "category"; "description" ]
    [ Param; Param; Param; Param; Param; Param ]
    [ service !!! "id";
      service !!! "name";
      service !!! "duration";
      service !!! "price";
      service !!! "category";
      service !!! "description" ]
    clk d.

Definition update_sets (updates : obj) (clk : clock) : list (string * value) :=
  let a := [] in
  let a := push (truthy (updates !!! "name")) "name" (updates !!! "name") a in
  let a := push (defined (updates !!! "duration")) "duration" (updates !!! "duration") a in
  let a := push (defined (updates !!! "price")) "price" (updates !!! "price") a in
  let a := push (truthy (updates !!! "category")) "category" (updates !!! "category") a in
  let a := push (defined (updates !!! "description")) "description"
             (updates !!! "description") a in
  a ++ [("updated_at", VStr (toISOString clk))].

Definition update (id : string) (updates : obj) (clk : clock) (d : db) : result db :=
  run_update Services (update_sets updates clk) id d.

Definition delete (id : string) (d : db) : result db :=
  run_delete Services id d.

End serviceDb.

Module productDb.

Definition getAll (d : db) : result (list obj) :=
  Ok (raw_row Products <$> sql_all Products [("name", ASC)] d).

Definition create (product : obj) (clk : clock) (d : db) : result db :=
  run_insert Products
    [ "id"; "name"; "price"; "image"; "category"; "stock"; "description"; "brand" ]
    [ Param; Param; Param; Param; Param; Param; Param; Param ]
    [ product !!! "id";
      product !!! "name";
      product !!! "price";
      product !!! "image";
      product !!! "category";
      product !!! "stock";
      product !!! "description";
      product !!! "brand" ]
    clk d.

Definition update_sets (updates : obj) (clk : clock) : list (string * value) :=
  let a := [] in
  let a := push (truthy (updates !!! "name")) "name" (updates !!! "name") a in
  let a := push (defined (updates !!! "price")) "price" (updates !!! "price") a in
  let a := push (defined (updates !!! "image")) "image" (updates !!! "image") a in
  let a := push (truthy (updates !!! "category")) "category" (updates !!! "category") a in
  let a := push (defined (updates !!! "stock")) "stock" (updates !!! "stock") a in
  let a := push (defined (updates !!! "description")) "description"
             (updates !!! "description") a in
  let a := push (truthy (updates !!! "brand")) "brand" (updates !!! "brand") a in
  a ++ [("updated_at", VStr (toISOString clk))].

Definition update (id : string) (updates : obj) (clk : clock) (d : db) : result db :=
  run_update Products (update_sets updates clk) id d.

Definition delete (id : string) (d : db) : result db :=
  run_delete Products id d.

End productDb.

(** ** Bootstrap and seeding *)

(** The seed lists of [../data/mockData], which the module imports; they are
    a parameter of the bootstrap. *)
Record mockData : Type := MockData {
  mockCustomers : list obj;
  mockEmployees : list obj;
  mockServices : list obj;
  mockProducts : list obj
}.

(** [v.k]: throws on [null] and [undefined]. *)
Definition prop (v : value) (k : string) : result value :=
  match v with
  | VUndef | VNull => Err TypeError
  | _ => Ok (opt_prop v k)
  end.

(** [list.forEach(x => stmt.run(...))]: a [run] that throws ends the loop,
    and the rows inserted before it stay. *)
Fixpoint forEach {A : Type} (f : A → db → result db) (l : list A) (d : db)
  : db * option error :=
  match l with
  | [] => (d, None)
  | x :: l' =>
      match f x d with
      | Ok d' => forEach f l' d'
      | Err e => (d, Some e)
      end
  end.

Definition insertCustomer (clk : clock) (customer : obj) (d : db) : result db :=
  run_insert Customers
    [ "id"; "name"; "phone"; "email"; "gender"; "visit_count"; "total_spent";
      "last_visit"; "preferred_services"; "notes"; "photo" ]
    [ Param; Param; Param; Param; Param; Param; Param; Param; Param; Param; Param ]
    [ customer !!! "id";
      customer !!! "name";
      customer !!! "phone";
      customer !!! "email";
      customer !!! "gender";
      customer !!! "visitCount";
      customer !!! "totalSpent";
      customer !!! "lastVisit";
      JSON_stringify (customer !!! "preferredServices");
      customer !!! "notes";
      customer !!! "photo" ]
    clk d.

Definition insertEmployee (clk : clock) (employee : obj) (d : db) : result db :=
  start ← prop (employee !!! "workingHours") "start";
  end_ ← prop (employee !!! "workingHours") "end";
  run_insert Employees
    [ "id"; "name"; "role"; "email"; "phone"; "photo"; "available"; "specialties";
      "rating"; "next_available"; "working_hours_start"; "working_hours_end" ]
    [ Param; Param; Param; Param; Param; Param; Param; Param;
      Param; Param; Param; Param ]
    [ employee !!! "id";
      employee !!! "name";
      employee !!! "role";
      VStr "";
      VStr "";
      employee !!! "photo";
      VNum (if truthy (employee !!! "available") then 1 else 0);
      JSON_stringify (employee !!! "specialties");
      employee !!! "rating";
      employee !!! "nextAvailable";
      start;
      end_ ]
    clk d.

Definition insertService (clk : clock) (service : obj) (d : db) : result db :=
  run_insert Services
    [ "id"; "name"; "duration"; "price"; "category"; "description" ]
    [ Param; Param; Param; Param; Param; Param ]
    [ service !!! "id";
      service !!! "name";
      service !!! "duration";
      service !!! "price";
      service !!! "category";
      service !!! "description" ]
    clk d.

Definition insertProduct (clk : clock) (product : obj) (d : db) : result db :=
  run_insert Products
    [ "id"; "name"; "price"; "image"; "category"; "stock"; "description"; "brand" ]
    [ Param; Param; Param; Param; Param; Param; Param; Param ]
    [ product !!! "id";
      product !!! "name";
      product !!! "price";
      product !!! "image";
      product !!! "category";
      product !!! "stock";
      product !!! "description";
      product !!! "brand" ]
    clk d.

(** The callback of [import('../data/mockData').then(...)]: four loops, the
    first exception ends the callback. *)
Definition seed (m : mockData) (clk : clock) (d : db) : db * option error :=
  match forEach (insertCustomer clk) (mockCustomers m) d with
  | (dc, Some e) => (dc, Some e)
  | (dc, None) =>
      match forEach (insertEmployee clk) (mockEmployees m) dc with
      | (de, Some e) => (de, Some e)
      | (de, None) =>
          match forEach (insertService clk) (mockServices m) de with
          | (ds, Some e) => (ds, Some e)
          | (ds, None) => forEach (insertProduct clk) (mockProducts m) ds
          end
      end
  end.

(** [insertInitialData]: the count is taken now; the inserts are left to a
    callback that runs later, on the database as it is by then. [None] when
    nothing is scheduled. *)
Definition insertInitialData (m : mockData) (d : db)
  : option (clock → db → db * option error) :=
  if (sql_count Customers d =? 0)%Z then Some (seed m) else None.

(** [CREATE TABLE IF NOT EXISTS]: the six tables are there from then on; a
    new file has them empty. *)
Definition createTables (d : db) : db := d.

Definition initDatabase (m : mockData) (d : db)
  : db * option (clock → db → db * option error) :=
  let d := createTables d in
  (d, insertInitialData m d).

(** ** The six exported objects *)

Module Export exported.
(** The properties of an exported repository object; [None] for a
    property the object does not have. [create] hands back [None] when the
    function returns nothing. *)
Record repository : Type := Repository {
  r_getAll : option (db → result (list obj));
  r_getById : option (string → db → result (option obj));
  r_create : option (obj → clock → db → result (option obj * db));
  r_update : option (string → obj → clock → db → result db);
  r_delete : option (string → db → result db);
  r_updatePaymentStatus :
    option (string → payment_outcome → option string → clock → db → result db)
}.
End exported.

Definition returning {A : Type} (f : obj → clock → db → result (A * db))
  : obj → clock → db → result (option A * db) :=
  λ x clk d, '(a, d') ← f x clk d; Ok (Some a, d').

Definition returning_nothing (f : obj → clock → db → result db)
  : obj → clock → db → result (option obj * db) :=
  λ x clk d, d' ← f x clk d; Ok (None, d').

Definition repository_of (t : table) : repository :=
  match t with
  | Customers =>
      Repository (Some customerDb.getAll) (Some customerDb.getById)
        (Some (returning customerDb.create)) (Some customerDb.update)
        (Some customerDb.delete) None
  | Employees =>
      Repository (Some employeeDb.getAll) None
        (Some (returning employeeDb.create)) (Some employeeDb.update)
        (Some employeeDb.delete) None
  | Appointments =>
      Repository (Some appointmentDb.getAll) None
        (Some (returning_nothing appointmentDb.create)) (Some appointmentDb.update)
        None None
  | TallyItems =>
      Repository (Some tallyDb.getAll) None
        (Some (returning tallyDb.create)) None
        None (Some tallyDb.updatePaymentStatus)
  | Services =>
      Repository (Some serviceDb.getAll) None
        (Some (returning_nothing serviceDb.create)) (Some serviceDb.update)
        (Some serviceDb.delete) None
  | Products =>
      Repository (Some productDb.getAll) None
        (Some (returning_nothing productDb.create)) (Some productDb.update)
        (Some productDb.delete) None
  end.


(** * Vocabulary of the statements, and sample inputs *)

(** ** Values that JSON carries *)

(** The text [JSON.stringify] writes for a value inside an array. *)
Definition ser_text (x : value) : string := default "null" (JSON_ser x).

(** The text of one member of an object. *)
Definition member_text (kv : string * value) : string :=
  quote kv.1 +:+ ":" +:+ ser_text kv.2.

(** What can follow a value inside a text: the end, a comma, a closing
    bracket or a closing brace. *)
Definition delim_start (s : string) : bool :=
  match s with
  | EmptyString => true
  | String c _ =>
      bool_decide (c = ","%char) || bool_decide (c = "]"%char)
      || bool_decide (c = "}"%char)
  end.

(** What a value can start with: no white space, no closing bracket or
    brace. *)
Definition starts_value (s : string) : bool :=
  match s with
  | EmptyString => false
  | String c _ =>
      negb (is_ws c) && negb (Ascii.eqb c "]") && negb (Ascii.eqb c "}")
  end.

(** The parser reads back the text of [v], whatever follows it, given fuel
    for the length of the text. *)
Definition roundtrips (v : value) : Prop :=
  json_safe v = true →
  ∀ (n : nat) (rest : string),
    delim_start rest = true →
    String.length (ser_text v) ≤ n →
    parse_value n (ser_text v +:+ rest) = Some (v, rest).

(** Induction on values, through the lists of elements and of members. *)
Section value_induction.
Variable P : value → Prop.
Hypothesis Hundef : P VUndef.
Hypothesis Hnull : P VNull.
Hypothesis Hbool : ∀ b, P (VBool b).
Hypothesis Hnum : ∀ n, P (VNum n).
Hypothesis Hstr : ∀ s, P (VStr s).
Hypothesis Harr : ∀ l, Forall P l → P (VArr l).
Hypothesis Hobj : ∀ kvs, Forall (λ kv, P kv.2) kvs → P (VObj kvs).

Fixpoint value_nested_ind (v : value) : P v :=
  match v with
  | VUndef => Hundef
  | VNull => Hnull
  | VBool b => Hbool b
  | VNum n => Hnum n
  | VStr s => Hstr s
  | VArr l =>
      Harr l ((fix go (l : list value) : Forall P l :=
                 match l with
                 | [] => Forall_nil_2 P
                 | x :: l' => Forall_cons_2 P x l' (value_nested_ind x) (go l')
                 end) l)
  | VObj kvs =>
      Hobj kvs ((fix go (l : list (string * value)) : Forall (λ kv, P kv.2) l :=
                   match l with
                   | [] => Forall_nil_2 _
                   | (k, x) :: l' =>
                       Forall_cons_2 (λ kv, P kv.2) (k, x) l' (value_nested_ind x) (go l')
                   end) kvs)
  end.
End value_induction.

(** ** Statement parameters and cells *)

(** The values the driver binds. *)
Definition bindable (v : value) : bool :=
  match v with
  | VUndef | VNull | VNum _ | VStr _ => true
  | VBool _ | VArr _ | VObj _ => false
  end.

(** The cell a bound value becomes. *)
Definition cell_of (v : value) : sqlval :=
  match v with
  | VNum n => SNum n
  | VStr s => SText s
  | _ => SNull
  end.

(** The cells of a SET list. *)
Definition cells (sets : list (string * value)) : list (string * sqlval) :=
  map (λ kv, (kv.1, cell_of kv.2)) sets.

(** The call returned, it did not throw. *)
Definition is_Ok {A : Type} (m : result A) : bool :=
  match m with
  | Ok _ => true
  | Err _ => false
  end.

(** First binding of a key in a list of pairs. *)
Fixpoint assoc {V : Type} (k : string) (l : list (string * V)) : option V :=
  match l with
  | [] => None
  | (k', v) :: l' => if String.eqb k' k then Some v else assoc k l'
  end.

(** Last binding of a key in a list of pairs. *)
Definition last_assoc {V : Type} (k : string) (l : list (string * V)) : option V :=
  assoc k (reverse l).

(** ** Rows and tables *)

(** No row of table [t] has the id. *)
Definition no_such_id (t : table) (id : string) (d : db) : Prop :=
  existsb (has_id (SText id)) (rows_of t d) = false.

(** The effect of the UPDATE that [sets] spells out on table [t]: the other
    tables are as before, the rows without the id are as before, and a row
    with the id reads, in every column, the last value assigned to it, or
    what it read before. *)
Definition updated_by (t : table) (sets : list (string * value)) (id : string)
    (d d' : db) : Prop :=
  (∀ t', t' ≠ t → rows_of t' d' = rows_of t' d)
  ∧ Forall2 (λ r r',
       if has_id (SText id) r
       then ∀ c, r' !!! c = default (r !!! c) (cell_of <$> last_assoc c sets)
       else r' = r)
     (rows_of t d) (rows_of t d').

(** An insert into table [t], one row at a time. *)
Definition inserts_into (t : table) {A : Type} (f : A → db → result db) : Prop :=
  ∀ x d d', f x d = Ok d' →
    (∀ t', t' ≠ t → rows_of t' d' = rows_of t' d)
    ∧ ∃ r, rows_of t d' = rows_of t d ++ [r].



(** ** The repositories, as the properties speak of them *)

(** The common shape: all five operations are there. *)
Definition offers_common_shape (r : repository) : Prop :=
  is_Some (r_getAll r) ∧ is_Some (r_getById r) ∧ is_Some (r_create r)
  ∧ is_Some (r_update r) ∧ is_Some (r_delete r).


(** The SET list the [update] of a table builds. *)
Definition update_sets_of (t : table) : obj → clock → list (string * value) :=
  match t with
  | Customers => customerDb.update_sets
  | Employees => employeeDb.update_sets
  | Appointments => appointmentDb.update_sets
  | Services => serviceDb.update_sets
  | Products => productDb.update_sets
  | TallyItems => λ _ _, []
  end.

(** Seeding a customer is creating it. *)
Definition seeds_through_create : Prop :=
  ∀ clk customer d,
    insertCustomer clk customer d = snd <$> customerDb.create customer clk d.

(** The customers a [create] accepts: name and phone are strings, gender is
    one of the two the table admits, the optional properties are strings,
    numbers, null or left out, and neither the new id nor the phone is in
    the table. *)
Definition acceptable_customer (customer : obj) (clk : clock) (d : db) : Prop :=
  (∃ name, customer !!! "name" = VStr name)
  ∧ (∃ phone, customer !!! "phone" = VStr phone
       ∧ existsb (λ r, sql_eqb (r !!! "phone") (SText phone)) (customers d) = false)
  ∧ (customer !!! "gender" = VStr "male" ∨ customer !!! "gender" = VStr "female")
  ∧ bindable (customer !!! "email") = true
  ∧ bindable (customer !!! "notes") = true
  ∧ bindable (customer !!! "photo") = true
  ∧ no_such_id Customers (customerDb.new_id clk) d.



(** ** Partial updates, column by column *)

(** When a property of the partial input leads to an assignment: when it is
    truthy ([if (updates.name)]), or when it is not undefined
    ([if (updates.email !== undefined)]). *)
Inductive guard : Type := IfTruthy | IfDefined.

Definition passes (g : guard) (v : value) : bool :=
  match g with
  | IfTruthy => truthy v
  | IfDefined => defined v
  end.

(** One assignable column: its name, the guard, the property the guard
    looks at, and the value the column takes. *)
Definition clause : Type := string * guard * value * value.

(** The value column [c] is assigned, if any: the current time for
    [updated_at], and for a column with a clause its value when the guard
    passes. *)
Definition assigned (clauses : list clause) (clk : clock) (c : string) : option value :=
  if String.eqb "updated_at" c then Some (VStr (toISOString clk))
  else
    match List.find (λ cl : clause, String.eqb cl.1.1.1 c) clauses with
    | Some (_, g, tested, v) => if passes g tested then Some v else None
    | None => None
    end.

(** The column takes the property as it is. *)
Definition same_value (column : string) (g : guard) (property : string) (u : obj) : clause :=
  (column, g, u !!! property, u !!! property).

(** The assignable columns of each table, in the order of the source. *)
Definition customer_clauses (u : obj) : list clause :=
  [ same_value "name" IfTruthy "name" u;
    same_value "phone" IfTruthy "phone" u;
    same_value "email" IfDefined "email" u;
    same_value "gender" IfTruthy "gender" u;
    same_value "visit_count" IfDefined "visitCount" u;
    same_value "total_spent" IfDefined "totalSpent" u;
    same_value "last_visit" IfTruthy "lastVisit" u;
    ("preferred_services", IfTruthy, u !!! "preferredServices",
      JSON_stringify (u !!! "preferredServices"));
    same_value "notes" IfDefined "notes" u;
    same_value "photo" IfDefined "photo" u ].

Definition employee_clauses (u : obj) : list clause :=
  [ same_value "name" IfTruthy "name" u;
    same_value "role" IfTruthy "role" u;
    same_value "email" IfDefined "email" u;
    same_value "phone" IfDefined "phone" u;
    same_value "photo" IfDefined "photo" u;
    ("available", IfDefined, u !!! "available",
      VNum (if truthy (u !!! "available") then 1 else 0));
    ("specialties", IfTruthy, u !!! "specialties", JSON_stringify (u !!! "specialties"));
    same_value "rating" IfDefined "rating" u;
    same_value "next_available" IfDefined "nextAvailable" u;
    ("working_hours_start", IfTruthy, u !!! "workingHours",
      opt_prop (u !!! "workingHours") "start");
    ("working_hours_end", IfTruthy, u !!! "workingHours",
      opt_prop (u !!! "workingHours") "end") ].

Definition appointment_clauses (u : obj) : list clause :=
  [ same_value "status" IfTruthy "status" u;
    same_value "notes" IfDefined "notes" u;
    same_value "total" IfDefined "total" u ].

Definition service_clauses (u : obj) : list clause :=
  [ same_value "name" IfTruthy "name" u;
    same_value "duration" IfDefined "duration" u;
    same_value "price" IfDefined "price" u;
    same_value "category" IfTruthy "category" u;
    same_value "description" IfDefined "description" u ].

Definition product_clauses (u : obj) : list clause :=
  [ same_value "name" IfTruthy "name" u;
    same_value "price" IfDefined "price" u;
    same_value "image" IfDefined "image" u;
    same_value "category" IfTruthy "category" u;
    same_value "stock" IfDefined "stock" u;
    same_value "description" IfDefined "description" u;
    same_value "brand" IfTruthy "brand" u ].

(** A partial update of table [t]: a successful call leaves the other
    tables and the rows without the id as they were, and in a row with the
    id every column reads the value [clauses] assigns to it, or what it
    read before; the empty input always succeeds. *)
Definition partial_update (t : table)
    (update : string → obj → clock → db → result db)
    (clauses : obj → list clause) : Prop :=
  (∀ id updates clk d d',
     update id updates clk d = Ok d' →
     (∀ t', t' ≠ t → rows_of t' d' = rows_of t' d)
     ∧ Forall2 (λ r r',
          if has_id (SText id) r
          then ∀ c, r' !!! c =
                    default (r !!! c) (cell_of <$> assigned (clauses updates) clk c)
          else r' = r)
        (rows_of t d) (rows_of t d'))
  ∧ (∀ id clk d, ∃ d', update id ∅ clk d = Ok d').

(** ** Sample inputs *)

(** A clock stopped at one instant. *)
Definition sample_clock : clock :=
  Clock 1700000000000 "2023-11-14T22:13:20.000Z" "2023-11-14 22:13:20".

(** A customer without email, notes and photo. *)
Definition asha : obj :=
  object [ ("name", VStr "Asha"); ("phone", VStr "9990001111");
           ("gender", VStr "female"); ("preferredServices", VArr [VStr "svc-1"]) ].

(** The same customer with every property supplied. *)
Definition asha_complete : obj :=
  object [ ("name", VStr "Asha"); ("phone", VStr "9990001111");
           ("email", VStr "asha@example.com"); ("gender", VStr "female");
           ("preferredServices", VArr [VStr "svc-1"; VStr "svc-7"]);
           ("notes", VStr "window seat"); ("photo", VStr "asha.png") ].

(** A seed record: it brings its own id, counters and last visit. *)
Definition priya : obj :=
  object [ ("id", VStr "1"); ("name", VStr "Priya"); ("phone", VStr "9876543210");
           ("email", VStr "priya@example.com"); ("gender", VStr "female");
           ("visitCount", VNum 12); ("totalSpent", VNum 5400);
           ("lastVisit", VStr "2024-01-10"); ("preferredServices", VArr [VStr "svc-1"]);
           ("notes", VStr "Prefers mornings"); ("photo", VStr "") ].

(** An employee without rating and working hours. *)
Definition ravi : obj :=
  object [ ("name", VStr "Ravi"); ("role", VStr "Stylist"); ("available", VBool true) ].

(** The same employee with every property supplied. *)
Definition ravi_complete : obj :=
  object [ ("name", VStr "Ravi"); ("role", VStr "Stylist"); ("email", VStr "");
           ("phone", VStr "9990002222"); ("photo", VStr "ravi.png");
           ("available", VBool true); ("specialties", VArr [VStr "Haircut"]);
           ("rating", VNum 4); ("nextAvailable", VStr "Now");
           ("workingHours", VObj [("start", VStr "10:00"); ("end", VStr "19:00")]) ].

(** A sale waiting for its payment. *)
Definition haircut_sale : obj :=
  object [ ("date", VStr "2024-03-01"); ("time", VStr "10:30");
           ("customerName", VStr "Asha"); ("customerPhone", VStr "9990001111");
           ("staffName", VStr "Ravi");
           ("services", VArr [VObj [("name", VStr "Haircut"); ("price", VNum 500)]]);
           ("totalCost", VNum 500); ("paymentMethod", VStr "upi");
           ("paymentStatus", VStr "pending") ].

(** A store with one customer row. *)
Definition one_customer : db :=
  with_rows Customers
    [ {[ "id" := SText "cust-1"; "name" := SText "Asha";
         "phone" := SText "9990001111"; "notes" := SText "window seat" ]} ]
    empty_db.


(** ** What a column can hold *)



(** A value of the type of a TEXT column: a string, or nothing. *)
Definition text_value (v : value) : bool :=
  match v with
  | VStr _ | VNull | VUndef => true
  | _ => false
  end.

(** A value of the type of an INTEGER or REAL column: a number, or nothing. *)
Definition number_value (v : value) : bool :=
  match v with
  | VNum _ | VNull | VUndef => true
  | _ => false
  end.

(** ** The constraints of the schema, as a property of the store *)

(** NOT NULL and CHECK of a column, on one cell. *)
Definition admits (c : column) (x : sqlval) : bool :=
  negb (col_not_null c && bool_decide (x = SNull))
  && from_option (λ allowed, check_allows allowed x) true (col_check c).

(** REFERENCES of a column, on one cell: NULL, or the id of a row of the
    parent table. *)
Definition refers (d : db) (c : column) (x : sqlval) : bool :=
  match col_references c with
  | Some parent => bool_decide (x = SNull) || existsb (has_id x) (rows_of parent d)
  | None => true
  end.

(** UNIQUE: no two rows hold the same value in the column (NULL is no
    value). *)
Fixpoint distinct (column : string) (rows : list row) : bool :=
  match rows with
  | [] => true
  | r :: rows' =>
      negb (existsb (λ r', sql_eqb (r' !!! column) (r !!! column)) rows')
      && distinct column rows'
  end.

Definition table_consistent (d : db) (t : table) : bool :=
  forallb (λ c,
      forallb (λ r, admits c (r !!! col_name c) && refers d c (r !!! col_name c))
        (rows_of t d)
      && (negb (col_unique c) || distinct (col_name c) (rows_of t d)))
    (schema t).

(** Every row of every table satisfies what [createTables] declares. *)
Definition consistent (d : db) : bool := forallb (table_consistent d) all_tables.

(** ** Rows that [getAll] can map *)

(** The callback of [getAll] returns on the row; the rows of services and
    products are handed back as they are. *)
Definition decodes_row (t : table) (r : row) : bool :=
  match t with
  | Customers => is_Ok (customerDb.of_row r)
  | Employees => is_Ok (employeeDb.of_row r)
  | Appointments => is_Ok (appointmentDb.of_row r)
  | TallyItems => is_Ok (tallyDb.of_row r)
  | Services | Products => true
  end.

Definition decodes (d : db) : bool :=
  forallb (λ t, forallb (decodes_row t) (rows_of t d)) all_tables.

(** The property of an argument that is stored as a JSON list. *)
Definition list_property (t : table) : option string :=
  match t with
  | Customers => Some "preferredServices"
  | Employees => Some "specialties"
  | Appointments => Some "serviceIds"
  | TallyItems => Some "services"
  | Services | Products => None
  end.

(** The list of an argument is left out, or is made of JSON values. *)
Definition well_listed (t : table) (x : obj) : Prop :=
  match list_property t with
  | Some k => x !!! k = VUndef ∨ json_safe (x !!! k) = true
  | None => True
  end.

(** The column that holds it. *)
Definition list_column (t : table) : string :=
  match t with
  | Customers => "preferred_services"
  | Employees => "specialties"
  | Appointments => "service_ids"
  | _ => "services"
  end.

(** ** Values as they come back *)

(** A value after it has been bound to a cell and read again: undefined
    comes back as null, a string or a number as itself. *)
Definition read_back (v : value) : value := js_of_sql (cell_of v).


(** ** Customers with an appointment *)

(** A customer with the id is stored, and some appointment names it. *)
Definition booked (id : string) (d : db) : bool :=
  existsb (has_id (SText id)) (customers d)
  && existsb (λ a, sql_eqb (a !!! "customer_id") (SText id)) (appointments d).

(** ** Further sample inputs *)

(** A store with one customer and one employee. *)
Definition salon_of_two : db :=
  with_rows Employees
    [ {[ "id" := SText "emp-1"; "name" := SText "Ravi"; "role" := SText "Stylist" ]} ]
    one_customer.

(** An appointment of that customer with that employee. *)
Definition morning_cut : obj :=
  object [ ("id", VStr "apt-1"); ("customerId", VStr "cust-1");
           ("employeeId", VStr "emp-1"); ("serviceIds", VArr [VStr "svc-1"]);
           ("date", VStr "2024-03-01"); ("time", VStr "10:30");
           ("status", VStr "scheduled"); ("total", VNum 500) ].

(** A service. *)
Definition shave : obj :=
  object [ ("id", VStr "svc-2"); ("name", VStr "Shave"); ("duration", VNum 15);
           ("price", VNum 150); ("category", VStr "Grooming") ].


(** * Properties

    ** [JSON.parse] reads back what [JSON.stringify] wrote *)

#[local] Arguments String.append !_ _ / : simpl nomatch.

Lemma append_assoc (a b c : string) : (a +:+ b) +:+ c = a +:+ (b +:+ c).
Proof. induction a as [|x a IH]; simpl; [reflexivity|]. by rewrite IH. Qed.

Lemma length_append (a b : string) :
  String.length (a +:+ b) = String.length a + String.length b.
Proof. induction a; simpl; congruence. Qed.

Lemma parse_string_body_escape_char (c : ascii) (t : string) :
  parse_string_body (escape_char c +:+ t) =
  '(u, rest) ← parse_string_body t; Some (String c u, rest).
Proof. destruct c as [[] [] [] [] [] [] [] []]; reflexivity. Qed.

Lemma parse_string_body_escape (s rest : string) :
  parse_string_body (escape s +:+ String dquote rest) = Some (s, rest).
Proof.
  induction s as [|c s IH]; [reflexivity|].
  cbn [escape]. rewrite append_assoc, parse_string_body_escape_char, IH.
  reflexivity.
Qed.

Lemma quote_unfold (s rest : string) :
  quote s +:+ rest = String dquote (escape s +:+ String dquote rest).
Proof. unfold quote. simpl. by rewrite append_assoc. Qed.

Lemma delim_start_cases (s : string) :
  delim_start s = true →
  s = "" ∨ ∃ r, s = String "," r ∨ s = String "]" r ∨ s = String "}" r.
Proof.
  destruct s as [|c r]; [by left|]. simpl. intros H. right. exists r.
  repeat (apply orb_true_iff in H as [H|H]);
    apply bool_decide_eq_true in H; subst; auto.
Qed.

Lemma read_digits_delim (s : string) :
  delim_start s = true → read_digits s = (Nil, s).
Proof.
  intros [->|[r [->|[->| ->]]]]%delim_start_cases; reflexivity.
Qed.

Lemma starts_fraction_delim (s : string) :
  delim_start s = true → starts_fraction s = false.
Proof.
  intros [->|[r [->|[->| ->]]]]%delim_start_cases; reflexivity.
Qed.

Lemma read_digits_string_of_uint (d : uint) (rest : string) :
  delim_start rest = true →
  read_digits (NilEmpty.string_of_uint d +:+ rest) = (d, rest).
Proof.
  intros Hr. induction d; simpl;
    [by apply read_digits_delim | by rewrite IHd ..].
Qed.

Lemma to_uint_shape (n : N) :
  match N.to_uint n with
  | Nil => False
  | D0 u => u = Nil
  | _ => True
  end.
Proof.
  pose proof (DecimalN.Unsigned.to_of (N.to_uint n)) as H.
  rewrite DecimalN.Unsigned.of_to in H.
  destruct (N.to_uint n) as [|u| | | | | | | | |] eqn:E; try exact I.
  - by apply (unorm_nonnil Nil).
  - rewrite unorm_D0 in H.
    symmetry in H.
    destruct u as [|u'| | | | | | | | |]; [done|..];
      match type of H with
      | unorm ?x = _ =>
          assert (Hn : nb_digits (unorm x) ≤ nb_digits x)
            by (by apply nb_digits_unorm);
          rewrite H in Hn; simpl in Hn; lia
      end.
Qed.

Lemma parse_nat_to_uint (n : N) (rest : string) :
  delim_start rest = true →
  parse_nat (NilEmpty.string_of_uint (N.to_uint n) +:+ rest) = Some (n, rest).
Proof.
  intros Hr. unfold parse_nat. rewrite read_digits_string_of_uint by done.
  pose proof (to_uint_shape n) as Hs.
  pose proof (DecimalN.Unsigned.of_to n) as Hof.
  rewrite (starts_fraction_delim _ Hr).
  destruct (N.to_uint n) as [|u| | | | | | | | |]; try done; try by rewrite Hof.
  subst u. simpl in Hof. by subst n.
Qed.

Lemma parse_number_to_string (z : Z) (rest : string) :
  delim_start rest = true →
  parse_number (number_to_string z +:+ rest) = Some (VNum z, rest).
Proof.
  intros Hr.
  assert (Hnn : ∀ n : N,
    parse_number (NilEmpty.string_of_uint (N.to_uint n) +:+ rest)
    = Some (VNum (Z.of_N n), rest)).
  { intros n. pose proof (parse_nat_to_uint n rest Hr) as Hp.
    pose proof (to_uint_shape n) as Hs.
    destruct (N.to_uint n) as [|u| | | | | | | | |]; try done;
      simpl in *; unfold parse_number; simpl; by rewrite Hp. }
  destruct z as [|p|p]; simpl.
  - apply (Hnn 0%N).
  - apply (Hnn (Npos p)).
  - change (Pos.to_uint p) with (N.to_uint (Npos p)).
    by rewrite parse_nat_to_uint.
Qed.

Lemma starts_value_app (s t : string) :
  starts_value s = true → starts_value (s +:+ t) = true.
Proof. by destruct s. Qed.

Lemma starts_value_skip_ws (s : string) :
  starts_value s = true → skip_ws s = s.
Proof.
  destruct s as [|c r]; [done|]. simpl.
  by destruct (is_ws c).
Qed.

Lemma string_of_uint_head (d : uint) :
  d ≠ Nil →
  ∃ c r, NilEmpty.string_of_uint d = String c r ∧ is_Some (digit_of_char c).
Proof. destruct d; [done|..]; intros _; simpl; eauto. Qed.

Lemma number_to_string_head (z : Z) :
  ∃ c r, number_to_string z = String c r ∧
         (c = "-"%char ∨ is_Some (digit_of_char c)).
Proof.
  assert (∀ n, ∃ c r, NilEmpty.string_of_uint (N.to_uint n) = String c r
                      ∧ is_Some (digit_of_char c)) as Hn.
  { intros n. apply string_of_uint_head. pose proof (to_uint_shape n).
    by destruct (N.to_uint n). }
  destruct z as [|p|p]; simpl.
  - destruct (Hn 0%N) as (c & r & ? & ?); eauto.
  - destruct (Hn (Npos p)) as (c & r & ? & ?); eauto.
  - eauto.
Qed.

Lemma digit_char_cases (c : ascii) :
  is_Some (digit_of_char c) →
  c ∈ ["0"; "1"; "2"; "3"; "4"; "5"; "6"; "7"; "8"; "9"]%char.
Proof.
  destruct c as [[] [] [] [] [] [] [] []]; simpl;
    intros [f Hf]; try discriminate; set_solver.
Qed.

Lemma parse_value_number (n : nat) (s : string) (c : ascii) (r : string) :
  s = String c r →
  c = "-"%char ∨ is_Some (digit_of_char c) →
  parse_value (S n) s = parse_number s.
Proof.
  intros -> [->|Hd]; [reflexivity|].
  apply digit_char_cases in Hd.
  repeat (apply elem_of_cons in Hd as [->|Hd]; [reflexivity|]).
  by apply elem_of_nil in Hd.
Qed.

Lemma JSON_ser_safe (v : value) :
  json_safe v = true → JSON_ser v = Some (ser_text v).
Proof. unfold ser_text. by destruct v. Qed.

Lemma ser_text_starts_value (v : value) :
  json_safe v = true → starts_value (ser_text v) = true.
Proof.
  destruct v as [| |[]|z| | |]; try done.
  intros _. unfold ser_text. simpl.
  destruct (number_to_string_head z) as (c & r & -> & [->|Hd]); [done|].
  apply digit_char_cases in Hd.
  repeat (apply elem_of_cons in Hd as [->|Hd]; [reflexivity|]).
  by apply elem_of_nil in Hd.
Qed.

Lemma parse_value_array (n : nat) (r : string) :
  starts_value r = true →
  parse_value (S n) (String "[" r) =
  '(l, r') ← parse_elements n r; Some (VArr l, r').
Proof.
  intros Hr. cbn [parse_value skip_ws is_ws]. simpl N_of_ascii. cbn [N.eqb Pos.eqb orb].
  cbn [Ascii.eqb Bool.eqb]. rewrite (starts_value_skip_ws _ Hr).
  destruct r as [|c r]; [done|].
  destruct c as [[] [] [] [] [] [] [] []]; try reflexivity; done.
Qed.

Lemma parse_value_object (n : nat) (r : string) :
  starts_value r = true →
  parse_value (S n) (String "{" r) =
  '(l, r') ← parse_members n r; Some (VObj (kv_of_members l), r').
Proof.
  intros Hr. cbn [parse_value skip_ws is_ws]. simpl N_of_ascii. cbn [N.eqb Pos.eqb orb].
  cbn [Ascii.eqb Bool.eqb]. rewrite (starts_value_skip_ws _ Hr).
  destruct r as [|c r]; [done|].
  destruct c as [[] [] [] [] [] [] [] []]; try reflexivity; done.
Qed.

Lemma parse_value_string (n : nat) (r : string) :
  parse_value (S n) (String dquote r) =
  '(t, r') ← parse_string_body r; Some (VStr t, r').
Proof. reflexivity. Qed.

Lemma parse_elements_unfold (n : nat) (s : string) :
  parse_elements (S n) s =
  '(v, r) ← parse_value n s;
  match skip_ws r with
  | String "," r' => '(l, r'') ← parse_elements n r'; Some (v :: l, r'')
  | String "]" r' => Some ([v], r')
  | _ => None
  end.
Proof. reflexivity. Qed.

Lemma parse_members_unfold (n : nat) (r : string) :
  parse_members (S n) (String dquote r) =
  '(k, r1) ← parse_string_body r;
  match skip_ws r1 with
  | String ":" r2 =>
      '(v, r3) ← parse_value n r2;
      match skip_ws r3 with
      | String "," r4 => '(l, r5) ← parse_members n r4; Some ((k, v) :: l, r5)
      | String "}" r4 => Some ([(k, v)], r4)
      | _ => None
      end
  | _ => None
  end.
Proof. reflexivity. Qed.

Lemma ser_text_nonempty (v : value) :
  json_safe v = true → 1 ≤ String.length (ser_text v).
Proof.
  intros Hv%ser_text_starts_value. destruct (ser_text v); [done|simpl; lia].
Qed.

Lemma parse_elements_text (l : list value) :
  l ≠ [] →
  Forall roundtrips l →
  forallb json_safe l = true →
  ∀ (n : nat) (rest : string),
    String.length (join_comma (map ser_text l)) + 1 ≤ n →
    parse_elements n (join_comma (map ser_text l) +:+ String "]" rest)
    = Some (l, rest).
Proof.
  intros Hne Hall. induction Hall as [|x l Hx Hall IH]; [done|].
  intros [Hsx Hsl]%andb_true_iff n rest Hn.
  destruct n as [|n]; [lia|]. rewrite parse_elements_unfold.
  destruct l as [|y l].
  - simpl in *. rewrite Hx by (done || lia). reflexivity.
  - change (join_comma (map ser_text (x :: y :: l)))
      with (ser_text x +:+ "," +:+ join_comma (map ser_text (y :: l))) in *.
    rewrite !length_append in Hn. rewrite !append_assoc.
    rewrite Hx by (done || lia). simpl.
    rewrite IH; [done|done|done|].
    change (String.length ",") with 1 in Hn. lia.
Qed.

Lemma members_text_omap (kvs : list (string * value)) :
  forallb (λ kv : string * value, let '(_, x) := kv in json_safe x) kvs = true →
  omap (λ kv : string * value,
          let '(k, x) := kv in (λ s, quote k +:+ ":" +:+ s) <$> JSON_ser x) kvs
  = map member_text kvs.
Proof.
  induction kvs as [|[k x] kvs IH]; [done|].
  intros [Hx Hr]%andb_true_iff.
  change (map member_text ((k, x) :: kvs))
    with (member_text (k, x) :: map member_text kvs).
  rewrite <- (IH Hr). simpl. by rewrite (JSON_ser_safe _ Hx).
Qed.

Lemma member_text_unfold (k : string) (x : value) (rest : string) :
  member_text (k, x) +:+ rest =
  String dquote (escape k +:+ String dquote (String ":" (ser_text x +:+ rest))).
Proof.
  unfold member_text. cbn [fst snd]. rewrite !append_assoc, quote_unfold. reflexivity.
Qed.

Lemma length_member_text (k : string) (x : value) :
  String.length (member_text (k, x)) = String.length (quote k) + 1 + String.length (ser_text x).
Proof. unfold member_text. rewrite !length_append. simpl. lia. Qed.

Lemma length_quote (k : string) : 2 ≤ String.length (quote k).
Proof. unfold quote. simpl. rewrite length_append. simpl. lia. Qed.

Lemma parse_members_text (kvs : list (string * value)) :
  kvs ≠ [] →
  Forall (λ kv, roundtrips kv.2) kvs →
  forallb (λ kv : string * value, let '(_, x) := kv in json_safe x) kvs = true →
  ∀ (n : nat) (rest : string),
    String.length (join_comma (map member_text kvs)) + 1 ≤ n →
    parse_members n (join_comma (map member_text kvs) +:+ String "}" rest)
    = Some (kvs, rest).
Proof.
  intros Hne Hall. induction Hall as [|[k x] l Hx Hall IH]; [done|].
  intros [Hsx Hsl]%andb_true_iff n rest Hn.
  destruct n as [|n]; [lia|].
  pose proof (length_quote k) as Hq.
  destruct l as [|y l].
  - simpl join_comma in *. rewrite length_member_text in Hn.
    rewrite member_text_unfold, parse_members_unfold, parse_string_body_escape.
    simpl. rewrite Hx by (done || simpl; lia). reflexivity.
  - change (join_comma (map member_text ((k, x) :: y :: l)))
      with (member_text (k, x) +:+ "," +:+ join_comma (map member_text (y :: l))) in *.
    rewrite !length_append, length_member_text in Hn. rewrite !append_assoc.
    rewrite member_text_unfold, parse_members_unfold, parse_string_body_escape.
    simpl. rewrite Hx by (done || simpl; lia). simpl.
    rewrite IH; [done|done|done|].
    change (String.length ",") with 1 in Hn. lia.
Qed.

Lemma kv_set_fresh (k : string) (v : value) (kvs : list (string * value)) :
  k ∉ kvs.*1 → kv_set k v kvs = kvs ++ [(k, v)].
Proof.
  induction kvs as [|[k' v'] kvs IH]; [done|].
  intros Hk. simpl in *. apply not_elem_of_cons in Hk as [Hne Hk].
  destruct (String.eqb_spec k k'); [done|]. by rewrite IH.
Qed.

Lemma kv_of_members_nodup (kvs : list (string * value)) :
  NoDup kvs.*1 → kv_of_members kvs = kvs.
Proof.
  unfold kv_of_members.
  assert (∀ acc, NoDup (acc ++ kvs).*1 →
    foldl (λ acc kv, kv_set kv.1 kv.2 acc) acc kvs = acc ++ kvs) as H.
  { induction kvs as [|[k v] kvs IH]; intros acc Hnd; simpl.
    - by rewrite app_nil_r.
    - rewrite kv_set_fresh.
      + rewrite IH; rewrite <- app_assoc; done.
      + rewrite fmap_app in Hnd. apply NoDup_app in Hnd as (_ & Hd & _).
        intros Hin. apply (Hd k Hin). simpl. left. }
  intros Hnd. by apply (H []).
Qed.

Lemma join_comma_starts_value (l : list string) :
  l ≠ [] → Forall (λ s, starts_value s = true) l →
  starts_value (join_comma l) = true.
Proof.
  intros Hne Hall. destruct Hall as [|s l Hs Hall]; [done|].
  destruct l; [done|]. by apply starts_value_app.
Qed.

Theorem parse_value_ser (v : value) : roundtrips v.
Proof.
  induction v as [| |b|z|s|l IH|kvs IH] using value_nested_ind;
    intros Hsafe n rest Hrest Hn.
  - done.
  - destruct n; [simpl in Hn; lia|reflexivity].
  - destruct n; [destruct b; simpl in Hn; lia|by destruct b].
  - pose proof (ser_text_nonempty (VNum z) Hsafe).
    destruct n; [lia|].
    destruct (number_to_string_head z) as (c & r & Hz & Hc).
    rewrite (parse_value_number n _ c (r +:+ rest));
      [|unfold ser_text; simpl; by rewrite Hz|done].
    by apply parse_number_to_string.
  - pose proof (ser_text_nonempty (VStr s) Hsafe).
    destruct n; [lia|].
    change (ser_text (VStr s)) with (quote s).
    by rewrite quote_unfold, parse_value_string, parse_string_body_escape.
  - destruct l as [|x l].
    { destruct n; [simpl in Hn; lia|reflexivity]. }
    change (ser_text (VArr (x :: l)))
      with ("[" +:+ join_comma (map ser_text (x :: l)) +:+ "]") in *.
    simpl in Hsafe.
    set (J := join_comma (map ser_text (x :: l))) in *.
    change ("[" +:+ J +:+ "]") with (String "[" (J +:+ "]")) in *.
    cbn [String.length] in Hn. rewrite length_append in Hn.
    cbn [String.length] in Hn.
    destruct n; [lia|].
    change (String "[" (J +:+ "]") +:+ rest)
      with (String "[" ((J +:+ "]") +:+ rest)).
    rewrite append_assoc. change ("]" +:+ rest) with (String "]" rest).
    rewrite parse_value_array.
    + unfold J. rewrite parse_elements_text; [done|done|done|done|fold J; lia].
    + apply starts_value_app, join_comma_starts_value; [done|].
      apply Forall_fmap, Forall_forall. intros y Hy. simpl.
      apply ser_text_starts_value.
      apply andb_true_iff in Hsafe as [Hx Hl].
      apply elem_of_cons in Hy as [->|Hy]; [done|].
      rewrite forallb_forall in Hl. apply Hl. by apply list_elem_of_In.
  - destruct kvs as [|kv kvs].
    { destruct n; [simpl in Hn; lia|reflexivity]. }
    apply andb_true_iff in Hsafe as [Hsafe Hnd].
    apply bool_decide_eq_true in Hnd.
    assert (ser_text (VObj (kv :: kvs))
            = "{" +:+ join_comma (map member_text (kv :: kvs)) +:+ "}") as Heq.
    { unfold ser_text. cbn [JSON_ser default]. by rewrite members_text_omap. }
    rewrite Heq in *.
    set (J := join_comma (map member_text (kv :: kvs))) in *.
    change ("{" +:+ J +:+ "}") with (String "{" (J +:+ "}")) in *.
    cbn [String.length] in Hn. rewrite length_append in Hn.
    cbn [String.length] in Hn.
    destruct n; [lia|].
    change (String "{" (J +:+ "}") +:+ rest)
      with (String "{" ((J +:+ "}") +:+ rest)).
    rewrite append_assoc. change ("}" +:+ rest) with (String "}" rest).
    rewrite parse_value_object.
    + unfold J. rewrite parse_members_text; [|done|done|done|fold J; lia].
      simpl. by rewrite kv_of_members_nodup.
    + apply starts_value_app, join_comma_starts_value; [done|].
      apply Forall_fmap, Forall_forall. intros [k y] _. reflexivity.
Qed.

Theorem JSON_parse_text_ser (v : value) :
  json_safe v = true → JSON_parse_text (ser_text v) = Some v.
Proof.
  intros Hv. unfold JSON_parse_text.
  pose proof (parse_value_ser v Hv (2 * String.length (ser_text v) + 2) "" eq_refl) as H.
  assert (∀ s, s +:+ "" = s) as Hnil by (induction s; simpl; congruence).
  rewrite Hnil in H. rewrite H by lia. reflexivity.
Qed.

#[local] Arguments String.append : simpl never.

(** ** The result monad *)

Lemma bind_Ok {A B : Type} (m : result A) (k : A → result B) (b : B) :
  (m ≫= k) = Ok b ↔ ∃ a, m = Ok a ∧ k a = Ok b.
Proof.
  destruct m as [a|e]; simpl; split.
  - eauto.
  - by intros (a' & [= <-] & ?).
  - done.
  - by intros (a' & ? & _).
Qed.

Lemma Ok_inj {A : Type} (a b : A) : Ok a = Ok b → a = b.
Proof. congruence. Qed.

Lemma is_Ok_true {A : Type} (m : result A) : is_Ok m = true → ∃ a, m = Ok a.
Proof. destruct m; [eauto|done]. Qed.

Ltac rsimpl :=
  cbn [mbind result_bind rbind mret result_ret fmap result_fmap] in *.

Lemma bind_Ok_l {A B : Type} (m : result A) (k : A → result B) (a : A) :
  m = Ok a → (m ≫= k) = k a.
Proof. by intros ->. Qed.

Lemma bind_param_Ok (v : value) (x : sqlval) :
  bind_param v = Ok x ↔ bindable v = true ∧ x = cell_of v.
Proof.
  destruct v; simpl; (split; [intros [= <-] || intros [=]; done | intros [[=] ->] || intros [_ ->]; done]).
Qed.

Lemma traverse_bind_param (l : list value) :
  forallb bindable l = true → traverse bind_param l = Ok (map cell_of l).
Proof.
  induction l as [|v l IH]; [done|]. intros [Hv Hl]%andb_true_iff.
  simpl. rewrite IH by done.
  assert (bind_param v = Ok (cell_of v)) as -> by by apply bind_param_Ok.
  reflexivity.
Qed.

Lemma traverse_bind_param_Ok (l : list value) (xs : list sqlval) :
  traverse bind_param l = Ok xs → forallb bindable l = true ∧ xs = map cell_of l.
Proof.
  revert xs. induction l as [|v l IH]; intros xs; simpl.
  - by intros [= <-].
  - intros (x & Hx & Hk)%bind_Ok.
    apply bind_Ok in Hk as (ys & Hys & [= <-]).
    apply bind_param_Ok in Hx as [-> ->]. by destruct (IH _ Hys) as [-> ->].
Qed.


Lemma traverse_Ok_Forall2 {A B : Type} (f : A → result B) (l : list A) (ys : list B) :
  traverse f l = Ok ys ↔ Forall2 (λ x y, f x = Ok y) l ys.
Proof.
  revert ys. induction l as [|x l IH]; intros ys; simpl.
  - split; [intros [= <-]; constructor | by inversion 1].
  - split.
    + intros (y & Hy & Hk)%bind_Ok.
      apply bind_Ok in Hk as (zs & Hzs & [= <-]).
      constructor; [done|by apply IH].
    + inversion 1 as [|? y ? zs Hy Hzs]; subst.
      rewrite Hy. simpl. apply IH in Hzs. by rewrite Hzs.
Qed.

(** ** Maps built from lists of pairs *)

#[local] Arguments String.eqb : simpl never.

(** Decides the string comparisons of the goal: closed ones by evaluation,
    the others from the disequalities at hand. *)
Ltac eqb_norm :=
  repeat match goal with
  | |- context [String.eqb ?a ?b] =>
      let r := eval vm_compute in (String.eqb a b) in
      lazymatch r with
      | true => change (String.eqb a b) with true
      | false => change (String.eqb a b) with false
      | _ => first
          [ rewrite (String.eqb_refl a)
          | rewrite (proj2 (String.eqb_neq a b)) by congruence ]
      end
  end; cbn [default from_option fmap option_fmap option_map].

Lemma String_eqb_decide (a b : string) : String.eqb a b = bool_decide (a = b).
Proof.
  destruct (String.eqb_spec a b).
  - by rewrite bool_decide_eq_true_2.
  - by rewrite bool_decide_eq_false_2.
Qed.

Lemma list_to_map_lookup {V : Type} (l : list (string * V)) (k : string) :
  (list_to_map l : gmap string V) !! k = assoc k l.
Proof.
  induction l as [|[k' v] l IH]; [done|]. simpl.
  destruct (String.eqb_spec k' k) as [->|Hne].
  - by rewrite lookup_insert_eq.
  - by rewrite lookup_insert_ne.
Qed.

Lemma object_lookup (fields : list (string * value)) (k : string) :
  object fields !!! k = default VUndef (assoc k fields).
Proof.
  unfold object. by rewrite lookup_total_alt, list_to_map_lookup.
Qed.

Lemma lookup_total_insert_value (o : obj) (k k' : string) (v : value) :
  <[k := v]> o !!! k' = if String.eqb k k' then v else o !!! k'.
Proof.
  rewrite !lookup_total_alt. destruct (String.eqb_spec k k') as [->|Hne].
  - by rewrite lookup_insert_eq.
  - by rewrite lookup_insert_ne.
Qed.

Lemma lookup_total_insert_cell (r : row) (k k' : string) (x : sqlval) :
  <[k := x]> r !!! k' = if String.eqb k k' then x else r !!! k'.
Proof.
  rewrite !lookup_total_alt. destruct (String.eqb_spec k k') as [->|Hne].
  - by rewrite lookup_insert_eq.
  - by rewrite lookup_insert_ne.
Qed.

Lemma assign_lookup (sets : list (string * sqlval)) (r : row) (c : string) :
  assign sets r !!! c = default (r !!! c) (last_assoc c sets).
Proof.
  unfold assign, last_assoc. revert r.
  induction sets as [|[k x] sets IH] using rev_ind; intros r; [done|].
  rewrite foldl_app, reverse_app. simpl.
  rewrite lookup_total_insert_cell. destruct (String.eqb k c); [done|]. apply IH.
Qed.

Lemma new_row_lookup (t : table) (given : list (string * sqlval)) (clk : clock) (c : string) :
  new_row t given clk !!! c =
  default (default SNull
             (assoc c (map (λ c, (col_name c, default_cell clk c)) (schema t))))
          (assoc c given).
Proof.
  unfold new_row. rewrite lookup_total_alt, lookup_union, !list_to_map_lookup.
  destruct (assoc c given); simpl; [by destruct (assoc c _)|].
  by destruct (assoc c _).
Qed.

(** ** Tables *)

Lemma rows_of_with_rows (t t' : table) (rs : list row) (d : db) :
  rows_of t' (with_rows t rs d) = if decide (t = t') then rs else rows_of t' d.
Proof. by destruct t, t'. Qed.

Lemma with_rows_id (t : table) (d : db) : with_rows t (rows_of t d) d = d.
Proof. by destruct t, d. Qed.

Lemma no_such_id_has_id (t : table) (id : string) (d : db) (r : row) :
  no_such_id t id d → r ∈ rows_of t d → has_id (SText id) r = false.
Proof.
  unfold no_such_id. intros Hno Hr.
  destruct (has_id (SText id) r) eqn:E; [|done].
  assert (existsb (has_id (SText id)) (rows_of t d) = true) as Ht; [|congruence].
  apply existsb_exists. exists r. split; [by apply list_elem_of_In|done].
Qed.

Lemma map_touch_none (f : row → row) (idv : sqlval) (rows : list row) :
  existsb (has_id idv) rows = false →
  map (λ r, if has_id idv r then f r else r) rows = rows.
Proof.
  induction rows as [|r rows IH]; [done|]. simpl.
  intros [Hr Hrows]%orb_false_iff. rewrite Hr. f_equal. by apply IH.
Qed.

(** What a successful UPDATE leaves behind. *)
Lemma sql_update_Ok (t : table) (sets : list (string * sqlval)) (idv : sqlval) (d d' : db) :
  sql_update t sets idv d = Ok d' →
  d' = with_rows t (map (λ r, if has_id idv r then assign sets r else r) (rows_of t d)) d.
Proof.
  unfold sql_update. destruct (existsb (has_id idv) (rows_of t d)) eqn:E; simpl.
  - destruct (assignment_violation _ _ _ _); by intros [= <-].
  - intros [= <-]. by rewrite map_touch_none, with_rows_id.
Qed.


Lemma sql_update_no_violation (t : table) (sets : list (string * sqlval)) (idv : sqlval) (d : db) :
  (∀ others, assignment_violation d others t sets = None) →
  sql_update t sets idv d =
  Ok (with_rows t (map (λ r, if has_id idv r then assign sets r else r) (rows_of t d)) d).
Proof.
  intros Hv. unfold sql_update.
  destruct (existsb (has_id idv) (rows_of t d)) eqn:E; simpl.
  - by rewrite Hv.
  - by rewrite map_touch_none, with_rows_id.
Qed.

Lemma zip_sets (sets : list (string * value)) (extra : list value) :
  zip sets.*1 (map cell_of (sets.*2 ++ extra)) = map (λ kv, (kv.1, cell_of kv.2)) sets.
Proof.
  induction sets as [|[k v] sets IH]; [by destruct extra|].
  simpl. f_equal. apply IH.
Qed.

Lemma run_update_bindable (t : table) (sets : list (string * value)) (id : string) (d : db) :
  forallb bindable sets.*2 = true →
  run_update t sets id d = sql_update t (cells sets) (SText id) d.
Proof.
  intros Hb. unfold run_update.
  rewrite traverse_bind_param; [simpl; by rewrite zip_sets|].
  rewrite forallb_app, Hb. reflexivity.
Qed.

Lemma run_update_Ok (t : table) (sets : list (string * value)) (id : string) (d d' : db) :
  run_update t sets id d = Ok d' →
  forallb bindable sets.*2 = true ∧ sql_update t (cells sets) (SText id) d = Ok d'.
Proof.
  unfold run_update. intros (params & Hp & Hu)%bind_Ok.
  apply traverse_bind_param_Ok in Hp as [Hb ->].
  rewrite forallb_app in Hb. apply andb_true_iff in Hb as [Hb _].
  by rewrite zip_sets in Hu.
Qed.


Lemma filter_without_none (idv : sqlval) (rows : list row) :
  existsb (has_id idv) rows = false →
  List.filter (λ r, negb (has_id idv r)) rows = rows.
Proof.
  induction rows as [|r rows IH]; [done|]. simpl.
  intros [Hr Hrows]%orb_false_iff. rewrite Hr. simpl. f_equal. by apply IH.
Qed.

Lemma existsb_filter_without (idv : sqlval) (rows : list row) :
  existsb (has_id idv) (List.filter (λ r, negb (has_id idv r)) rows) = false.
Proof.
  induction rows as [|r rows IH]; [done|]. simpl.
  destruct (has_id idv r) eqn:E; simpl; [exact IH|]. by rewrite E.
Qed.

Lemma sql_delete_Ok (t : table) (idv : sqlval) (d d' : db) :
  sql_delete t idv d = Ok d' →
  d' = with_rows t (List.filter (λ r, negb (has_id idv r)) (rows_of t d)) d.
Proof.
  unfold sql_delete. destruct (existsb (has_id idv) (rows_of t d)) eqn:E; simpl.
  - destruct (List.find _ _); by intros [= <-].
  - intros [= <-]. by rewrite filter_without_none, with_rows_id.
Qed.

Lemma sql_get_no_row (t : table) (id : string) (d : db) :
  no_such_id t id d → sql_get t (SText id) d = None.
Proof.
  unfold no_such_id, sql_get. intros Hno.
  induction (rows_of t d) as [|r rows IH]; [done|]. simpl in *.
  apply orb_false_iff in Hno as [-> Hno]. by apply IH.
Qed.

(** ** The operations each repository offers (C6) *)

(** C6, as stated, fails: [tallyDb] has no [getById] (nor [update], nor
    [delete]). *)
Lemma common_shape_counterexample :
  ¬ (∀ t : table, offers_common_shape (repository_of t)).
Proof.
  intros H. destruct (H TallyItems) as (_ & [f Hf] & _). discriminate Hf.
Qed.

(** C6 (amended): every repository offers [getAll] and [create]; [getById]
    exists for customers only, [update] for all but tally items, [delete]
    for customers, employees, services and products, and tally items have
    [updatePaymentStatus] instead. Where offered, [getById] answers [null]
    when no row matches and [delete] leaves no row with the id and keeps
    exactly the other rows. *)
Theorem repositories_offered :
  (∀ t, is_Some (r_getAll (repository_of t)) ∧ is_Some (r_create (repository_of t)))
  ∧ (∀ t, is_Some (r_getById (repository_of t)) ↔ t = Customers)
  ∧ (∀ t, is_Some (r_update (repository_of t)) ↔ t ≠ TallyItems)
  ∧ (∀ t, is_Some (r_delete (repository_of t)) ↔ t ≠ Appointments ∧ t ≠ TallyItems)
  ∧ (∀ t, is_Some (r_updatePaymentStatus (repository_of t)) ↔ t = TallyItems)
  ∧ (∀ t get id d,
        r_getById (repository_of t) = Some get →
        no_such_id t id d → get id d = Ok None)
  ∧ (∀ t del id d d',
        r_delete (repository_of t) = Some del →
        del id d = Ok d' →
        no_such_id t id d'
        ∧ rows_of t d' = List.filter (λ r, negb (has_id (SText id) r)) (rows_of t d)).
Proof.
  split_and!.
  - intros t; split; destruct t; eauto.
  - intros t; split; [by destruct t; intros [? [=]]|intros ->; eauto].
  - intros t; split; [by destruct t; intros [? [=]]|destruct t; simpl; eauto; done].
  - intros t; split.
    + by destruct t; intros [? [=]].
    + intros [? ?]. destruct t; simpl; eauto; done.
  - intros t; split; [by destruct t; intros [? [=]]|intros ->; eauto].
  - intros t get id d Hget Hno. destruct t; simplify_eq/=.
    unfold customerDb.getById. by rewrite sql_get_no_row.
  - intros t del id d d' Hdel Hd.
    assert (sql_delete t (SText id) d = Ok d') as ->%sql_delete_Ok
      by (destruct t; simplify_eq/=; apply Hd).
    unfold no_such_id. rewrite rows_of_with_rows, decide_True by done.
    split; [apply existsb_filter_without|done].
Qed.

Lemma repositories_offered_witness :
  customerDb.getById "cust-1" empty_db = Ok None
  ∧ no_such_id Services "svc-1" empty_db.
Proof.
  destruct repositories_offered as (_ & _ & _ & _ & _ & Hget & Hdel). split.
  - apply (Hget Customers customerDb.getById "cust-1" empty_db); reflexivity.
  - apply (Hdel Services serviceDb.delete "svc-1" empty_db empty_db); reflexivity.
Defined.

(** ** Decoding of the JSON list columns (C7) *)







(** ** Rows of an UPDATE, one by one *)

Lemma Forall2_map_touch (P : row → row → Prop) (f : row → row) (idv : sqlval)
    (rows : list row) :
  (∀ r, has_id idv r = true → P r (f r)) →
  (∀ r, has_id idv r = false → P r r) →
  Forall2 P rows (map (λ r, if has_id idv r then f r else r) rows).
Proof.
  intros Ht Hf. induction rows as [|r rows IH]; constructor; [|done].
  destruct (has_id idv r) eqn:E; auto.
Qed.

Lemma assoc_cells (c : string) (sets : list (string * value)) :
  assoc c (cells sets) = cell_of <$> assoc c sets.
Proof.
  induction sets as [|[k v] sets IH]; [done|]. simpl.
  by destruct (String.eqb k c).
Qed.

Lemma last_assoc_cells (c : string) (sets : list (string * value)) :
  last_assoc c (cells sets) = cell_of <$> last_assoc c sets.
Proof.
  unfold last_assoc. rewrite <- assoc_cells. f_equal. unfold cells.
  induction sets as [|kv sets IH]; [done|].
  simpl. by rewrite !reverse_cons, map_app, IH.
Qed.

Lemma sql_update_updated_by (t : table) (sets : list (string * value)) (id : string)
    (d d' : db) :
  sql_update t (cells sets) (SText id) d = Ok d' → updated_by t sets id d d'.
Proof.
  intros ->%sql_update_Ok. split.
  - intros t' Hne. by rewrite rows_of_with_rows, decide_False.
  - rewrite rows_of_with_rows, decide_True by done.
    apply Forall2_map_touch.
    + intros r Hr. rewrite Hr. intros c.
      by rewrite assign_lookup, last_assoc_cells.
    + by intros r ->.
Qed.

Lemma run_update_updated_by (t : table) (sets : list (string * value)) (id : string)
    (d d' : db) :
  run_update t sets id d = Ok d' → updated_by t sets id d d'.
Proof. intros [_ H]%run_update_Ok. by apply sql_update_updated_by. Qed.

(** ** [updatePaymentStatus] (C10) *)

Lemma updatePaymentStatus_runs (id : string) (status : payment_outcome)
    (upi : option string) (clk : clock) (d : db) :
  ∃ d', tallyDb.updatePaymentStatus id status upi clk d = Ok d'.
Proof.
  unfold tallyDb.updatePaymentStatus.
  rewrite run_update_bindable by by destruct upi as [[|??]|].
  rewrite sql_update_no_violation; [eauto|].
  intros others. by destruct status, upi as [[|??]|].
Qed.

(** C10: [updatePaymentStatus] called without a transaction id always
    succeeds and writes NULL into [upi_transaction_id] of the row with the
    id, whatever was stored there; it sets [payment_status] and
    [updated_at], and leaves every other column, row and table as it was.
    The same happens for an empty transaction id. *)
Theorem updatePaymentStatus_clears_transaction_id
    (id : string) (status : payment_outcome) (clk : clock) (d : db) :
  ∀ upi, upi = None ∨ upi = Some "" →
  ∃ d',
    tallyDb.updatePaymentStatus id status upi clk d = Ok d'
    ∧ (∀ t, t ≠ TallyItems → rows_of t d' = rows_of t d)
    ∧ Forall2 (λ r r',
         if has_id (SText id) r
         then r' !!! "upi_transaction_id" = SNull
              ∧ r' !!! "payment_status" = SText (payment_outcome_text status)
              ∧ r' !!! "updated_at" = SText (toISOString clk)
              ∧ ∀ c, c ≠ "upi_transaction_id" → c ≠ "payment_status" →
                     c ≠ "updated_at" → r' !!! c = r !!! c
         else r' = r)
       (tally_items d) (tally_items d').
Proof.
  intros upi Hupi.
  destruct (updatePaymentStatus_runs id status upi clk d) as [d' Hd'].
  exists d'. split; [done|].
  apply run_update_updated_by in Hd' as [Hother Hrows]. split; [done|].
  eapply Forall2_impl; [exact Hrows|]. simpl. intros r r' Hr.
  destruct (has_id (SText id) r); [|done].
  split_and!.
  - rewrite Hr. by destruct Hupi as [-> | ->].
  - by rewrite Hr.
  - by rewrite Hr.
  - intros c H1 H2 H3. rewrite Hr. unfold last_assoc. simpl. by eqb_norm.
Qed.

Lemma updatePaymentStatus_clears_transaction_id_witness :
  ∃ d',
    tallyDb.updatePaymentStatus "tally-1" failed None sample_clock
      (with_rows TallyItems
         [ {[ "id" := SText "tally-1"; "upi_transaction_id" := SText "TXN123" ]} ]
         empty_db) = Ok d'.
Proof.
  destruct (updatePaymentStatus_clears_transaction_id "tally-1" failed sample_clock
              (with_rows TallyItems
                 [ {[ "id" := SText "tally-1"; "upi_transaction_id" := SText "TXN123" ]} ]
                 empty_db) None (or_introl eq_refl)) as (d' & Hd' & _).
  by exists d'.
Defined.

(** ** Ids that match no row (C5) *)

Lemma r_update_run (t : table) (upd : string → obj → clock → db → result db) :
  r_update (repository_of t) = Some upd →
  ∀ id updates clk d,
    upd id updates clk d = run_update t (update_sets_of t updates clk) id d.
Proof. destruct t; intros [= <-]; reflexivity. Qed.

Lemma r_delete_run (t : table) (del : string → db → result db) :
  r_delete (repository_of t) = Some del →
  ∀ id d, del id d = sql_delete t (SText id) d.
Proof. destruct t; intros [= <-]; reflexivity. Qed.



(** ** Order of [getAll] (C9) *)

Lemma sql_leb_total (a b : sqlval) : sql_leb a b = true ∨ sql_leb b a = true.
Proof.
  destruct a as [|x|s], b as [|y|t]; simpl; auto.
  - destruct (Z.leb_spec x y), (Z.leb_spec y x); auto; lia.
  - apply String.leb_total.
Qed.

#[global] Instance row_le_total (order : list (string * direction)) :
  Total (row_le order).
Proof.
  intros r1 r2. unfold row_le.
  induction order as [|[c dir] order IH]; simpl; [by left|].
  destruct (decide (r1 !!! c = r2 !!! c)) as [Heq|Hne].
  - by rewrite !bool_decide_eq_true_2.
  - rewrite !bool_decide_eq_false_2 by done.
    destruct dir; [apply sql_leb_total|].
    destruct (sql_leb_total (r1 !!! c) (r2 !!! c)); auto.
Qed.


Lemma sql_all_Permutation (t : table) (order : list (string * direction)) (d : db) :
  sql_all t order d ≡ₚ rows_of t d.
Proof. apply merge_sort_Permutation. Qed.





Lemma traverse_total {A B : Type} (f : A → result B) (l : list A) :
  Forall (λ x, ∃ y, f x = Ok y) l → ∃ ys, traverse f l = Ok ys.
Proof.
  induction 1 as [|x l [y Hy] _ [ys Hys]]; simpl; [eauto|].
  rewrite Hy, Hys. rsimpl. eauto.
Qed.

Lemma mapped_rows_total (t : table) (order : list (string * direction)) (d : db)
    (of_row : row → result obj) :
  Forall (λ r, ∃ o, of_row r = Ok o) (rows_of t d) →
  ∃ l, traverse of_row (sql_all t order d) = Ok l.
Proof.
  intros H. apply traverse_total. by rewrite sql_all_Permutation.
Qed.

Lemma raw_row_lookup (t : table) (r : row) (c : string) :
  c ∈ map col_name (schema t) → raw_row t r !!! c = field r c.
Proof.
  unfold raw_row. rewrite object_lookup.
  induction (schema t) as [|col cols IH]; simpl; [by intros ?%elem_of_nil|].
  intros Hc. destruct (String.eqb_spec (col_name col) c) as [->|Hne]; [done|].
  apply elem_of_cons in Hc as [->|Hc]; [done|]. by apply IH.
Qed.





(** ** What an INSERT leaves behind *)

Lemma run_insert_Ok (t : table) (cols : list string) (exprs : list sql_expr)
    (args : list value) (clk : clock) (d d' : db) :
  run_insert t cols exprs args clk d = Ok d' →
  ∃ cells,
    forallb bindable args = true
    ∧ fill exprs (map cell_of args) = Ok cells
    ∧ first_violation d (rows_of t d) (schema t) (new_row t (zip cols cells) clk) = None
    ∧ d' = with_rows t (rows_of t d ++ [new_row t (zip cols cells) clk]) d.
Proof.
  unfold run_insert. intros (params & Hp & Hk)%bind_Ok.
  apply bind_Ok in Hk as (cells & Hc & Hi).
  apply traverse_bind_param_Ok in Hp as [Hb ->].
  exists cells. unfold sql_insert in Hi.
  destruct (first_violation _ _ _ _) eqn:E; [done|]. by simplify_eq.
Qed.

Lemma run_insert_bindable (t : table) (cols : list string) (exprs : list sql_expr)
    (args : list value) (cells : list sqlval) (clk : clock) (d : db) :
  forallb bindable args = true →
  fill exprs (map cell_of args) = Ok cells →
  run_insert t cols exprs args clk d = sql_insert t (zip cols cells) clk d.
Proof.
  intros Hb Hf. unfold run_insert. rewrite traverse_bind_param by done.
  rsimpl. by rewrite Hf.
Qed.

Lemma first_violation_None (d : db) (others : list row) (cols : list column) (r : row) :
  first_violation d others cols r = None ↔
  Forall (λ c, column_violation d others c (r !!! col_name c) = None) cols.
Proof.
  induction cols as [|c cols IH]; simpl; [by split; [constructor|]|].
  destruct (column_violation d others c (r !!! col_name c)) eqn:E.
  - split; [done|]. inversion 1; congruence.
  - rewrite IH. split; [by constructor|by inversion 1].
Qed.

Lemma column_violation_unique (d : db) (others : list row) (c : column) (x : sqlval) :
  column_violation d others c x = None → col_unique c = true →
  existsb (λ r, sql_eqb (r !!! col_name c) x) others = false.
Proof.
  unfold column_violation. intros H Hu. rewrite Hu in H.
  destruct (col_not_null c && _); [done|].
  destruct (negb _); [done|].
  by destruct (existsb _ others).
Qed.

(** The primary key keeps a second row with the same id out. *)
Lemma inserted_id_fresh (t : table) (r : row) (id : string) (d : db) :
  first_violation d (rows_of t d) (schema t) r = None →
  r !!! "id" = SText id →
  no_such_id t id d.
Proof.
  intros Hv Hid. rewrite first_violation_None in Hv.
  assert (∃ c, c ∈ schema t ∧ col_name c = "id" ∧ col_unique c = true)
    as (c & Hc & Hname & Hu).
  { destruct t; (eexists; split; [apply list_elem_of_here|done]). }
  rewrite Forall_forall in Hv. specialize (Hv c Hc).
  apply column_violation_unique in Hv; [|done].
  rewrite Hname, Hid in Hv. exact Hv.
Qed.

Lemma has_id_same (id : string) (r : row) :
  r !!! "id" = SText id → has_id (SText id) r = true.
Proof. unfold has_id. intros ->. simpl. apply String.eqb_refl. Qed.


(** ** What [create] returns (C3) *)

(** C3, as stated, fails for employees: with [rating] left out, the row
    stores 5 and the returned record has no rating. *)
Lemma returned_defaults_counterexample :
  ¬ (∀ employee clk d rec d',
       employeeDb.create employee clk d = Ok (rec, d') →
       employee !!! "rating" = VUndef →
       rec !!! "rating" = VNum 5).
Proof.
  intros H.
  assert (ravi !!! "rating" = VUndef) as Hrating by (vm_compute; reflexivity).
  destruct (is_Ok_true (employeeDb.create ravi sample_clock empty_db))
    as [[rec d'] E]; [vm_compute; reflexivity|].
  specialize (H _ _ _ _ _ E Hrating).
  apply bind_Ok in E as (? & _ & E). apply Ok_inj in E. injection E as <- _.
  rewrite lookup_total_insert_value in H. change (String.eqb "id" "rating") with false in H.
  cbv iota in H. rewrite Hrating in H. discriminate H.
Qed.

Lemma new_row_cell (t : table) (given : list (string * sqlval)) (clk : clock)
    (c : string) (x : sqlval) :
  assoc c given = Some x → new_row t given clk !!! c = x.
Proof. intros H. by rewrite new_row_lookup, H. Qed.

Ltac given_cell := apply new_row_cell; cbn [zip zip_with assoc]; by eqb_norm.

Lemma inserted_rows (t : table) (r : row) (d : db) :
  rows_of t (with_rows t (rows_of t d ++ [r]) d) = rows_of t d ++ [r].
Proof. by rewrite rows_of_with_rows, decide_True. Qed.

Lemma JSON_stringify_bindable (v : value) : bindable (JSON_stringify v) = true.
Proof. unfold JSON_stringify. by destruct (JSON_ser v). Qed.

Lemma js_or_bindable (a b : value) :
  bindable a = true → bindable b = true → bindable (js_or a b) = true.
Proof. unfold js_or. by destruct (truthy a). Qed.

Lemma customer_create_accepts (customer : obj) (clk : clock) (d : db) :
  acceptable_customer customer clk d →
  ∃ rec d', customerDb.create customer clk d = Ok (rec, d').
Proof.
  intros ([name Hname] & (phone & Hphone & Hfree) & Hgender & He & Hn & Hp & Hid).
  unfold customerDb.create.
  erewrite run_insert_bindable; [|
    cbn [forallb]; rewrite He, Hp, Hname, Hphone, JSON_stringify_bindable,
      js_or_bindable by done; by destruct Hgender as [-> | ->] |
    reflexivity].
  unfold sql_insert.
  match goal with |- context [first_violation ?d ?o ?s ?r] =>
    assert (first_violation d o s r = None) as ->
  end; [|rsimpl; eauto].
  apply first_violation_None. unfold no_such_id, has_id in Hid.
  change (rows_of Customers d) with (customers d) in *.
  repeat constructor; cbn [col_name COL NOT_NULL UNIQUE PRIMARY_KEY CHECK_IN DEFAULT];
    rewrite new_row_lookup; cbn [zip zip_with map assoc]; eqb_norm;
    unfold column_violation; cbn -[existsb bool_decide];
    rewrite ?Hname, ?Hphone; cbn -[existsb]; rewrite ?Hid, ?Hfree; try done.
  destruct Hgender as [-> | ->]; done.
Qed.

Ltac insert_inversion H :=
  let cells := fresh "cells" in
  let Hb := fresh "Hbind" in let Hf := fresh "Hfill" in
  let Hv := fresh "Hviol" in
  apply run_insert_Ok in H as (cells & Hb & Hf & Hv & ->);
  cbn [fill map mbind result_bind rbind] in Hf; apply Ok_inj in Hf; subst cells.

(** C3 (amended): [create] returns its argument with the generated id added
    and, for customers, [visitCount = 0], [totalSpent = 0] and [lastVisit]
    set to the current time; for tally items, [paymentDate] set to the
    current time and no [upiTransactionId]. Every other property of the
    returned record reads as in the argument. The defaults an employee's
    [create] fills in for a missing or falsy rating and working hours (5,
    09:00, 18:00) go into the stored row; the returned record has the
    rating and working hours of the argument. A customer with well-formed
    properties, a free phone number and a free id is accepted. *)
Theorem create_returns :
  (∀ customer clk d rec d',
     customerDb.create customer clk d = Ok (rec, d') →
     rec !!! "id" = VStr (customerDb.new_id clk)
     ∧ rec !!! "visitCount" = VNum 0
     ∧ rec !!! "totalSpent" = VNum 0
     ∧ rec !!! "lastVisit" = VStr (toISOString clk)
     ∧ (∀ k, k ≠ "id" → k ≠ "visitCount" → k ≠ "totalSpent" → k ≠ "lastVisit" →
          rec !!! k = customer !!! k)
     ∧ ∃ r, customers d' = customers d ++ [r]
          ∧ field r "id" = rec !!! "id"
          ∧ field r "visit_count" = rec !!! "visitCount"
          ∧ field r "total_spent" = rec !!! "totalSpent"
          ∧ field r "last_visit" = rec !!! "lastVisit")
  ∧ (∀ employee clk d rec d',
     employeeDb.create employee clk d = Ok (rec, d') →
     rec !!! "id" = VStr (employeeDb.new_id clk)
     ∧ (∀ k, k ≠ "id" → rec !!! k = employee !!! k)
     ∧ ∃ r, employees d' = employees d ++ [r]
          ∧ field r "id" = rec !!! "id"
          ∧ r !!! "rating" = cell_of (js_or (employee !!! "rating") (VNum 5))
          ∧ r !!! "working_hours_start"
            = cell_of (js_or (opt_prop (employee !!! "workingHours") "start") (VStr "09:00"))
          ∧ r !!! "working_hours_end"
            = cell_of (js_or (opt_prop (employee !!! "workingHours") "end") (VStr "18:00")))
  ∧ (∀ item clk d rec d',
     tallyDb.create item clk d = Ok (rec, d') →
     rec !!! "id" = VStr (tallyDb.new_id clk)
     ∧ rec !!! "paymentDate" = VStr (toISOString clk)
     ∧ rec !!! "upiTransactionId" = VUndef
     ∧ (∀ k, k ≠ "id" → k ≠ "paymentDate" → k ≠ "upiTransactionId" →
          rec !!! k = item !!! k)
     ∧ ∃ r, tally_items d' = tally_items d ++ [r]
          ∧ field r "id" = rec !!! "id"
          ∧ field r "payment_date" = rec !!! "paymentDate"
          ∧ r !!! "payment_status" = cell_of (item !!! "paymentStatus")
          ∧ r !!! "upi_transaction_id" = SNull)
  ∧ (∀ customer clk d,
     acceptable_customer customer clk d →
     ∃ rec d', customerDb.create customer clk d = Ok (rec, d')).
Proof.
  split_and!.
  - intros customer clk d rec d' (d1 & H & Hrec)%bind_Ok.
    apply Ok_inj in Hrec. injection Hrec as <- <-. insert_inversion H.
    rewrite !lookup_total_insert_value. eqb_norm. split_and!; try done.
    + intros k ? ? ? ?. rewrite !lookup_total_insert_value. by eqb_norm.
    + eexists. split; [apply (inserted_rows Customers)|].
      unfold field. split_and!;
        (erewrite new_row_cell by (cbn [zip zip_with assoc]; by eqb_norm);
         reflexivity).
  - intros employee clk d rec d' (d1 & H & Hrec)%bind_Ok.
    apply Ok_inj in Hrec. injection Hrec as <- <-. insert_inversion H.
    rewrite !lookup_total_insert_value. eqb_norm. split_and!; try done.
    + intros k ?. rewrite !lookup_total_insert_value. by eqb_norm.
    + eexists. split; [apply (inserted_rows Employees)|].
      unfold field. split_and!;
        (erewrite new_row_cell by (cbn [zip zip_with assoc]; by eqb_norm);
         reflexivity).
  - intros item clk d rec d' (d1 & H & Hrec)%bind_Ok.
    apply Ok_inj in Hrec. injection Hrec as <- <-. insert_inversion H.
    rewrite !lookup_total_insert_value. eqb_norm. split_and!; try done.
    + intros k ? ? ?. rewrite !lookup_total_insert_value. by eqb_norm.
    + eexists. split; [apply (inserted_rows TallyItems)|].
      unfold field. split_and!;
        try (erewrite new_row_cell by (cbn [zip zip_with assoc]; by eqb_norm);
             reflexivity).
      rewrite new_row_lookup. cbn [zip zip_with assoc]. eqb_norm. reflexivity.
  - apply customer_create_accepts.
Qed.

Lemma create_returns_witness :
  ∃ rec d',
    customerDb.create asha sample_clock empty_db = Ok (rec, d')
    ∧ rec !!! "id" = VStr "cust-1700000000000"
    ∧ rec !!! "visitCount" = VNum 0
    ∧ rec !!! "totalSpent" = VNum 0.
Proof.
  destruct create_returns as (Hc & _ & _ & Hacc).
  assert (acceptable_customer asha sample_clock empty_db) as Hok.
  { unfold acceptable_customer. split_and!; try reflexivity; eauto. }
  destruct (Hacc asha sample_clock empty_db Hok) as (rec & d' & Hcreate).
  exists rec, d'. split; [done|].
  destruct (Hc _ _ _ _ _ Hcreate) as (? & ? & ? & _). done.
Defined.

(** ** Seeding (C4) *)

Lemma run_insert_rows (t : table) (cols : list string) (exprs : list sql_expr)
    (args : list value) (clk : clock) (d d' : db) :
  run_insert t cols exprs args clk d = Ok d' →
  (∀ t', t' ≠ t → rows_of t' d' = rows_of t' d)
  ∧ ∃ cells, fill exprs (map cell_of args) = Ok cells
      ∧ rows_of t d' = rows_of t d ++ [new_row t (zip cols cells) clk].
Proof.
  intros (cells & _ & Hf & _ & ->)%run_insert_Ok. split.
  - intros t' Hne. by rewrite rows_of_with_rows, decide_False.
  - exists cells. split; [done|]. apply inserted_rows.
Qed.

Lemma forEach_inserts (t : table) {A : Type} (f : A → db → result db)
    (l : list A) (d d' : db) (e : option error) :
  inserts_into t f →
  forEach f l d = (d', e) →
  (∀ t', t' ≠ t → rows_of t' d' = rows_of t' d)
  ∧ (e = None → length (rows_of t d') = length (rows_of t d) + length l).
Proof.
  intros Hf. revert d. induction l as [|x l IH]; intros d; simpl.
  - intros [= <- <-]. split; [done|]. intros _. lia.
  - destruct (f x d) as [dx|ex] eqn:E.
    + intros [Ho Hl]%IH. destruct (Hf _ _ _ E) as [Ho' [r Hr]]. split.
      * intros t' Hne. by rewrite Ho, Ho'.
      * intros He. rewrite (Hl He), Hr, length_app. simpl. lia.
    + intros [= <- <-]. split; [done|]. done.
Qed.

Lemma insertCustomer_inserts clk : inserts_into Customers (insertCustomer clk).
Proof.
  intros x d d' [Ho (cells & _ & Hr)]%run_insert_rows. eauto.
Qed.

Lemma insertEmployee_inserts clk : inserts_into Employees (insertEmployee clk).
Proof.
  intros x d d' (s & _ & H)%bind_Ok. apply bind_Ok in H as (e & _ & H).
  apply run_insert_rows in H as [Ho (cells & _ & Hr)]. eauto.
Qed.

Lemma insertService_inserts clk : inserts_into Services (insertService clk).
Proof.
  intros x d d' [Ho (cells & _ & Hr)]%run_insert_rows. eauto.
Qed.

Lemma insertProduct_inserts clk : inserts_into Products (insertProduct clk).
Proof.
  intros x d d' [Ho (cells & _ & Hr)]%run_insert_rows. eauto.
Qed.

Lemma seed_tables (m : mockData) (clk : clock) (d d' : db) (e : option error) :
  seed m clk d = (d', e) →
  appointments d' = appointments d
  ∧ tally_items d' = tally_items d
  ∧ (e = None →
     length (customers d') = length (customers d) + length (mockCustomers m)
     ∧ length (employees d') = length (employees d) + length (mockEmployees m)
     ∧ length (services d') = length (services d) + length (mockServices m)
     ∧ length (products d') = length (products d) + length (mockProducts m)).
Proof.
  unfold seed.
  change (appointments d') with (rows_of Appointments d').
  change (appointments d) with (rows_of Appointments d).
  change (tally_items d') with (rows_of TallyItems d').
  change (tally_items d) with (rows_of TallyItems d).
  change (customers d') with (rows_of Customers d').
  change (customers d) with (rows_of Customers d).
  change (employees d') with (rows_of Employees d').
  change (employees d) with (rows_of Employees d).
  change (services d') with (rows_of Services d').
  change (services d) with (rows_of Services d).
  change (products d') with (rows_of Products d').
  change (products d) with (rows_of Products d).
  destruct (forEach (insertCustomer clk) _ d) as [dc ec] eqn:Hc.
  apply (forEach_inserts Customers) in Hc as [Hco Hcl];
    [|apply insertCustomer_inserts].
  destruct ec as [ec|].
  { intros [= <- <-]. rewrite !Hco by done. done. }
  destruct (forEach (insertEmployee clk) _ dc) as [de ee] eqn:He.
  apply (forEach_inserts Employees) in He as [Heo Hel];
    [|apply insertEmployee_inserts].
  destruct ee as [ee|].
  { intros [= <- <-]. rewrite !Heo, !Hco by done. done. }
  destruct (forEach (insertService clk) _ de) as [ds es] eqn:Hs.
  apply (forEach_inserts Services) in Hs as [Hso Hsl];
    [|apply insertService_inserts].
  destruct es as [es|].
  { intros [= <- <-]. rewrite !Hso, !Heo, !Hco by done. done. }
  intros [Hpo Hpl]%(forEach_inserts Products); [|apply insertProduct_inserts].
  rewrite !(Hpo Appointments), !(Hpo TallyItems), !(Hpo Customers),
    !(Hpo Employees), !(Hpo Services) by done.
  rewrite !(Hso Appointments), !(Hso TallyItems), !(Hso Customers),
    !(Hso Employees) by done.
  rewrite !(Heo Appointments), !(Heo TallyItems), !(Heo Customers) by done.
  rewrite !(Hco Appointments), !(Hco TallyItems) by done.
  split_and!; [done|done|]. intros ->.
  rewrite (Hpl eq_refl), (Hsl eq_refl), (Hel eq_refl), (Hcl eq_refl).
  rewrite (Hso Products), (Heo Products), (Hco Products) by done.
  rewrite (Heo Services), (Hco Services) by done.
  rewrite (Hco Employees) by done. done.
Qed.

(** C4, as stated, fails on the insert path: a seeded customer keeps the
    id and the counters of the seed record, where [create] would generate
    an id and start the counters at 0. *)
Lemma seeds_through_create_counterexample : ¬ seeds_through_create.
Proof.
  intros H. specialize (H sample_clock priya empty_db).
  apply (f_equal (λ res, match res with
                         | Ok d => (λ r : row, (r !!! "id", r !!! "visit_count"))
                                     <$> customers d
                         | Err _ => []
                         end)) in H.
  vm_compute in H. discriminate H.
Qed.

(** C4 (amended): the bootstrap schedules the seeding exactly when the
    customers table is empty, and otherwise leaves the database as it is.
    The seeding inserts into customers, employees, services and products
    only, one row per seed record when no insert fails. The seed rows go in
    through INSERT statements of their own: for services and products these
    are the statements of [create]; a seeded customer keeps the id,
    counters and last visit of its seed record, and a seeded employee gets
    an empty email and phone. Once a seeding with at least one customer has
    completed, another bootstrap schedules nothing. *)
Theorem seeding (m : mockData) :
  (∀ d, customers d ≠ [] → initDatabase m d = (d, None))
  ∧ (∀ d, customers d = [] → initDatabase m d = (d, Some (seed m)))
  ∧ (∀ clk d d' e, seed m clk d = (d', e) →
       appointments d' = appointments d ∧ tally_items d' = tally_items d)
  ∧ (∀ clk d d', seed m clk d = (d', None) →
       length (customers d') = length (customers d) + length (mockCustomers m)
       ∧ length (employees d') = length (employees d) + length (mockEmployees m)
       ∧ length (services d') = length (services d) + length (mockServices m)
       ∧ length (products d') = length (products d) + length (mockProducts m))
  ∧ (∀ clk d d', seed m clk d = (d', None) → mockCustomers m ≠ [] →
       initDatabase m d' = (d', None))
  ∧ (∀ clk x d, insertService clk x d = serviceDb.create x clk d)
  ∧ (∀ clk x d, insertProduct clk x d = productDb.create x clk d)
  ∧ (∀ clk x d d', insertCustomer clk x d = Ok d' →
       ∃ r, customers d' = customers d ++ [r]
         ∧ r !!! "id" = cell_of (x !!! "id")
         ∧ r !!! "visit_count" = cell_of (x !!! "visitCount")
         ∧ r !!! "total_spent" = cell_of (x !!! "totalSpent")
         ∧ r !!! "last_visit" = cell_of (x !!! "lastVisit")
         ∧ r !!! "notes" = cell_of (x !!! "notes"))
  ∧ (∀ clk x d d', insertEmployee clk x d = Ok d' →
       ∃ r, employees d' = employees d ++ [r]
         ∧ r !!! "id" = cell_of (x !!! "id")
         ∧ r !!! "email" = SText ""
         ∧ r !!! "phone" = SText "").
Proof.
  assert (∀ d, customers d ≠ [] → initDatabase m d = (d, None)) as Hfull.
  { intros d Hd. unfold initDatabase, createTables, insertInitialData, sql_count.
    simpl. destruct (customers d); [done|]. reflexivity. }
  split_and!.
  - exact Hfull.
  - intros d Hd. unfold initDatabase, createTables, insertInitialData, sql_count.
    simpl. by rewrite Hd.
  - intros clk d d' e H. by destruct (seed_tables _ _ _ _ _ H) as (? & ? & _).
  - intros clk d d' H. destruct (seed_tables _ _ _ _ _ H) as (_ & _ & Hl). by apply Hl.
  - intros clk d d' H Hne. apply Hfull.
    destruct (seed_tables _ _ _ _ _ H) as (_ & _ & Hl).
    destruct (Hl eq_refl) as (Hc & _).
    destruct (customers d'); [|done]. destruct (mockCustomers m); [done|].
    simpl in Hc. lia.
  - reflexivity.
  - reflexivity.
  - intros clk x d d' H. insert_inversion H.
    eexists. split; [apply (inserted_rows Customers)|].
    split_and!;
      (erewrite new_row_cell by (cbn [zip zip_with assoc]; by eqb_norm); reflexivity).
  - intros clk x d d' (s & _ & H)%bind_Ok. apply bind_Ok in H as (e & _ & H).
    insert_inversion H.
    eexists. split; [apply (inserted_rows Employees)|].
    split_and!;
      (erewrite new_row_cell by (cbn [zip zip_with assoc]; by eqb_norm); reflexivity).
Qed.

Lemma seeding_witness :
  initDatabase (MockData [priya] [] [] [])
    (with_rows Customers [ {[ "id" := SText "1" ]} ] empty_db)
  = (with_rows Customers [ {[ "id" := SText "1" ]} ] empty_db, None)
  ∧ ∃ d', seed (MockData [priya] [] [] []) sample_clock empty_db = (d', None)
          ∧ length (customers d') = 1.
Proof.
  destruct (seeding (MockData [priya] [] [] [])) as (Hfull & _ & _ & Hlen & _).
  split; [by apply Hfull|].
  assert (snd (seed (MockData [priya] [] [] []) sample_clock empty_db) = None)
    as Hnone by (vm_compute; reflexivity).
  destruct (seed (MockData [priya] [] [] []) sample_clock empty_db)
    as [d' e] eqn:E.
  simpl in Hnone. subst e.
  exists d'. split; [done|]. by destruct (Hlen _ _ _ E) as [-> _].
Defined.

(** ** Partial updates (C2) *)

Lemma last_assoc_nil {V : Type} (c : string) : last_assoc c ([] : list (string * V)) = None.
Proof. reflexivity. Qed.

Lemma last_assoc_snoc {V : Type} (c f : string) (v : V) (l : list (string * V)) :
  last_assoc c (l ++ [(f, v)]) = if String.eqb f c then Some v else last_assoc c l.
Proof. unfold last_assoc. by rewrite reverse_app. Qed.

Lemma last_assoc_push (c f : string) (b : bool) (v : value) (l : list (string * value)) :
  last_assoc c (push b f v l) = if b && String.eqb f c then Some v else last_assoc c l.
Proof. unfold push. destruct b; [apply last_assoc_snoc|done]. Qed.

Ltac by_column c :=
  repeat match goal with
  | |- context [String.eqb ?k c] =>
      destruct (String.eqb_spec k c) as [<-|?];
      [ eqb_norm; rewrite ?andb_false_r, ?andb_true_r;
        cbn [passes fst snd]; reflexivity | ]
  end;
  rewrite ?andb_false_r; reflexivity.

Ltac sets_as_clauses sets clauses :=
  let u := fresh "u" in let clk := fresh "clk" in let c := fresh "c" in
  intros u clk c; unfold sets, clauses, assigned, same_value; cbv zeta;
  rewrite last_assoc_snoc, !last_assoc_push, last_assoc_nil;
  cbn [List.find fst snd];
  by_column c.

Lemma customer_sets (u : obj) (clk : clock) (c : string) :
  last_assoc c (customerDb.update_sets u clk) = assigned (customer_clauses u) clk c.
Proof. revert u clk c. sets_as_clauses customerDb.update_sets customer_clauses. Qed.

Lemma employee_sets (u : obj) (clk : clock) (c : string) :
  last_assoc c (employeeDb.update_sets u clk) = assigned (employee_clauses u) clk c.
Proof. revert u clk c. sets_as_clauses employeeDb.update_sets employee_clauses. Qed.

Lemma appointment_sets (u : obj) (clk : clock) (c : string) :
  last_assoc c (appointmentDb.update_sets u clk) = assigned (appointment_clauses u) clk c.
Proof. revert u clk c. sets_as_clauses appointmentDb.update_sets appointment_clauses. Qed.

Lemma service_sets (u : obj) (clk : clock) (c : string) :
  last_assoc c (serviceDb.update_sets u clk) = assigned (service_clauses u) clk c.
Proof. revert u clk c. sets_as_clauses serviceDb.update_sets service_clauses. Qed.

Lemma product_sets (u : obj) (clk : clock) (c : string) :
  last_assoc c (productDb.update_sets u clk) = assigned (product_clauses u) clk c.
Proof. revert u clk c. sets_as_clauses productDb.update_sets product_clauses. Qed.

Lemma partial_update_from_sets (t : table) (sets : obj → clock → list (string * value))
    (clauses : obj → list clause) :
  (∀ u clk c, last_assoc c (sets u clk) = assigned (clauses u) clk c) →
  (∀ clk, sets ∅ clk = [("updated_at", VStr (toISOString clk))]) →
  partial_update t (λ id u clk d, run_update t (sets u clk) id d) clauses.
Proof.
  intros Hsets Hempty. split.
  - intros id u clk d d' [Ho Hrows]%run_update_updated_by. split; [done|].
    eapply Forall2_impl; [exact Hrows|]. simpl. intros r r' Hr.
    destruct (has_id (SText id) r); [|done]. intros c. by rewrite Hr, Hsets.
  - intros id clk d. rewrite Hempty, run_update_bindable by done.
    rewrite sql_update_no_violation; [eauto|]. intros others. by destruct t.
Qed.

(** C2, as stated, fails: a name that is present but empty leads to no
    assignment, and the stored name stays. *)
Lemma present_field_counterexample :
  ¬ (∀ id updates clk d d' v,
       customerDb.update id updates clk d = Ok d' →
       updates !! "name" = Some v →
       Forall (λ r', has_id (SText id) r' = true → r' !!! "name" = cell_of v)
              (customers d')).
Proof.
  intros H.
  assert (match customerDb.update "cust-1" {[ "name" := VStr "" ]} sample_clock one_customer with
          | Ok d' => (λ r' : row, (has_id (SText "cust-1") r', r' !!! "name")) <$> customers d'
          | Err _ => []
          end = [(true, SText "Asha")]) as Hobs by (vm_compute; reflexivity).
  destruct (customerDb.update "cust-1" {[ "name" := VStr "" ]} sample_clock one_customer)
    as [d'|e] eqn:E; [|discriminate Hobs].
  specialize (H _ _ _ _ _ (VStr "") E eq_refl).
  destruct (customers d') as [|r' rows]; [discriminate Hobs|].
  injection Hobs as Hid Hname _. apply Forall_inv in H. specialize (H Hid).
  rewrite Hname in H. discriminate H.
Qed.

(** C2 (amended): in each of the five repositories with an [update], a
    successful call assigns exactly the columns whose guard passes: the
    columns guarded by truthiness (name, phone, gender, lastVisit,
    preferredServices, role, specialties, workingHours, status, category,
    brand) when the property is truthy, the columns guarded by
    [!== undefined] when the property is not undefined, and [updated_at]
    always, to the current time. Every other column of the row, every other
    row and every other table is as before. The empty input succeeds and
    assigns [updated_at] alone. *)
Theorem partial_updates :
  partial_update Customers customerDb.update customer_clauses
  ∧ partial_update Employees employeeDb.update employee_clauses
  ∧ partial_update Appointments appointmentDb.update appointment_clauses
  ∧ partial_update Services serviceDb.update service_clauses
  ∧ partial_update Products productDb.update product_clauses.
Proof.
  split_and!.
  - apply (partial_update_from_sets Customers customerDb.update_sets);
      [apply customer_sets|done].
  - apply (partial_update_from_sets Employees employeeDb.update_sets);
      [apply employee_sets|done].
  - apply (partial_update_from_sets Appointments appointmentDb.update_sets);
      [apply appointment_sets|done].
  - apply (partial_update_from_sets Services serviceDb.update_sets);
      [apply service_sets|done].
  - apply (partial_update_from_sets Products productDb.update_sets);
      [apply product_sets|done].
Qed.

Lemma partial_updates_witness :
  ∃ d' r',
    customerDb.update "cust-1" {[ "email" := VStr "asha@example.com" ]}
      sample_clock one_customer = Ok d'
    ∧ customers d' = [r']
    ∧ r' !!! "email" = SText "asha@example.com"
    ∧ r' !!! "notes" = SText "window seat"
    ∧ r' !!! "updated_at" = SText (toISOString sample_clock).
Proof.
  destruct partial_updates as ([Hupd _] & _).
  destruct (is_Ok_true (customerDb.update "cust-1"
              {[ "email" := VStr "asha@example.com" ]} sample_clock one_customer))
    as [d' E]; [vm_compute; reflexivity|].
  destruct (Hupd _ _ _ _ _ E) as [_ Hrows].
  change (rows_of Customers d') with (customers d') in Hrows.
  unfold one_customer in Hrows. cbn [rows_of with_rows customers] in Hrows.
  destruct (customers d') as [|r' [|? ?]] eqn:Hd';
    [by inversion Hrows| |inversion Hrows as [|? ? ? ? ? Hrs]; inversion Hrs].
  apply Forall2_cons_1 in Hrows as [Hr _].
  match type of Hr with
  | if ?b then _ else _ => change b with true in Hr
  end.
  cbv iota in Hr.
  exists d', r'. split; [done|]. split; [done|].
  split_and!; rewrite Hr; reflexivity.
Defined.

(** ** Reading back what [create] wrote (C1) *)


Lemma field_text (x : row) (c s : string) : field x c = VStr s → x !!! c = SText s.
Proof. unfold field. destruct (x !!! c); simpl; congruence. Qed.

Lemma JSON_round_trip (v : value) :
  json_safe v = true →
  JSON_parse (js_or (js_of_sql (cell_of (JSON_stringify v))) (VStr "[]")) = Ok v
  ∧ JSON_parse (js_of_sql (cell_of (JSON_stringify v))) = Ok v.
Proof.
  intros Hv. unfold JSON_stringify. rewrite (JSON_ser_safe _ Hv). simpl.
  assert (truthy (VStr (ser_text v)) = true) as Ht.
  { pose proof (ser_text_nonempty v Hv) as Hlen.
    destruct (ser_text v); [simpl in Hlen; lia|reflexivity]. }
  unfold js_or. rewrite Ht. unfold JSON_parse. simpl.
  by rewrite JSON_parse_text_ser.
Qed.

Lemma traverse_elem_of {A B : Type} (f : A → result B) (l : list A) (ys : list B) (x : A) :
  traverse f l = Ok ys → x ∈ l → ∃ y, y ∈ ys ∧ f x = Ok y.
Proof.
  intros H%traverse_Ok_Forall2 Hx.
  induction H as [|a b l ys Hab H IH]; [by apply elem_of_nil in Hx|].
  apply elem_of_cons in Hx as [->|Hx].
  - exists b. split; [left|done].
  - destruct (IH Hx) as (y & Hy & Hfy). exists y. split; [by right|done].
Qed.

Lemma traverse_elem_of_r {A B : Type} (f : A → result B) (l : list A) (ys : list B) (y : B) :
  traverse f l = Ok ys → y ∈ ys → ∃ x, x ∈ l ∧ f x = Ok y.
Proof.
  intros H%traverse_Ok_Forall2 Hy.
  induction H as [|a b l ys Hab H IH]; [by apply elem_of_nil in Hy|].
  apply elem_of_cons in Hy as [->|Hy].
  - exists a. split; [left|done].
  - destruct (IH Hy) as (x & Hx & Hfx). exists x. split; [by right|done].
Qed.


Ltac in_list :=
  solve [repeat first [apply list_elem_of_here | apply list_elem_of_further]].











(** ** Creating a tally item, then settling it (C8) *)

Lemma tally_of_row_fields (x : row) (o : obj) :
  tallyDb.of_row x = Ok o →
  o !!! "id" = field x "id"
  ∧ o !!! "paymentStatus" = field x "payment_status"
  ∧ o !!! "upiTransactionId" = field x "upi_transaction_id"
  ∧ o !!! "paymentDate" = field x "payment_date".
Proof.
  intros (services & _ & H)%bind_Ok. apply Ok_inj in H. subst o.
  rewrite !object_lookup. cbn [assoc]. by eqb_norm.
Qed.

Lemma Forall2_untouched (P : row → row → Prop) (idv : sqlval) (rows rows' : list row) :
  existsb (has_id idv) rows = false →
  Forall2 (λ r r', if has_id idv r then P r r' else r' = r) rows rows' →
  rows' = rows.
Proof.
  intros Hno H. induction H as [|r r' rows rows' Hr H IH]; [done|].
  simpl in Hno. apply orb_false_iff in Hno as [Hid Hno]. rewrite Hid in Hr.
  subst r'. f_equal. by apply IH.
Qed.

(** C8: after [tallyDb.create] (which stores the payment status as given and
    stamps the payment date with the current time),
    [updatePaymentStatus(id, "completed", "TXN123")] succeeds, and in every
    list [getAll] then returns there is a record with that id, and each
    record with that id has [paymentStatus = "completed"],
    [upiTransactionId = "TXN123"] and the payment date stamped at creation.
    [getAll] does return a list when it did before the item was created and
    the item's services are JSON values. *)
Theorem payment_status_scenario
    (item : obj) (clk clk' : clock) (d : db) (rec : obj) (d1 : db) :
  tallyDb.create item clk d = Ok (rec, d1) →
  ∃ d2,
    tallyDb.updatePaymentStatus (tallyDb.new_id clk) completed (Some "TXN123") clk' d1
      = Ok d2
    ∧ rec !!! "id" = VStr (tallyDb.new_id clk)
    ∧ rec !!! "paymentDate" = VStr (toISOString clk)
    ∧ (∃ r, tally_items d1 = tally_items d ++ [r]
            ∧ r !!! "payment_status" = cell_of (item !!! "paymentStatus")
            ∧ r !!! "payment_date" = SText (toISOString clk))
    ∧ (∀ l, tallyDb.getAll d2 = Ok l →
         (∃ o, o ∈ l ∧ o !!! "id" = VStr (tallyDb.new_id clk))
         ∧ ∀ o, o ∈ l → o !!! "id" = VStr (tallyDb.new_id clk) →
             o !!! "paymentStatus" = VStr "completed"
             ∧ o !!! "upiTransactionId" = VStr "TXN123"
             ∧ o !!! "paymentDate" = VStr (toISOString clk))
    ∧ (json_safe (item !!! "services") = true →
       (∃ l0, tallyDb.getAll d = Ok l0) →
       ∃ l, tallyDb.getAll d2 = Ok l).
Proof.
  intros (d0 & H & Hrec)%bind_Ok.
  apply Ok_inj in Hrec. injection Hrec as <- <-. insert_inversion H.
  set (id := tallyDb.new_id clk) in *.
  set (r := new_row TallyItems _ clk) in *.
  assert (r !!! "id" = SText id) as Hid by (subst r; given_cell).
  assert (r !!! "payment_date" = SText (toISOString clk)) as Hdate
    by (subst r; given_cell).
  assert (r !!! "payment_status" = cell_of (item !!! "paymentStatus")) as Hstatus
    by (subst r; given_cell).
  assert (r !!! "services" = cell_of (JSON_stringify (item !!! "services"))) as Hservices
    by (subst r; given_cell).
  pose proof (inserted_id_fresh _ _ _ _ Hviol Hid) as Hfresh.
  set (d1 := with_rows TallyItems (rows_of TallyItems d ++ [r]) d) in *.
  destruct (updatePaymentStatus_runs id completed (Some "TXN123") clk' d1) as [d2 Hd2].
  exists d2. split; [done|].
  apply run_update_updated_by in Hd2 as [_ Hrows].
  unfold d1 in Hrows. rewrite inserted_rows in Hrows.
  apply Forall2_app_inv_l in Hrows as (rows' & last' & Hrows & Hlast & Hd2).
  apply (Forall2_untouched _ _ _ _ Hfresh) in Hrows. subst rows'.
  destruct last' as [|r' [|? ?]];
    [by inversion Hlast| |inversion Hlast as [|? ? ? ? ? Hl]; inversion Hl].
  apply Forall2_cons_1 in Hlast as [Hr' _].
  rewrite (has_id_same _ _ Hid) in Hr'.
  assert (r' !!! "id" = SText id) as Hid' by (rewrite Hr'; exact Hid).
  assert (r' !!! "payment_status" = SText "completed") as Hstatus'
    by (by rewrite Hr').
  assert (r' !!! "upi_transaction_id" = SText "TXN123") as Hupi' by (by rewrite Hr').
  assert (r' !!! "payment_date" = SText (toISOString clk)) as Hdate'
    by (rewrite Hr'; exact Hdate).
  assert (r' !!! "services" = r !!! "services") as Hservices' by (by rewrite Hr').
  assert (∀ x, x ∈ rows_of TallyItems d2 → x !!! "id" = SText id → x = r') as Honly.
  { intros x Hx Hxid. rewrite Hd2 in Hx. apply elem_of_app in Hx as [Hx|Hx].
    - pose proof (no_such_id_has_id _ _ _ _ Hfresh Hx) as Hno.
      by rewrite (has_id_same _ _ Hxid) in Hno.
    - by apply list_elem_of_singleton in Hx. }
  split_and!.
  - rewrite !lookup_total_insert_value. by eqb_norm.
  - rewrite !lookup_total_insert_value. by eqb_norm.
  - exists r. split; [apply (inserted_rows TallyItems)|done].
  - intros l Hl. unfold tallyDb.getAll in Hl. split.
    + destruct (traverse_elem_of _ _ _ r' Hl) as (o & Ho & Hro).
      { rewrite sql_all_Permutation, Hd2. apply elem_of_app. right. left. }
      exists o. split; [done|].
      destruct (tally_of_row_fields _ _ Hro) as (-> & _). unfold field. by rewrite Hid'.
    + intros o Ho Hoid.
      destruct (traverse_elem_of_r _ _ _ o Hl Ho) as (x & Hx & Hxo).
      rewrite sql_all_Permutation in Hx.
      destruct (tally_of_row_fields _ _ Hxo) as (Ho1 & -> & -> & ->).
      rewrite Ho1 in Hoid. apply field_text in Hoid.
      rewrite (Honly x Hx Hoid). unfold field.
      by rewrite Hstatus', Hupi', Hdate'.
  - intros Hsafe [l0 Hl0]. apply (mapped_rows_total TallyItems).
    rewrite Hd2. apply Forall_app. split.
    + apply Forall_forall. intros x Hx.
      destruct (traverse_elem_of _ _ _ x Hl0) as (o & _ & Hxo); [|eauto].
      by rewrite sql_all_Permutation.
    + constructor; [|constructor]. unfold tallyDb.of_row, field.
      rewrite Hservices', Hservices, (proj2 (JSON_round_trip _ Hsafe)). rsimpl. eauto.
Qed.

Lemma payment_status_scenario_witness :
  ∃ rec d1 d2 l,
    tallyDb.create haircut_sale sample_clock empty_db = Ok (rec, d1)
    ∧ tallyDb.updatePaymentStatus "tally-1700000000000" completed (Some "TXN123")
        sample_clock d1 = Ok d2
    ∧ tallyDb.getAll d2 = Ok l
    ∧ ∃ o, o ∈ l
        ∧ o !!! "paymentStatus" = VStr "completed"
        ∧ o !!! "upiTransactionId" = VStr "TXN123"
        ∧ o !!! "paymentDate" = VStr "2023-11-14T22:13:20.000Z".
Proof.
  destruct (is_Ok_true (tallyDb.create haircut_sale sample_clock empty_db))
    as [[rec d1] E]; [vm_compute; reflexivity|].
  destruct (payment_status_scenario haircut_sale sample_clock sample_clock
              empty_db rec d1 E) as (d2 & Hd2 & _ & _ & _ & Hall & Hruns).
  destruct Hruns as [l Hl]; [vm_compute; reflexivity|by exists []|].
  destruct (Hall l Hl) as [(o & Ho & Hoid) Hfields].
  exists rec, d1, d2, l. split_and!; [done..|].
  exists o. split; [done|]. by apply Hfields.
Defined.



(** * Further properties of the repositories

    ** Deleting *)

Lemma with_rows_with_rows (t : table) (rs rs' : list row) (d : db) :
  with_rows t rs (with_rows t rs' d) = with_rows t rs d.
Proof. by destruct t. Qed.

Lemma filter_without_app (idv : sqlval) (rows : list row) (r : row) :
  existsb (has_id idv) rows = false → has_id idv r = true →
  List.filter (λ r, negb (has_id idv r)) (rows ++ [r]) = rows.
Proof.
  intros Hrows Hr. rewrite List.filter_app, filter_without_none by done.
  simpl. rewrite Hr. simpl. apply app_nil_r.
Qed.

Lemma existsb_app_r {A : Type} (f : A → bool) (l : list A) (x : A) :
  f x = true → existsb f (l ++ [x]) = true.
Proof. intros H. rewrite existsb_app. simpl. rewrite H. by rewrite orb_true_r. Qed.

Lemma referencing_customers : referencing Customers = [(Appointments, "customer_id")].
Proof. reflexivity. Qed.

Lemma referencing_employees : referencing Employees = [(Appointments, "employee_id")].
Proof. reflexivity. Qed.

(** A delete of a row that some appointment refers to is refused; any other
    delete goes through. *)
Lemma delete_referenced (t : table) (column : string) (id : string) (d : db) :
  referencing t = [(Appointments, column)] →
  sql_delete t (SText id) d =
  if existsb (has_id (SText id)) (rows_of t d)
     && existsb (λ a, sql_eqb (a !!! column) (SText id)) (appointments d)
  then Err (SqliteError (ForeignKey column))
  else Ok (with_rows t (List.filter (λ r, negb (has_id (SText id) r)) (rows_of t d)) d).
Proof.
  intros Href. unfold sql_delete. rewrite Href.
  destruct (existsb (has_id (SText id)) (rows_of t d)) eqn:E; simpl.
  - by destruct (existsb _ (appointments d)).
  - by rewrite filter_without_none, with_rows_id.
Qed.

Lemma delete_unreferenced (t : table) (id : string) (d : db) :
  referencing t = [] →
  sql_delete t (SText id) d =
  Ok (with_rows t (List.filter (λ r, negb (has_id (SText id) r)) (rows_of t d)) d).
Proof.
  intros Href. unfold sql_delete. rewrite Href.
  destruct (existsb (has_id (SText id)) (rows_of t d)) eqn:E; simpl; [done|].
  by rewrite filter_without_none, with_rows_id.
Qed.

(** X1: after a [delete] that returns, no row of the table has the id, the
    rows with another id are all there, in the order they had, the other
    tables are as they were, and [getById] (customers) answers [null] for
    the id. *)
Theorem delete_removes (t : table) (del : string → db → result db)
    (id : string) (d d' : db) :
  r_delete (repository_of t) = Some del →
  del id d = Ok d' →
  rows_of t d' = List.filter (λ r, negb (has_id (SText id) r)) (rows_of t d)
  ∧ no_such_id t id d'
  ∧ (∀ t', t' ≠ t → rows_of t' d' = rows_of t' d)
  ∧ (∀ get, r_getById (repository_of t) = Some get → get id d' = Ok None).
Proof.
  intros Hdel Hrun. rewrite (r_delete_run _ _ Hdel) in Hrun.
  apply sql_delete_Ok in Hrun as ->.
  assert (no_such_id t id
            (with_rows t (List.filter (λ r, negb (has_id (SText id) r)) (rows_of t d)) d))
    as Hno.
  { unfold no_such_id. rewrite rows_of_with_rows, decide_True by done.
    apply existsb_filter_without. }
  split_and!.
  - by rewrite rows_of_with_rows, decide_True.
  - exact Hno.
  - intros t' Hne. by rewrite rows_of_with_rows, decide_False.
  - intros get Hget. destruct t; simplify_eq/=.
    unfold customerDb.getById. by rewrite sql_get_no_row.
Qed.

Lemma delete_removes_witness :
  ∃ d', customerDb.delete "cust-1" one_customer = Ok d'
        ∧ customers d' = []
        ∧ customerDb.getById "cust-1" d' = Ok None.
Proof.
  destruct (is_Ok_true (customerDb.delete "cust-1" one_customer)) as [d' E];
    [vm_compute; reflexivity|].
  exists d'. split; [exact E|].
  destruct (delete_removes Customers customerDb.delete "cust-1" one_customer d'
              eq_refl E) as (Hrows & _ & _ & Hget).
  split; [|by apply Hget].
  change (customers d') with (rows_of Customers d'). rewrite Hrows.
  vm_compute. reflexivity.
Defined.

(** ** What the constraints of a column ask for *)

Lemma column_violation_None (d : db) (others : list row) (c : column) (x : sqlval) :
  column_violation d others c x = None ↔
    (col_not_null c = true → x ≠ SNull)
    ∧ (∀ allowed, col_check c = Some allowed → check_allows allowed x = true)
    ∧ (col_unique c = true →
         existsb (λ r, sql_eqb (r !!! col_name c) x) others = false)
    ∧ (∀ parent, col_references c = Some parent →
         x = SNull ∨ existsb (has_id x) (rows_of parent d) = true).
Proof.
  unfold column_violation.
  destruct (col_not_null c) eqn:Enn, (col_check c) as [allowed|] eqn:Ech,
    (col_unique c) eqn:Eu, (col_references c) as [parent|] eqn:Eref;
    cbn [andb negb from_option];
    repeat case_bool_decide; cbn [negb orb];
    repeat match goal with
    | |- context [check_allows ?a ?y] => destruct (check_allows a y) eqn:?
    | |- context [existsb ?f ?l] => destruct (existsb f l) eqn:?
    end; cbn [negb];
    (split;
     [ try done; intros _; split_and!; intros; simplify_eq; auto; try done
     | try done; intros (H1 & H2 & H3 & H4);
       try specialize (H1 eq_refl); try specialize (H2 _ eq_refl);
       try specialize (H3 eq_refl); try destruct (H4 _ eq_refl);
       congruence ]).
Qed.

Lemma inserted_column (d : db) (t : table) (r : row) (c : column) :
  first_violation d (rows_of t d) (schema t) r = None →
  c ∈ schema t →
  column_violation d (rows_of t d) c (r !!! col_name c) = None.
Proof.
  intros Hv Hc. rewrite first_violation_None, Forall_forall in Hv. by apply Hv.
Qed.

Lemma sql_eqb_refl_text (s : string) : sql_eqb (SText s) (SText s) = true.
Proof. apply String.eqb_refl. Qed.

Lemma appointment_parents (appointment : obj) (clk : clock) (d d' : db) :
  appointmentDb.create appointment clk d = Ok d' →
  ∃ r, d' = with_rows Appointments (appointments d ++ [r]) d
     ∧ r !!! "customer_id" = cell_of (appointment !!! "customerId")
     ∧ r !!! "employee_id" = cell_of (appointment !!! "employeeId")
     ∧ r !!! "customer_id" ≠ SNull
     ∧ r !!! "employee_id" ≠ SNull
     ∧ existsb (has_id (r !!! "customer_id")) (customers d) = true
     ∧ existsb (has_id (r !!! "employee_id")) (employees d) = true.
Proof.
  intros H. unfold appointmentDb.create in H. insert_inversion H.
  eexists. split; [reflexivity|].
  pose proof (inserted_column _ _ _
    (REFERENCES Customers (NOT_NULL (COL "customer_id"))) Hviol ltac:(in_list)) as Hc.
  pose proof (inserted_column _ _ _
    (REFERENCES Employees (NOT_NULL (COL "employee_id"))) Hviol ltac:(in_list)) as He.
  apply column_violation_None in Hc as (Hcn & _ & _ & Hcr).
  apply column_violation_None in He as (Hen & _ & _ & Her).
  specialize (Hcn eq_refl). specialize (Hen eq_refl).
  destruct (Hcr _ eq_refl) as [?|Hcp]; [done|].
  destruct (Her _ eq_refl) as [?|Hep]; [done|].
  cbn [col_name COL NOT_NULL REFERENCES] in *.
  split_and!; try done; by given_cell.
Qed.

(** X2: foreign keys are enforced. Deleting a customer fails exactly when a
    row has the id and some appointment names it as its customer, and then
    with a foreign-key error; the same for an employee. So once an
    appointment has been created, its customer and its employee cannot be
    deleted. Nothing refers to services and products: their [delete] always
    returns. *)
Theorem delete_blocked_by_appointments (id : string) (d : db) :
  (is_Ok (customerDb.delete id d) =
     negb (existsb (has_id (SText id)) (customers d)
           && existsb (λ a, sql_eqb (a !!! "customer_id") (SText id)) (appointments d)))
  ∧ (is_Ok (employeeDb.delete id d) =
     negb (existsb (has_id (SText id)) (employees d)
           && existsb (λ a, sql_eqb (a !!! "employee_id") (SText id)) (appointments d)))
  ∧ (∀ e, customerDb.delete id d = Err e ∨ employeeDb.delete id d = Err e →
       ∃ c, e = SqliteError (ForeignKey c))
  ∧ (∀ appointment clk d0,
       appointmentDb.create appointment clk d0 = Ok d →
       (appointment !!! "customerId" = VStr id → is_Ok (customerDb.delete id d) = false)
       ∧ (appointment !!! "employeeId" = VStr id →
            is_Ok (employeeDb.delete id d) = false))
  ∧ (∃ d', serviceDb.delete id d = Ok d')
  ∧ (∃ d', productDb.delete id d = Ok d').
Proof.
  assert (∀ d, customerDb.delete id d =
     if existsb (has_id (SText id)) (customers d)
        && existsb (λ a, sql_eqb (a !!! "customer_id") (SText id)) (appointments d)
     then Err (SqliteError (ForeignKey "customer_id"))
     else Ok (with_rows Customers
                (List.filter (λ r, negb (has_id (SText id) r)) (customers d)) d))
    as Hcustomer.
  { intros d1. apply (delete_referenced Customers). reflexivity. }
  assert (∀ d, employeeDb.delete id d =
     if existsb (has_id (SText id)) (employees d)
        && existsb (λ a, sql_eqb (a !!! "employee_id") (SText id)) (appointments d)
     then Err (SqliteError (ForeignKey "employee_id"))
     else Ok (with_rows Employees
                (List.filter (λ r, negb (has_id (SText id) r)) (employees d)) d))
    as Hemployee.
  { intros d1. apply (delete_referenced Employees). reflexivity. }
  split_and!.
  - rewrite Hcustomer. by destruct (_ && _).
  - rewrite Hemployee. by destruct (_ && _).
  - intros e [H|H].
    + rewrite Hcustomer in H. destruct (_ && _); [|done]. injection H as <-. eauto.
    + rewrite Hemployee in H. destruct (_ && _); [|done]. injection H as <-. eauto.
  - intros appointment clk d0
      (r & -> & Hc & He & _ & _ & Hcp & Hep)%appointment_parents.
    split; intros Hid; rewrite Hid in *; simpl in Hc, He.
    + rewrite Hcustomer. cbn [customers appointments with_rows].
      rewrite Hc in Hcp. rewrite Hcp, existsb_app_r; [done|].
      rewrite Hc. apply sql_eqb_refl_text.
    + rewrite Hemployee. cbn [employees appointments with_rows].
      rewrite He in Hep. rewrite Hep, existsb_app_r; [done|].
      rewrite He. apply sql_eqb_refl_text.
  - unfold serviceDb.delete, run_delete. rewrite delete_unreferenced by reflexivity. eauto.
  - unfold productDb.delete, run_delete. rewrite delete_unreferenced by reflexivity. eauto.
Qed.

Lemma delete_blocked_by_appointments_witness :
  ∃ d, appointmentDb.create morning_cut sample_clock salon_of_two = Ok d
       ∧ is_Ok (customerDb.delete "cust-1" d) = false.
Proof.
  destruct (is_Ok_true (appointmentDb.create morning_cut sample_clock salon_of_two))
    as [d E]; [vm_compute; reflexivity|].
  exists d. split; [exact E|].
  destruct (delete_blocked_by_appointments "cust-1" d) as (_ & _ & _ & H & _).
  destruct (H morning_cut sample_clock salon_of_two E) as [Hc _].
  apply Hc. vm_compute. reflexivity.
Defined.

(** X3: a [delete] undoes a [create]. Deleting the customer or employee
    that [create] has just stored, under its generated id, gives back the
    store as it was before the [create], provided no appointment names that
    id; deleting a service or product just created under a string id gives
    back the store as it was. *)
Theorem delete_undoes_create :
  (∀ customer clk d rec d',
     customerDb.create customer clk d = Ok (rec, d') →
     existsb (λ a, sql_eqb (a !!! "customer_id") (SText (customerDb.new_id clk)))
       (appointments d) = false →
     customerDb.delete (customerDb.new_id clk) d' = Ok d)
  ∧ (∀ employee clk d rec d',
     employeeDb.create employee clk d = Ok (rec, d') →
     existsb (λ a, sql_eqb (a !!! "employee_id") (SText (employeeDb.new_id clk)))
       (appointments d) = false →
     employeeDb.delete (employeeDb.new_id clk) d' = Ok d)
  ∧ (∀ service clk d d' id,
     serviceDb.create service clk d = Ok d' →
     service !!! "id" = VStr id →
     serviceDb.delete id d' = Ok d)
  ∧ (∀ product clk d d' id,
     productDb.create product clk d = Ok d' →
     product !!! "id" = VStr id →
     productDb.delete id d' = Ok d).
Proof.
  assert (∀ t id r d,
    first_violation d (rows_of t d) (schema t) r = None →
    r !!! "id" = SText id →
    with_rows t
      (List.filter (λ r, negb (has_id (SText id) r))
         (rows_of t (with_rows t (rows_of t d ++ [r]) d)))
      (with_rows t (rows_of t d ++ [r]) d) = d) as Hback.
  { intros t id r d Hv Hid.
    rewrite inserted_rows, filter_without_app, with_rows_with_rows, with_rows_id; [done| |].
    - by apply (inserted_id_fresh t r).
    - by apply has_id_same. }
  split_and!.
  - intros customer clk d rec d' (d1 & H & [= <- <-])%bind_Ok Hfree.
    insert_inversion H.
    unfold customerDb.delete, run_delete.
    rewrite (delete_referenced Customers "customer_id") by reflexivity.
    cbn [appointments with_rows rows_of] in *. rewrite Hfree, andb_false_r.
    f_equal. apply (Hback Customers (customerDb.new_id clk)); [done|]. by given_cell.
  - intros employee clk d rec d' (d1 & H & [= <- <-])%bind_Ok Hfree.
    insert_inversion H.
    unfold employeeDb.delete, run_delete.
    rewrite (delete_referenced Employees "employee_id") by reflexivity.
    cbn [appointments with_rows rows_of] in *. rewrite Hfree, andb_false_r.
    f_equal. apply (Hback Employees (employeeDb.new_id clk)); [done|]. by given_cell.
  - intros service clk d d' id H Hid. unfold serviceDb.create in H. insert_inversion H.
    unfold serviceDb.delete, run_delete. rewrite delete_unreferenced by reflexivity.
    f_equal. apply (Hback Services id); [done|]. rewrite Hid in *. by given_cell.
  - intros product clk d d' id H Hid. unfold productDb.create in H. insert_inversion H.
    unfold productDb.delete, run_delete. rewrite delete_unreferenced by reflexivity.
    f_equal. apply (Hback Products id); [done|]. rewrite Hid in *. by given_cell.
Qed.

Lemma delete_undoes_create_witness :
  ∃ rec d', customerDb.create asha sample_clock empty_db = Ok (rec, d')
            ∧ customerDb.delete (customerDb.new_id sample_clock) d' = Ok empty_db.
Proof.
  destruct (is_Ok_true (customerDb.create asha sample_clock empty_db))
    as [[rec d'] E]; [vm_compute; reflexivity|].
  exists rec, d'. split; [exact E|].
  destruct delete_undoes_create as (H & _).
  apply (H asha sample_clock empty_db rec d' E). reflexivity.
Defined.

(** ** Generated ids *)

Lemma string_of_uint_inj (a b : uint) :
  NilEmpty.string_of_uint a = NilEmpty.string_of_uint b → a = b.
Proof.
  intros H. apply (f_equal NilEmpty.uint_of_string) in H.
  rewrite !NilEmpty.usu in H. congruence.
Qed.

Lemma number_to_string_inj (a b : Z) :
  number_to_string a = number_to_string b → a = b.
Proof.
  assert (∀ n p, NilEmpty.string_of_uint (N.to_uint n)
                 ≠ String "-" (NilEmpty.string_of_uint (Pos.to_uint p))) as Hsign.
  { intros n p H.
    destruct (string_of_uint_head (N.to_uint n)) as (c & r & Hc & Hd).
    - pose proof (to_uint_shape n). by destruct (N.to_uint n).
    - rewrite Hc in H. injection H as -> _. by destruct Hd. }
  assert (∀ n m, NilEmpty.string_of_uint (N.to_uint n)
                 = NilEmpty.string_of_uint (N.to_uint m) → n = m) as Hnat.
  { intros n m H%string_of_uint_inj. by apply DecimalN.Unsigned.to_uint_inj. }
  destruct a as [|p|p], b as [|q|q]; cbn [number_to_string Z.to_N]; intros H;
    try reflexivity.
  - by apply Hnat in H.
  - by apply Hsign in H.
  - by apply Hnat in H.
  - apply Hnat in H. congruence.
  - by apply Hsign in H.
  - symmetry in H. by apply Hsign in H.
  - symmetry in H. by apply Hsign in H.
  - injection H as H. apply string_of_uint_inj, DecimalPos.Unsigned.to_uint_inj in H.
    congruence.
Qed.

Lemma append_inj_r (p a b : string) : p +:+ a = p +:+ b → a = b.
Proof.
  induction p as [|c p IH]; [done|].
  change (String c (p +:+ a) = String c (p +:+ b) → a = b).
  intros [= H]. by apply IH.
Qed.

Lemma id_taken (t : table) (r : row) (id : string) (d : db) :
  first_violation d (rows_of t d) (schema t) r = None →
  r !!! "id" = SText id →
  existsb (has_id (SText id)) (rows_of t d) = true →
  False.
Proof.
  intros Hv Hid Ht. apply (inserted_id_fresh t r id) in Hv; [|done].
  unfold no_such_id in Hv. congruence.
Qed.

(** X4: the generated ids follow the clock. Two ids of one repository are
    equal exactly when [Date.now()] read the same at both calls; and a
    [create] that follows a successful [create] of the same repository
    within the same millisecond fails, whatever it is given. *)
Theorem generated_ids (clk1 clk2 : clock) :
  (customerDb.new_id clk1 = customerDb.new_id clk2 ↔ Date_now clk1 = Date_now clk2)
  ∧ (employeeDb.new_id clk1 = employeeDb.new_id clk2 ↔ Date_now clk1 = Date_now clk2)
  ∧ (tallyDb.new_id clk1 = tallyDb.new_id clk2 ↔ Date_now clk1 = Date_now clk2)
  ∧ (Date_now clk1 = Date_now clk2 →
       (∀ x1 x2 d rec d', customerDb.create x1 clk1 d = Ok (rec, d') →
          ∃ e, customerDb.create x2 clk2 d' = Err e)
       ∧ (∀ x1 x2 d rec d', employeeDb.create x1 clk1 d = Ok (rec, d') →
          ∃ e, employeeDb.create x2 clk2 d' = Err e)
       ∧ (∀ x1 x2 d rec d', tallyDb.create x1 clk1 d = Ok (rec, d') →
          ∃ e, tallyDb.create x2 clk2 d' = Err e)).
Proof.
  split_and!.
  - unfold customerDb.new_id. split; [|by intros ->].
    by intros H%append_inj_r%number_to_string_inj.
  - unfold employeeDb.new_id. split; [|by intros ->].
    by intros H%append_inj_r%number_to_string_inj.
  - unfold tallyDb.new_id. split; [|by intros ->].
    by intros H%append_inj_r%number_to_string_inj.
  - intros Hnow. split_and!.
    + intros x1 x2 d rec d' (d1 & H & [= <- <-])%bind_Ok. insert_inversion H.
      destruct (customerDb.create x2 clk2 _) as [[rec2 d2]|e] eqn:E; [exfalso|eauto].
      apply bind_Ok in E as (d3 & H & _). insert_inversion H.
      eapply (id_taken Customers _ (customerDb.new_id clk1)); [exact Hviol0| |].
      * unfold customerDb.new_id. rewrite Hnow. by given_cell.
      * rewrite inserted_rows. apply existsb_app_r, has_id_same. by given_cell.
    + intros x1 x2 d rec d' (d1 & H & [= <- <-])%bind_Ok. insert_inversion H.
      destruct (employeeDb.create x2 clk2 _) as [[rec2 d2]|e] eqn:E; [exfalso|eauto].
      apply bind_Ok in E as (d3 & H & _). insert_inversion H.
      eapply (id_taken Employees _ (employeeDb.new_id clk1)); [exact Hviol0| |].
      * unfold employeeDb.new_id. rewrite Hnow. by given_cell.
      * rewrite inserted_rows. apply existsb_app_r, has_id_same. by given_cell.
    + intros x1 x2 d rec d' (d1 & H & [= <- <-])%bind_Ok. insert_inversion H.
      destruct (tallyDb.create x2 clk2 _) as [[rec2 d2]|e] eqn:E; [exfalso|eauto].
      apply bind_Ok in E as (d3 & H & _). insert_inversion H.
      eapply (id_taken TallyItems _ (tallyDb.new_id clk1)); [exact Hviol0| |].
      * unfold tallyDb.new_id. rewrite Hnow. by given_cell.
      * rewrite inserted_rows. apply existsb_app_r, has_id_same. by given_cell.
Qed.

Lemma generated_ids_witness :
  ∃ rec d', customerDb.create asha sample_clock empty_db = Ok (rec, d')
            ∧ ∃ e, customerDb.create asha_complete sample_clock d' = Err e.
Proof.
  destruct (is_Ok_true (customerDb.create asha sample_clock empty_db))
    as [[rec d'] E]; [vm_compute; reflexivity|].
  exists rec, d'. split; [exact E|].
  destruct (generated_ids sample_clock sample_clock) as (_ & _ & _ & H).
  destruct (H eq_refl) as (Hc & _).
  exact (Hc asha asha_complete empty_db rec d' E).
Defined.

(** ** What [create] asks of its argument *)






Ltac bound Hbind :=
  cbn [forallb] in Hbind; rewrite ?andb_true_iff in Hbind;
  destruct_and? Hbind.





(** ** What [create] stores for a property that is left out *)

Ltac defaulted :=
  rewrite new_row_lookup;
  cbn [zip zip_with assoc map schema app timestamps col_name default_cell col_default
       COL NOT_NULL UNIQUE PRIMARY_KEY CHECK_IN DEFAULT REFERENCES];
  eqb_norm; reflexivity.

(** X7: the defaults of the schema do not reach the columns a [create]
    lists. Every [create] binds a value for each of its columns, so a
    property that is left out is stored as NULL (or as what the function
    computes from it), not as the column's DEFAULT: an appointment without
    status has status NULL, not scheduled; a tally item without payment
    status has NULL, not pending; a product without stock has NULL, not 0;
    an employee without [available] is stored as not available (0), where
    the column's default is 1. The two timestamps, which no [create] lists,
    are the ones set by default. *)
Theorem create_bypasses_defaults (clk : clock) (d : db) :
  (∀ appointment d',
     appointmentDb.create appointment clk d = Ok d' →
     ∃ r, appointments d' = appointments d ++ [r]
        ∧ (appointment !!! "status" = VUndef → r !!! "status" = SNull)
        ∧ r !!! "created_at" = SText (sql_timestamp clk)
        ∧ r !!! "updated_at" = SText (sql_timestamp clk))
  ∧ (∀ item rec d',
     tallyDb.create item clk d = Ok (rec, d') →
     ∃ r, tally_items d' = tally_items d ++ [r]
        ∧ (item !!! "paymentStatus" = VUndef → r !!! "payment_status" = SNull)
        ∧ r !!! "upi_transaction_id" = SNull
        ∧ r !!! "created_at" = SText (sql_timestamp clk)
        ∧ r !!! "updated_at" = SText (sql_timestamp clk))
  ∧ (∀ product d',
     productDb.create product clk d = Ok d' →
     ∃ r, products d' = products d ++ [r]
        ∧ (product !!! "stock" = VUndef → r !!! "stock" = SNull)
        ∧ r !!! "created_at" = SText (sql_timestamp clk)
        ∧ r !!! "updated_at" = SText (sql_timestamp clk))
  ∧ (∀ employee rec d',
     employeeDb.create employee clk d = Ok (rec, d') →
     ∃ r, employees d' = employees d ++ [r]
        ∧ r !!! "available" = SNum (if truthy (employee !!! "available") then 1 else 0)
        ∧ r !!! "created_at" = SText (sql_timestamp clk)
        ∧ r !!! "updated_at" = SText (sql_timestamp clk)).
Proof.
  split_and!.
  - intros appointment d' H. unfold appointmentDb.create in H. insert_inversion H.
    eexists. split; [apply (inserted_rows Appointments)|].
    split_and!; [intros Hu; rewrite Hu in *; by given_cell|defaulted|defaulted].
  - intros item rec d' (d1 & H & [= <- <-])%bind_Ok. insert_inversion H.
    eexists. split; [apply (inserted_rows TallyItems)|].
    split_and!; [intros Hu; rewrite Hu in *; by given_cell|defaulted|defaulted|defaulted].
  - intros product d' H. unfold productDb.create in H. insert_inversion H.
    eexists. split; [apply (inserted_rows Products)|].
    split_and!; [intros Hu; rewrite Hu in *; by given_cell|defaulted|defaulted].
  - intros employee rec d' (d1 & H & [= <- <-])%bind_Ok. insert_inversion H.
    eexists. split; [apply (inserted_rows Employees)|].
    split_and!; [by given_cell|defaulted|defaulted].
Qed.

Lemma create_bypasses_defaults_witness :
  ∃ d' r, appointmentDb.create (delete "status" morning_cut) sample_clock salon_of_two
            = Ok d'
          ∧ appointments d' = [r]
          ∧ r !!! "status" = SNull.
Proof.
  destruct (is_Ok_true
              (appointmentDb.create (delete "status" morning_cut) sample_clock salon_of_two))
    as [d' E]; [vm_compute; reflexivity|].
  destruct (create_bypasses_defaults sample_clock salon_of_two) as (H & _).
  destruct (H _ d' E) as (r & Hrows & Hstatus & _).
  exists d', r. split; [exact E|]. split; [exact Hrows|].
  apply Hstatus. vm_compute. reflexivity.
Defined.

(** ** What [getAll] lists *)

Lemma traverse_Err {A B : Type} (f : A → result B) (l : list A) (e : error) :
  traverse f l = Err e → ∃ x, x ∈ l ∧ f x = Err e.
Proof.
  induction l as [|x l IH]; [done|]. simpl.
  destruct (f x) as [y|e'] eqn:E; rsimpl.
  - destruct (traverse f l) as [ys|e'']; rsimpl; [done|].
    intros [= <-]. destruct (IH eq_refl) as (x' & Hx' & Hf).
    exists x'. split; [by right|done].
  - intros [= <-]. exists x. split; [left|done].
Qed.

Lemma listed_rows (t : table) (order : list (string * direction)) (d : db)
    (of_row : row → result obj) (l : list obj) :
  traverse of_row (sql_all t order d) = Ok l →
  ∃ rows, rows ≡ₚ rows_of t d ∧ Forall2 (λ r o, of_row r = Ok o) rows l.
Proof.
  intros H%traverse_Ok_Forall2. exists (sql_all t order d).
  split; [apply sql_all_Permutation|done].
Qed.

Lemma listing_fails (t : table) (order : list (string * direction)) (d : db)
    (of_row : row → result obj) (e : error) :
  traverse of_row (sql_all t order d) = Err e →
  ∃ r, r ∈ rows_of t d ∧ of_row r = Err e.
Proof.
  intros (r & Hr & He)%traverse_Err. exists r. split; [|done].
  by rewrite <- (sql_all_Permutation t order d).
Qed.

Lemma JSON_parse_Err (v : value) (e : error) : JSON_parse v = Err e → e = SyntaxError.
Proof. unfold JSON_parse. destruct (JSON_parse_text _); congruence. Qed.

Ltac decoding_error :=
  let r := fresh "r" in let e := fresh "e" in let H := fresh "H" in
  intros r e H;
  match type of H with
  | ?f r = _ => unfold f in H
  end;
  match type of H with
  | context [JSON_parse ?v] =>
      destruct (JSON_parse v) as [?|?] eqn:E; rsimpl;
      [done | injection H as <-; by apply JSON_parse_Err in E]
  end.

(** X8: [getAll] lists the table. When it returns, its list holds one
    record per row of the table, each the image of its row, and nothing
    else: as many records as rows. The lists of services and products are
    the rows themselves. When [getAll] throws it is a [SyntaxError] of
    [JSON.parse], and some row of the table has a list column that does not
    decode: one such row withholds the whole list. *)
Theorem getAll_lists_the_table (d : db) :
  (∀ l, customerDb.getAll d = Ok l →
     ∃ rows, rows ≡ₚ customers d
           ∧ Forall2 (λ r o, customerDb.of_row r = Ok o) rows l)
  ∧ (∀ l, employeeDb.getAll d = Ok l →
     ∃ rows, rows ≡ₚ employees d
           ∧ Forall2 (λ r o, employeeDb.of_row r = Ok o) rows l)
  ∧ (∀ l, appointmentDb.getAll d = Ok l →
     ∃ rows, rows ≡ₚ appointments d
           ∧ Forall2 (λ r o, appointmentDb.of_row r = Ok o) rows l)
  ∧ (∀ l, tallyDb.getAll d = Ok l →
     ∃ rows, rows ≡ₚ tally_items d
           ∧ Forall2 (λ r o, tallyDb.of_row r = Ok o) rows l)
  ∧ (∃ rows, rows ≡ₚ services d ∧ serviceDb.getAll d = Ok (raw_row Services <$> rows))
  ∧ (∃ rows, rows ≡ₚ products d ∧ productDb.getAll d = Ok (raw_row Products <$> rows))
  ∧ (∀ e, customerDb.getAll d = Err e →
       e = SyntaxError ∧ ∃ r, r ∈ customers d ∧ customerDb.of_row r = Err SyntaxError)
  ∧ (∀ e, employeeDb.getAll d = Err e →
       e = SyntaxError ∧ ∃ r, r ∈ employees d ∧ employeeDb.of_row r = Err SyntaxError)
  ∧ (∀ e, appointmentDb.getAll d = Err e →
       e = SyntaxError
       ∧ ∃ r, r ∈ appointments d ∧ appointmentDb.of_row r = Err SyntaxError)
  ∧ (∀ e, tallyDb.getAll d = Err e →
       e = SyntaxError ∧ ∃ r, r ∈ tally_items d ∧ tallyDb.of_row r = Err SyntaxError).
Proof.
  assert (∀ t order (of_row : row → result obj) e,
    (∀ r e, of_row r = Err e → e = SyntaxError) →
    traverse of_row (sql_all t order d) = Err e →
    e = SyntaxError ∧ ∃ r, r ∈ rows_of t d ∧ of_row r = Err SyntaxError) as Hfail.
  { intros t order of_row e Hof (r & Hr & He)%listing_fails.
    pose proof (Hof _ _ He) as ->. eauto. }
  split_and!.
  - intros l. apply (listed_rows Customers).
  - intros l. apply (listed_rows Employees).
  - intros l. apply (listed_rows Appointments).
  - intros l. apply (listed_rows TallyItems).
  - eexists. split; [apply (sql_all_Permutation Services)|reflexivity].
  - eexists. split; [apply (sql_all_Permutation Products)|reflexivity].
  - intros e. apply (Hfail Customers). decoding_error.
  - intros e. apply (Hfail Employees). decoding_error.
  - intros e. apply (Hfail Appointments). decoding_error.
  - intros e. apply (Hfail TallyItems). decoding_error.
Qed.

Lemma getAll_lists_the_table_witness :
  ∃ l, customerDb.getAll one_customer = Ok l ∧ length l = 1.
Proof.
  destruct (is_Ok_true (customerDb.getAll one_customer)) as [l E];
    [vm_compute; reflexivity|].
  exists l. split; [exact E|].
  destruct (getAll_lists_the_table one_customer) as (H & _).
  destruct (H l E) as (rows & Hperm & Hall).
  by rewrite <- (Forall2_length _ _ _ Hall), Hperm.
Defined.

(** ** The constraints of the schema are kept *)

Lemma sql_eqb_eq (a b : sqlval) : sql_eqb a b = true → a = b.
Proof.
  destruct a, b; simpl; try done.
  - intros ?%Z.eqb_eq. congruence.
  - intros ?%String.eqb_eq. congruence.
Qed.

Lemma sql_eqb_sym (a b : sqlval) : sql_eqb a b = sql_eqb b a.
Proof.
  destruct a, b; simpl; try done.
  - apply Z.eqb_sym.
  - apply String.eqb_sym.
Qed.

Lemma sql_eqb_refl (a : sqlval) : a ≠ SNull → sql_eqb a a = true.
Proof.
  destruct a; simpl; [done| |].
  - intros _. apply Z.eqb_refl.
  - intros _. apply String.eqb_refl.
Qed.

Lemma sql_eqb_not_null (a b : sqlval) : sql_eqb a b = true → a ≠ SNull.
Proof. by destruct a. Qed.

Lemma existsb_false_iff {A : Type} (f : A → bool) (l : list A) :
  existsb f l = false ↔ ∀ x, x ∈ l → f x = false.
Proof.
  induction l as [|y l IH]; simpl.
  - split; [by intros _ x ?%elem_of_nil|done].
  - rewrite orb_false_iff, IH. split.
    + intros [Hy Hl] x [->|Hx]%elem_of_cons; auto.
    + intros H. split; [apply H; left|]. intros x Hx. apply H. by right.
Qed.

Lemma existsb_true_iff {A : Type} (f : A → bool) (l : list A) :
  existsb f l = true ↔ ∃ x, x ∈ l ∧ f x = true.
Proof.
  rewrite existsb_exists. split; intros (x & Hx & Hf); exists x;
    (split; [by apply list_elem_of_In|done]).
Qed.

Lemma forallb_true_iff {A : Type} (f : A → bool) (l : list A) :
  forallb f l = true ↔ ∀ x, x ∈ l → f x = true.
Proof.
  rewrite forallb_forall. split; intros H x Hx; apply H; by apply list_elem_of_In.
Qed.

Lemma every_table (t : table) : t ∈ all_tables.
Proof. destruct t; in_list. Qed.

(** The same, row by row and column by column. *)
Lemma consistent_spec (d : db) :
  consistent d = true ↔
  ∀ t c, c ∈ schema t →
    (∀ r, r ∈ rows_of t d →
       admits c (r !!! col_name c) = true ∧ refers d c (r !!! col_name c) = true)
    ∧ (col_unique c = true → distinct (col_name c) (rows_of t d) = true).
Proof.
  unfold consistent, table_consistent. rewrite forallb_true_iff. split.
  - intros H t c Hc. specialize (H t (every_table t)).
    rewrite forallb_true_iff in H. specialize (H c Hc).
    apply andb_true_iff in H as [Hrows Hu]. rewrite forallb_true_iff in Hrows. split.
    + intros r Hr. by apply andb_true_iff, Hrows.
    + intros Hcu. rewrite Hcu in Hu. exact Hu.
  - intros H t _. apply forallb_true_iff. intros c Hc.
    destruct (H t c Hc) as [Hrows Hu]. apply andb_true_iff. split.
    + apply forallb_true_iff. intros r Hr. by apply andb_true_iff, Hrows.
    + destruct (col_unique c); [by apply Hu|done].
Qed.

Lemma column_violation_admits (d : db) (others : list row) (c : column) (x : sqlval) :
  column_violation d others c x = None →
  admits c x = true ∧ refers d c x = true.
Proof.
  intros (Hnn & Hch & _ & Href)%column_violation_None. unfold admits, refers. split.
  - apply andb_true_iff. split.
    + destruct (col_not_null c); [|done]. simpl.
      rewrite bool_decide_eq_false_2; [done|by apply Hnn].
    + destruct (col_check c); [by apply Hch|done].
  - destruct (col_references c) as [parent|]; [|done].
    destruct (Href _ eq_refl) as [-> | ->]; [done|apply orb_true_r].
Qed.

Lemma refers_mono (d d' : db) (c : column) (x : sqlval) :
  (∀ parent, existsb (has_id x) (rows_of parent d) = true →
             existsb (has_id x) (rows_of parent d') = true) →
  refers d c x = true → refers d' c x = true.
Proof.
  unfold refers. intros Hmono. destruct (col_references c) as [parent|]; [|done].
  intros [->|H]%orb_true_iff; [done|]. rewrite (Hmono _ H). apply orb_true_r.
Qed.

Lemma distinct_snoc (column : string) (rows : list row) (r : row) :
  distinct column (rows ++ [r]) =
  distinct column rows
  && negb (existsb (λ r', sql_eqb (r' !!! column) (r !!! column)) rows).
Proof.
  induction rows as [|r0 rows IH]; simpl; [done|].
  rewrite IH, existsb_app. simpl. rewrite orb_false_r, (sql_eqb_sym (r !!! column)).
  destruct (existsb _ rows), (sql_eqb _ _), (distinct column rows), (existsb _ rows);
    reflexivity.
Qed.

Lemma distinct_middle (column : string) (l1 l2 : list row) (r : row) :
  distinct column (l1 ++ r :: l2) =
  distinct column (l1 ++ l2)
  && negb (existsb (λ r', sql_eqb (r' !!! column) (r !!! column)) (l1 ++ l2)).
Proof.
  induction l1 as [|r0 l1 IH]; simpl.
  - apply andb_comm.
  - rewrite IH, !existsb_app. simpl. rewrite (sql_eqb_sym (r !!! column)).
    destruct (existsb _ l1), (sql_eqb _ _), (existsb _ l2), (distinct column (l1 ++ l2)),
      (existsb _ l1), (existsb _ l2); reflexivity.
Qed.

Lemma distinct_filter (column : string) (f : row → bool) (rows : list row) :
  distinct column rows = true → distinct column (List.filter f rows) = true.
Proof.
  induction rows as [|r rows IH]; [done|]. simpl.
  intros [Hr Hrows]%andb_true_iff. destruct (f r); [|by apply IH]. simpl.
  rewrite IH by done. rewrite andb_true_r. apply negb_true_iff.
  apply negb_true_iff in Hr. rewrite existsb_false_iff in Hr |- *.
  intros x Hx%list_elem_of_In%filter_In. apply Hr. apply list_elem_of_In, Hx.
Qed.

Lemma existsb_mono_app {A : Type} (f : A → bool) (l l' : list A) :
  existsb f l = true → existsb f (l ++ l') = true.
Proof. intros H. by rewrite existsb_app, H. Qed.

(** INSERT keeps the constraints. *)
Lemma sql_insert_consistent (t : table) (given : list (string * sqlval)) (clk : clock)
    (d d' : db) :
  consistent d = true → sql_insert t given clk d = Ok d' → consistent d' = true.
Proof.
  rewrite !consistent_spec. intros Hd H. unfold sql_insert in H.
  destruct (first_violation _ _ _ _) eqn:Hv; [done|]. apply Ok_inj in H as <-.
  set (r := new_row t given clk) in *.
  assert (∀ c x, refers d c x = true →
                 refers (with_rows t (rows_of t d ++ [r]) d) c x = true) as Hmono.
  { intros c x. apply refers_mono. intros parent Hp.
    rewrite rows_of_with_rows. destruct (decide (t = parent)) as [->|]; [|done].
    by apply existsb_mono_app. }
  intros t' c Hc. destruct (Hd t' c Hc) as [Hrows Hu].
  rewrite rows_of_with_rows. destruct (decide (t = t')) as [->|Hne].
  - pose proof (inserted_column _ _ _ c Hv Hc) as Hcv. split.
    + intros r' [Hr'| ->%list_elem_of_singleton]%elem_of_app.
      * destruct (Hrows r' Hr') as [Ha Hr]. split; [done|by apply Hmono].
      * destruct (column_violation_admits _ _ _ _ Hcv) as [Ha Hr].
        split; [done|by apply Hmono].
    + intros Hcu. rewrite distinct_snoc, (Hu Hcu). simpl.
      apply negb_true_iff. apply column_violation_None in Hcv as (_ & _ & Hfree & _).
      by apply Hfree.
  - split; [|done]. intros r' Hr'. destruct (Hrows r' Hr') as [Ha Hr].
    split; [done|by apply Hmono].
Qed.

Lemma run_insert_consistent (t : table) (cols : list string) (exprs : list sql_expr)
    (args : list value) (clk : clock) (d d' : db) :
  consistent d = true → run_insert t cols exprs args clk d = Ok d' →
  consistent d' = true.
Proof.
  intros Hd H. unfold run_insert in H.
  apply bind_Ok in H as (params & _ & H). apply bind_Ok in H as (cells & _ & H).
  by apply (sql_insert_consistent _ _ _ _ _ Hd H).
Qed.

(** DELETE keeps the constraints. *)
Lemma referencing_spec (t t' : table) (c : column) :
  c ∈ schema t' → col_references c = Some t → (t', col_name c) ∈ referencing t.
Proof.
  intros Hc Href. unfold referencing. apply list_elem_of_In, in_flat_map.
  exists t'. split; [apply list_elem_of_In, every_table|].
  apply in_flat_map. exists c. split; [by apply list_elem_of_In|].
  rewrite Href, bool_decide_eq_true_2 by done. by left.
Qed.

Lemma sql_delete_consistent (t : table) (idv : sqlval) (d d' : db) :
  consistent d = true → sql_delete t idv d = Ok d' → consistent d' = true.
Proof.
  intros Hd H. unfold sql_delete in H.
  destruct (existsb (has_id idv) (rows_of t d)) eqn:Eany; simpl in H;
    [|by apply Ok_inj in H as <-].
  destruct (List.find _ _) as [tc|] eqn:Efind; [done|]. apply Ok_inj in H as <-.
  rewrite consistent_spec in Hd |- *.
  assert (∀ t' c r, c ∈ schema t' → r ∈ rows_of t' d →
            refers d c (r !!! col_name c) = true →
            refers (with_rows t (List.filter (λ r, negb (has_id idv r)) (rows_of t d)) d)
              c (r !!! col_name c) = true) as Hkeep.
  { intros t' c r Hc Hr. unfold refers.
    destruct (col_references c) as [parent|] eqn:Eref; [|done].
    intros [Hnull|Hp]%orb_true_iff; [by rewrite Hnull|].
    apply orb_true_iff. right. rewrite rows_of_with_rows.
    destruct (decide (t = parent)) as [<-|]; [|done].
    apply existsb_true_iff in Hp as (p & Hp & Hid).
    apply existsb_true_iff. exists p. split; [|done].
    apply list_elem_of_In, filter_In. split; [by apply list_elem_of_In|].
    apply negb_true_iff. destruct (has_id idv p) eqn:Ep; [exfalso|done].
    unfold has_id in Hid, Ep. apply sql_eqb_eq in Hid. rewrite Hid in Ep.
    pose proof (referencing_spec _ _ _ Hc Eref) as Hin.
    apply list_elem_of_In in Hin.
    pose proof (find_none _ _ Efind _ Hin) as Hnone.
    simpl in Hnone. rewrite existsb_false_iff in Hnone. specialize (Hnone r Hr).
    congruence. }
  intros t' c Hc. destruct (Hd t' c Hc) as [Hrows Hu].
  rewrite rows_of_with_rows. destruct (decide (t = t')) as [->|Hne].
  - split.
    + intros r Hr%list_elem_of_In%filter_In. destruct Hr as [Hr%list_elem_of_In _].
      destruct (Hrows r Hr) as [Ha Hrf]. split; [done|by apply (Hkeep t')].
    + intros Hcu. by apply distinct_filter, Hu.
  - split; [|done]. intros r Hr. destruct (Hrows r Hr) as [Ha Hrf].
    split; [done|by apply (Hkeep t')].
Qed.

(** UPDATE keeps the constraints, when it leaves the ids alone. *)
Lemma id_column (t : table) :
  ∃ c, c ∈ schema t ∧ col_name c = "id" ∧ col_unique c = true.
Proof. destruct t; (eexists; split; [apply list_elem_of_here|done]). Qed.

Lemma column_named_spec (t : table) (c : column) :
  c ∈ schema t → column_named t (col_name c) = Some c.
Proof.
  assert (Forall (λ c, column_named t (col_name c) = Some c) (schema t)) as H.
  { destruct t; cbn [schema app timestamps];
      repeat (constructor; [vm_compute; reflexivity|]); constructor. }
  rewrite Forall_forall in H. apply H.
Qed.

Lemma assignment_violation_None (d : db) (others : list row) (t : table)
    (sets : list (string * sqlval)) :
  assignment_violation d others t sets = None →
  ∀ name x c, (name, x) ∈ sets → column_named t name = Some c →
    column_violation d others c x = None.
Proof.
  induction sets as [|[k y] sets IH]; simpl; [by intros _ ??? ?%elem_of_nil|].
  destruct (from_option _ _ _) eqn:E; [done|]. intros Hrest name x c Hin Hc.
  apply elem_of_cons in Hin as [[= -> ->]|Hin]; [|by eapply IH].
  by rewrite Hc in E.
Qed.

Lemma assoc_elem_of {V : Type} (k : string) (v : V) (l : list (string * V)) :
  assoc k l = Some v → (k, v) ∈ l.
Proof.
  induction l as [|[k' v'] l IH]; [done|]. simpl.
  destruct (String.eqb_spec k' k) as [->|_].
  - intros [= ->]. left.
  - intros H. right. by apply IH.
Qed.

Lemma last_assoc_elem_of {V : Type} (k : string) (v : V) (l : list (string * V)) :
  last_assoc k l = Some v → (k, v) ∈ l.
Proof. unfold last_assoc. intros H%assoc_elem_of. by apply elem_of_reverse. Qed.

Lemma has_id_assign (sets : list (string * sqlval)) (x : sqlval) (r : row) :
  last_assoc "id" sets = None → has_id x (assign sets r) = has_id x r.
Proof. intros H. unfold has_id. by rewrite assign_lookup, H. Qed.

Lemma split_by_id (idv : sqlval) (rows : list row) :
  existsb (has_id idv) rows = true → distinct "id" rows = true →
  ∃ l1 r0 l2, rows = l1 ++ r0 :: l2 ∧ has_id idv r0 = true
              ∧ existsb (has_id idv) (l1 ++ l2) = false.
Proof.
  induction rows as [|r rows IH]; [done|]. simpl.
  intros Hany [Hr Hrows]%andb_true_iff. destruct (has_id idv r) eqn:Er.
  - exists [], r, rows. split; [done|]. split; [done|]. simpl.
    apply negb_true_iff in Hr. rewrite existsb_false_iff in Hr |- *.
    intros r' Hr'. specialize (Hr r' Hr').
    destruct (has_id idv r') eqn:Er'; [|done].
    unfold has_id in Er, Er'.
    pose proof (sql_eqb_not_null _ _ Er') as Hnn.
    apply sql_eqb_eq in Er, Er'. rewrite Er, Er' in Hr.
    rewrite sql_eqb_refl in Hr; [done|by rewrite <- Er'].
  - simpl in Hany. destruct (IH Hany Hrows) as (l1 & r0 & l2 & -> & Hr0 & Hrest).
    exists (r :: l1), r0, l2. split; [done|]. split; [done|].
    simpl. by rewrite Er.
Qed.

Lemma sql_update_consistent (t : table) (sets : list (string * sqlval)) (idv : sqlval)
    (d d' : db) :
  consistent d = true → last_assoc "id" sets = None →
  sql_update t sets idv d = Ok d' → consistent d' = true.
Proof.
  intros Hd Hnoid H. unfold sql_update in H.
  destruct (existsb (has_id idv) (rows_of t d)) eqn:Eany; simpl in H;
    [|by apply Ok_inj in H as <-].
  destruct (assignment_violation _ _ _ _) eqn:Ev; [done|]. apply Ok_inj in H as <-.
  rewrite consistent_spec in Hd |- *.
  destruct (id_column t) as (cid & Hcid & Hname & Hcu).
  pose proof (proj2 (Hd t cid Hcid) Hcu) as Hdist. rewrite Hname in Hdist.
  destruct (split_by_id _ _ Eany Hdist) as (l1 & r0 & l2 & Hrows & Hr0 & Hrest).
  rewrite existsb_app in Hrest. apply orb_false_iff in Hrest as [H1 H2].
  assert (map (λ r, if has_id idv r then assign sets r else r) (rows_of t d)
          = l1 ++ assign sets r0 :: l2) as Hrows'.
  { rewrite Hrows, map_app. simpl. by rewrite Hr0, !map_touch_none. }
  assert (∀ f : row → bool,
    existsb f (List.filter (λ r, negb (has_id idv r)) (rows_of t d)
               ++ map (assign sets) (tail (List.filter (has_id idv) (rows_of t d))))
      = false →
    existsb f (l1 ++ l2) = false) as Hothers.
  { intros f. rewrite existsb_app. intros [Hf _]%orb_false_iff.
    rewrite Hrows, List.filter_app in Hf. simpl in Hf. rewrite Hr0 in Hf. simpl in Hf.
    by rewrite !filter_without_none in Hf. }
  assert (∀ x parent,
    existsb (has_id x)
      (rows_of parent
         (with_rows t (map (λ r, if has_id idv r then assign sets r else r) (rows_of t d)) d))
    = existsb (has_id x) (rows_of parent d)) as Hids.
  { intros x parent. rewrite rows_of_with_rows.
    destruct (decide (t = parent)) as [<-|]; [|done].
    generalize (rows_of t d). intros rows.
    induction rows as [|r rows IH]; [done|]. simpl. rewrite IH. f_equal.
    destruct (has_id idv r); [by apply has_id_assign|done]. }
  assert (∀ c x, refers d c x = true →
    refers (with_rows t (map (λ r, if has_id idv r then assign sets r else r)
                           (rows_of t d)) d) c x = true) as Hmono.
  { intros c x. apply refers_mono. intros parent. by rewrite Hids. }
  assert (∀ c x, c ∈ schema t → last_assoc (col_name c) sets = Some x →
    column_violation d
      (List.filter (λ r, negb (has_id idv r)) (rows_of t d)
       ++ map (assign sets) (tail (List.filter (has_id idv) (rows_of t d)))) c x = None)
    as Hassigned.
  { intros c x Hc Hx%last_assoc_elem_of.
    eapply assignment_violation_None; [exact Ev|exact Hx|by apply column_named_spec]. }
  intros t' c Hc. destruct (Hd t' c Hc) as [Hr Hu].
  rewrite rows_of_with_rows. destruct (decide (t = t')) as [<-|Hne].
  - split.
    + intros r' (r & -> & Hin)%list_elem_of_fmap. destruct (Hr r Hin) as [Ha Hrf].
      destruct (has_id idv r); [|split; [done|by apply Hmono]].
      rewrite assign_lookup.
      destruct (last_assoc (col_name c) sets) as [x|] eqn:Ex; simpl.
      * destruct (column_violation_admits _ _ _ _ (Hassigned c x Hc Ex)) as [Ha' Hrf'].
        split; [done|by apply Hmono].
      * split; [done|by apply Hmono].
    + intros Hcu'. rewrite Hrows', distinct_middle.
      specialize (Hu Hcu'). rewrite Hrows, distinct_middle in Hu.
      apply andb_true_iff in Hu as [Hu1 Hu2]. rewrite Hu1. simpl.
      rewrite assign_lookup.
      destruct (last_assoc (col_name c) sets) as [x|] eqn:Ex; simpl; [|done].
      apply negb_true_iff, Hothers.
      pose proof (Hassigned c x Hc Ex) as Hcv.
      apply column_violation_None in Hcv as (_ & _ & Hfree & _). by apply Hfree.
  - split; [|done]. intros r Hin. destruct (Hr r Hin) as [Ha Hrf].
    split; [done|by apply Hmono].
Qed.

Lemma run_update_consistent (t : table) (sets : list (string * value)) (id : string)
    (d d' : db) :
  consistent d = true → last_assoc "id" sets = None →
  run_update t sets id d = Ok d' → consistent d' = true.
Proof.
  intros Hd Hnoid [_ H]%run_update_Ok.
  apply (sql_update_consistent _ _ _ _ _ Hd) in H; [done|].
  by rewrite last_assoc_cells, Hnoid.
Qed.

Lemma update_sets_keep_id (t : table) (u : obj) (clk : clock) :
  last_assoc "id" (update_sets_of t u clk) = None.
Proof.
  destruct t; cbn [update_sets_of];
    rewrite ?customer_sets, ?employee_sets, ?appointment_sets, ?service_sets,
      ?product_sets; reflexivity.
Qed.

Lemma forEach_keeps {A : Type} (P : db → Prop) (f : A → db → result db)
    (l : list A) (d d' : db) (e : option error) :
  (∀ x d d', P d → f x d = Ok d' → P d') →
  P d → forEach f l d = (d', e) → P d'.
Proof.
  intros Hf. revert d. induction l as [|x l IH]; intros d Hd; simpl.
  - by intros [= <- _].
  - destruct (f x d) as [dx|ex] eqn:E; [|by intros [= <- _]].
    apply IH. by eapply Hf.
Qed.

(** X9: the repositories keep the store within its schema. If every row
    satisfies the NOT NULL, CHECK, UNIQUE, PRIMARY KEY and FOREIGN KEY
    constraints that [createTables] declares, so does every row after any
    [create], [update], [delete] or [updatePaymentStatus] that returns, and
    after the seeding, whether it completes or stops at a failing insert. *)
Theorem constraints_are_kept (d : db) :
  consistent d = true →
  (∀ t create x clk out d',
     r_create (repository_of t) = Some create →
     create x clk d = Ok (out, d') → consistent d' = true)
  ∧ (∀ t update id updates clk d',
     r_update (repository_of t) = Some update →
     update id updates clk d = Ok d' → consistent d' = true)
  ∧ (∀ t del id d',
     r_delete (repository_of t) = Some del →
     del id d = Ok d' → consistent d' = true)
  ∧ (∀ id status upi clk d',
     tallyDb.updatePaymentStatus id status upi clk d = Ok d' → consistent d' = true)
  ∧ (∀ m clk d' e, seed m clk d = (d', e) → consistent d' = true).
Proof.
  intros Hd. split_and!.
  - intros t create x clk out d' Hc H.
    destruct t; simplify_eq/=; unfold returning, returning_nothing in H;
      apply bind_Ok in H as (y & H & Hk);
      try destruct y as [rec d1]; cbn in Hk; apply Ok_inj in Hk; simplify_eq;
      try (apply bind_Ok in H as (d2 & H & Hk); apply Ok_inj in Hk; simplify_eq);
      by apply (run_insert_consistent _ _ _ _ _ _ _ Hd H).
  - intros t update id updates clk d' Hu H. rewrite (r_update_run _ _ Hu) in H.
    apply (run_update_consistent _ _ _ _ _ Hd) in H; [done|].
    apply update_sets_keep_id.
  - intros t del id d' Hdel H. rewrite (r_delete_run _ _ Hdel) in H.
    by apply (sql_delete_consistent _ _ _ _ Hd H).
  - intros id status upi clk d' H.
    by apply (run_update_consistent _ _ _ _ _ Hd) in H.
  - intros m clk d' e H. unfold seed in H.
    assert (∀ x d d', consistent d = true → insertCustomer clk x d = Ok d' →
                      consistent d' = true) as Hcustomer.
    { intros x d0 d1 H0 H1. by apply (run_insert_consistent _ _ _ _ _ _ _ H0 H1). }
    assert (∀ x d d', consistent d = true → insertEmployee clk x d = Ok d' →
                      consistent d' = true) as Hemployee.
    { intros x d0 d1 H0 (s & _ & H1)%bind_Ok. apply bind_Ok in H1 as (s' & _ & H1).
      by apply (run_insert_consistent _ _ _ _ _ _ _ H0 H1). }
    assert (∀ x d d', consistent d = true → insertService clk x d = Ok d' →
                      consistent d' = true) as Hservice.
    { intros x d0 d1 H0 H1. by apply (run_insert_consistent _ _ _ _ _ _ _ H0 H1). }
    assert (∀ x d d', consistent d = true → insertProduct clk x d = Ok d' →
                      consistent d' = true) as Hproduct.
    { intros x d0 d1 H0 H1. by apply (run_insert_consistent _ _ _ _ _ _ _ H0 H1). }
    destruct (forEach (insertCustomer clk) _ d) as [dc [ec|]] eqn:Ec.
    { injection H as <- _.
      by apply (forEach_keeps (λ d, consistent d = true) _ _ _ _ _ Hcustomer Hd Ec). }
    pose proof (forEach_keeps (λ d, consistent d = true) _ _ _ _ _ Hcustomer Hd Ec) as Hdc.
    destruct (forEach (insertEmployee clk) _ dc) as [de [ee|]] eqn:Ee.
    { injection H as <- _.
      by apply (forEach_keeps (λ d, consistent d = true) _ _ _ _ _ Hemployee Hdc Ee). }
    pose proof (forEach_keeps (λ d, consistent d = true) _ _ _ _ _ Hemployee Hdc Ee) as Hde.
    destruct (forEach (insertService clk) _ de) as [ds [es|]] eqn:Es.
    { injection H as <- _.
      by apply (forEach_keeps (λ d, consistent d = true) _ _ _ _ _ Hservice Hde Es). }
    pose proof (forEach_keeps (λ d, consistent d = true) _ _ _ _ _ Hservice Hde Es) as Hds.
    by apply (forEach_keeps (λ d, consistent d = true) _ _ _ _ _ Hproduct Hds H).
Qed.

Lemma constraints_are_kept_witness :
  consistent empty_db = true
  ∧ ∃ rec d', customerDb.create asha sample_clock empty_db = Ok (rec, d')
              ∧ consistent d' = true.
Proof.
  assert (consistent empty_db = true) as Hd by (vm_compute; reflexivity).
  split; [exact Hd|].
  destruct (is_Ok_true (customerDb.create asha sample_clock empty_db))
    as [[rec d'] E]; [vm_compute; reflexivity|].
  exists rec, d'. split; [exact E|].
  destruct (constraints_are_kept empty_db Hd) as (Hc & _).
  apply (Hc Customers _ asha sample_clock (Some rec) d' eq_refl).
  unfold returning. by rewrite E.
Defined.

(** ** [getById] and [getAll] *)

Lemma sql_get_Some (t : table) (idv : sqlval) (d : db) (r : row) :
  sql_get t idv d = Some r → r ∈ rows_of t d ∧ has_id idv r = true.
Proof.
  unfold sql_get. induction (rows_of t d) as [|r0 rows IH]; [done|]. simpl.
  destruct (has_id idv r0) eqn:E; simpl.
  - intros [= <-]. split; [left|done].
  - intros [Hin Hid]%IH. split; [by right|done].
Qed.

Lemma sql_get_None (t : table) (idv : sqlval) (d : db) :
  sql_get t idv d = None ↔ existsb (has_id idv) (rows_of t d) = false.
Proof.
  unfold sql_get. induction (rows_of t d) as [|r0 rows IH]; [done|]. simpl.
  destruct (has_id idv r0) eqn:E; simpl; [done|exact IH].
Qed.

Lemma has_id_text (id : string) (r : row) :
  has_id (SText id) r = true → r !!! "id" = SText id.
Proof. unfold has_id. apply sql_eqb_eq. Qed.

Lemma customer_of_row_id (r : row) (o : obj) :
  customerDb.of_row r = Ok o → o !!! "id" = field r "id".
Proof.
  unfold customerDb.of_row. intros (ps & _ & Heq)%bind_Ok.
  apply Ok_inj in Heq as <-. rewrite object_lookup. cbn [assoc]. by eqb_norm.
Qed.

Lemma customer_of_row_Err (r : row) (e : error) :
  customerDb.of_row r = Err e → e = SyntaxError.
Proof.
  unfold customerDb.of_row.
  destruct (JSON_parse _) as [ps|e'] eqn:E; rsimpl; [done|].
  intros [= <-]. by apply JSON_parse_Err in E.
Qed.

(** Under UNIQUE, the row with a given id is the first one with it. *)
Lemma distinct_first (idv : sqlval) (rows : list row) (r : row) :
  distinct "id" rows = true → r ∈ rows → has_id idv r = true →
  head (List.filter (has_id idv) rows) = Some r.
Proof.
  induction rows as [|r0 rows IH]; [by intros _ ?%elem_of_nil|]. simpl.
  intros [Hr0 Hrows]%andb_true_iff Hin Hid.
  destruct (has_id idv r0) eqn:E0; simpl.
  - apply elem_of_cons in Hin as [->|Hin]; [done|]. exfalso.
    apply negb_true_iff in Hr0. rewrite existsb_false_iff in Hr0.
    specialize (Hr0 r Hin). unfold has_id in Hid, E0.
    pose proof (sql_eqb_not_null _ _ Hid) as Hnn.
    apply sql_eqb_eq in Hid, E0. rewrite Hid, E0 in Hr0.
    rewrite sql_eqb_refl in Hr0; [done|by rewrite <- Hid].
  - apply elem_of_cons in Hin as [->|Hin]; [congruence|]. by apply IH.
Qed.

(** X10: [getById] and [getAll] agree (customers). The record [getById]
    returns has the id that was asked for and is among those [getAll]
    lists; [getById] answers [null] exactly when no row has the id; the one
    error it can throw is the [SyntaxError] of a list column that does not
    decode. Where the ids are unique, as in every store the repositories
    have written, a record that [getAll] lists under a string id is the one
    [getById] returns for that id. *)
Theorem getById_agrees_with_getAll (id : string) (d : db) :
  (∀ rec, customerDb.getById id d = Ok (Some rec) →
     rec !!! "id" = VStr id ∧ ∀ l, customerDb.getAll d = Ok l → rec ∈ l)
  ∧ (customerDb.getById id d = Ok None ↔ no_such_id Customers id d)
  ∧ (∀ e, customerDb.getById id d = Err e → e = SyntaxError)
  ∧ (consistent d = true →
     ∀ l rec, customerDb.getAll d = Ok l → rec ∈ l → rec !!! "id" = VStr id →
       customerDb.getById id d = Ok (Some rec)).
Proof.
  unfold customerDb.getById. split_and!.
  - intros rec H. destruct (sql_get Customers (SText id) d) as [r|] eqn:Eget; [|done].
    apply sql_get_Some in Eget as [Hin Hid].
    destruct (customerDb.of_row r) as [o|e] eqn:Er; [|done].
    rsimpl. injection H as <-. split.
    + rewrite (customer_of_row_id _ _ Er). unfold field.
      by rewrite (has_id_text _ _ Hid).
    + intros l Hl. unfold customerDb.getAll in Hl.
      destruct (traverse_elem_of _ _ _ r Hl) as (y & Hy & Hry).
      * by rewrite sql_all_Permutation.
      * rewrite Er in Hry. by apply Ok_inj in Hry as <-.
  - destruct (sql_get Customers (SText id) d) as [r|] eqn:Eget.
    + split.
      * by destruct (customerDb.of_row r).
      * intros Hno%sql_get_no_row. congruence.
    + split; [|done]. intros _. by apply sql_get_None.
  - intros e H. destruct (sql_get Customers (SText id) d) as [r|]; [|done].
    destruct (customerDb.of_row r) as [o|e'] eqn:Er; [done|].
    rsimpl. injection H as <-. by apply customer_of_row_Err in Er.
  - intros Hd l rec Hl Hin Hid. unfold customerDb.getAll in Hl.
    destruct (traverse_elem_of_r _ _ _ rec Hl Hin) as (r & Hr & Hrow).
    rewrite sql_all_Permutation in Hr.
    assert (has_id (SText id) r = true) as Hhas.
    { apply has_id_same. apply field_text.
      by rewrite <- (customer_of_row_id _ _ Hrow). }
    rewrite consistent_spec in Hd.
    destruct (Hd Customers (PRIMARY_KEY (COL "id")) ltac:(in_list)) as [_ Hu].
    unfold sql_get. rewrite (distinct_first _ _ r (Hu eq_refl) Hr Hhas).
    by rewrite Hrow.
Qed.

Lemma getById_agrees_with_getAll_witness :
  ∃ rec, customerDb.getById "cust-1" one_customer = Ok (Some rec)
         ∧ rec !!! "id" = VStr "cust-1".
Proof.
  destruct (is_Ok_true (customerDb.getById "cust-1" one_customer)) as [[rec|] E];
    [vm_compute; reflexivity| |].
  - exists rec. split; [exact E|].
    destruct (getById_agrees_with_getAll "cust-1" one_customer) as (H & _).
    by destruct (H rec E).
  - exfalso.
    assert (match customerDb.getById "cust-1" one_customer with
            | Ok (Some _) => true
            | _ => false
            end = true) as Hsome by (vm_compute; reflexivity).
    by rewrite E in Hsome.
Defined.

Lemma has_id_unique (id id' : string) (r : row) :
  has_id (SText id) r = true → has_id (SText id') r = true → id = id'.
Proof. intros H%has_id_text H'%has_id_text. congruence. Qed.





(** ** Reading after an [update] *)

Lemma head_filter_touch (sets : list (string * sqlval)) (idv : sqlval) (rows : list row) :
  last_assoc "id" sets = None →
  head (List.filter (has_id idv)
          (map (λ r, if has_id idv r then assign sets r else r) rows))
  = assign sets <$> head (List.filter (has_id idv) rows).
Proof.
  intros Hnoid. induction rows as [|r rows IH]; [done|]. simpl.
  destruct (has_id idv r) eqn:E.
  - by rewrite has_id_assign, E.
  - by rewrite E.
Qed.

Lemma bound_value (v : value) :
  bindable v = true → v ≠ VUndef → js_of_sql (cell_of v) = v.
Proof. by destruct v. Qed.

Lemma pick_if {A : Type} (b : bool) (x y : A) :
  match (if b then Some x else None) with
  | Some v => v
  | None => y
  end = if b then x else y.
Proof. by destruct b. Qed.

Lemma passes_defined (g : guard) (v : value) : passes g v = true → v ≠ VUndef.
Proof. by destruct g, v. Qed.

Lemma assigned_bindable (sets : list (string * value)) (c : string) (v : value) :
  forallb bindable sets.*2 = true → last_assoc c sets = Some v → bindable v = true.
Proof.
  intros Hb Hv%last_assoc_elem_of. rewrite forallb_true_iff in Hb. apply Hb.
  apply list_elem_of_fmap. by exists (c, v).
Qed.

(** X12: [getById] after [update] (customers). When an [update] returns,
    its values being of the types of their columns and the list it is
    given, if any, a list of JSON values, [getById] returns for that id the
    record it returned before, with each property replaced by the value
    given for it exactly when the guard of that property lets it through:
    a truthy value for name, phone, gender, lastVisit and
    preferredServices, a value other than undefined for email, visitCount,
    totalSpent, notes and photo. The id stays. *)
Theorem getById_after_update (id : string) (updates : obj) (clk : clock)
    (d d' : db) (before : obj) :
  customerDb.update id updates clk d = Ok d' →
  customerDb.getById id d = Ok (Some before) →
  Forall (λ k, text_value (updates !!! k) = true)
    ["name"; "phone"; "email"; "gender"; "lastVisit"; "notes"; "photo"] →
  Forall (λ k, number_value (updates !!! k) = true) ["visitCount"; "totalSpent"] →
  truthy (updates !!! "preferredServices") = false
    ∨ json_safe (updates !!! "preferredServices") = true →
  ∃ after,
    customerDb.getById id d' = Ok (Some after)
    ∧ after !!! "id" = before !!! "id"
    ∧ Forall (λ kg : string * guard,
        after !!! kg.1 =
        if passes kg.2 (updates !!! kg.1) then updates !!! kg.1 else before !!! kg.1)
      [ ("name", IfTruthy); ("phone", IfTruthy); ("email", IfDefined);
        ("gender", IfTruthy); ("visitCount", IfDefined); ("totalSpent", IfDefined);
        ("lastVisit", IfTruthy); ("preferredServices", IfTruthy);
        ("notes", IfDefined); ("photo", IfDefined) ].
Proof.
  intros [Hb H]%run_update_Ok Hget _ _ Hlist. apply sql_update_Ok in H as ->.
  unfold customerDb.getById in *.
  destruct (sql_get Customers (SText id) d) as [r|] eqn:Er; [|done].
  destruct (customerDb.of_row r) as [o|] eqn:Eo; [|done].
  rsimpl. apply Ok_inj in Hget. injection Hget as ->.
  unfold sql_get in Er |- *. rewrite rows_of_with_rows, decide_True by done.
  rewrite head_filter_touch, Er
    by (rewrite last_assoc_cells; by rewrite (update_sets_keep_id Customers)).
  cbn [fmap option_fmap option_map].
  set (sets := customerDb.update_sets updates clk) in *.
  assert (∀ c, field (assign (cells sets) r) c =
               match assigned (customer_clauses updates) clk c with
               | Some v => v
               | None => field r c
               end) as Hfield.
  { intros c. unfold field. rewrite assign_lookup, last_assoc_cells.
    rewrite <- customer_sets. fold sets.
    destruct (last_assoc c sets) as [v|] eqn:Ev; [|done]. simpl.
    apply bound_value; [by apply (assigned_bindable sets c)|].
    subst sets. rewrite customer_sets in Ev. unfold assigned in Ev.
    destruct (String.eqb "updated_at" c); [by injection Ev as <-|].
    destruct (List.find _ _) as [[[[? g] tested] v']|] eqn:Ef; [|done].
    destruct (passes g tested) eqn:Ep; [|done]. injection Ev as ->.
    unfold customer_clauses, same_value in Ef. cbn [List.find fst snd] in Ef.
    repeat (destruct (String.eqb _ c) in Ef;
            [ injection Ef as <- <- <- <-;
              first [ by apply (passes_defined _ _ Ep)
                    | unfold JSON_stringify;
                      destruct (updates !!! "preferredServices"); done ] | ]).
    done. }
  unfold customerDb.of_row in Eo |- *. rewrite !Hfield.
  unfold assigned, customer_clauses, same_value. cbn [List.find fst snd]. eqb_norm.
  cbn [passes]. rewrite !pick_if.
  apply bind_Ok in Eo as (ps & Hps & Heq). apply Ok_inj in Heq as <-.
  assert (JSON_parse
            (js_or (if truthy (updates !!! "preferredServices")
                    then JSON_stringify (updates !!! "preferredServices")
                    else field r "preferred_services") (VStr "[]"))
          = Ok (if truthy (updates !!! "preferredServices")
                then updates !!! "preferredServices" else ps)) as ->.
  { destruct (truthy (updates !!! "preferredServices")) eqn:Et; [|done].
    destruct Hlist as [?|Hsafe]; [done|].
    destruct (JSON_round_trip _ Hsafe) as [Hrt _].
    unfold JSON_stringify in *. rewrite (JSON_ser_safe _ Hsafe) in *.
    exact Hrt. }
  rsimpl. eexists. split; [reflexivity|].
  split; [by rewrite !object_lookup|].
  repeat (constructor; [rewrite !object_lookup; cbn [assoc fst snd passes]; eqb_norm;
                        cbn [default]; reflexivity|]).
  constructor.
Qed.

Lemma getById_after_update_witness :
  ∃ d' after,
    customerDb.update "cust-1" {[ "email" := VStr "asha@example.com" ]}
      sample_clock one_customer = Ok d'
    ∧ customerDb.getById "cust-1" d' = Ok (Some after)
    ∧ after !!! "email" = VStr "asha@example.com".
Proof.
  destruct (is_Ok_true
    (customerDb.update "cust-1" {[ "email" := VStr "asha@example.com" ]}
       sample_clock one_customer)) as [d' E]; [vm_compute; reflexivity|].
  assert (match customerDb.getById "cust-1" one_customer with
          | Ok (Some _) => true
          | _ => false
          end = true) as Hsome by (vm_compute; reflexivity).
  destruct (customerDb.getById "cust-1" one_customer) as [[before|]|e] eqn:Eb;
    [|done|done].
  destruct (getById_after_update _ _ _ _ _ before E Eb) as (after & Hafter & _ & Hall).
  { repeat (constructor; [vm_compute; reflexivity|]). constructor. }
  { repeat (constructor; [vm_compute; reflexivity|]). constructor. }
  { left. vm_compute. reflexivity. }
  exists d', after. split; [exact E|]. split; [exact Hafter|].
  rewrite Forall_forall in Hall.
  specialize (Hall ("email", IfDefined) ltac:(in_list)). cbn [fst snd] in Hall.
  rewrite Hall. vm_compute. reflexivity.
Defined.

(** ** What [update] asks of its argument *)


Ltac assigned_value :=
  rewrite ?customer_sets, ?employee_sets, ?appointment_sets, ?service_sets,
    ?product_sets;
  unfold assigned, customer_clauses, employee_clauses, appointment_clauses,
    service_clauses, product_clauses, same_value;
  cbn [List.find fst snd col_name COL NOT_NULL UNIQUE PRIMARY_KEY CHECK_IN DEFAULT
       REFERENCES];
  eqb_norm; cbn [passes].



(** ** Updates, one after another *)

Lemma assign_lookup_partial (sets : list (string * sqlval)) (r : row) (c : string) :
  assign sets r !! c =
  match last_assoc c sets with
  | Some x => Some x
  | None => r !! c
  end.
Proof.
  unfold assign, last_assoc. revert r.
  induction sets as [|[k x] sets IH] using rev_ind; intros r; [done|].
  rewrite foldl_app, reverse_app. simpl.
  destruct (String.eqb_spec k c) as [->|Hne].
  - by rewrite lookup_insert_eq.
  - rewrite lookup_insert_ne by done. apply IH.
Qed.

(** A second assignment of the same columns leaves nothing of the first. *)
Lemma assign_over (sets1 sets2 : list (string * sqlval)) (r : row) :
  (∀ c, last_assoc c sets2 = None → last_assoc c sets1 = None) →
  assign sets2 (assign sets1 r) = assign sets2 r.
Proof.
  intros Hcover. apply map_eq. intros c. rewrite !assign_lookup_partial.
  destruct (last_assoc c sets2) eqn:E; [done|]. by rewrite (Hcover c E).
Qed.

Lemma map_touch_touch (sets1 sets2 : list (string * sqlval)) (idv : sqlval)
    (rows : list row) :
  last_assoc "id" sets1 = None →
  (∀ c, last_assoc c sets2 = None → last_assoc c sets1 = None) →
  map (λ r, if has_id idv r then assign sets2 r else r)
    (map (λ r, if has_id idv r then assign sets1 r else r) rows)
  = map (λ r, if has_id idv r then assign sets2 r else r) rows.
Proof.
  intros Hnoid Hcover. rewrite map_map. apply map_ext. intros r.
  destruct (has_id idv r) eqn:E.
  - by rewrite has_id_assign, E, assign_over.
  - by rewrite E.
Qed.

Lemma payment_sets_checked (status : payment_outcome) (upi : option string)
    (clk : clock) (d : db) (others : list row) :
  assignment_violation d others TallyItems
    (cells [ ("payment_status", VStr (payment_outcome_text status));
             ("upi_transaction_id", js_or (from_option VStr VUndef upi) VNull);
             ("updated_at", VStr (toISOString clk)) ]) = None.
Proof. by destruct status, upi as [[|??]|]. Qed.

Lemma updatePaymentStatus_result (id : string) (status : payment_outcome)
    (upi : option string) (clk : clock) (d : db) :
  tallyDb.updatePaymentStatus id status upi clk d =
  Ok (with_rows TallyItems
        (map (λ r, if has_id (SText id) r
                   then assign
                          (cells [ ("payment_status", VStr (payment_outcome_text status));
                                   ("upi_transaction_id",
                                     js_or (from_option VStr VUndef upi) VNull);
                                   ("updated_at", VStr (toISOString clk)) ]) r
                   else r) (tally_items d)) d).
Proof.
  unfold tallyDb.updatePaymentStatus.
  rewrite run_update_bindable by by destruct upi as [[|??]|].
  rewrite sql_update_no_violation; [done|]. intros others. apply payment_sets_checked.
Qed.

(** X14: the last [updatePaymentStatus] wins. The call always returns; and
    calling it twice for one id leaves the store exactly as the second call
    alone would have left it: status, transaction id and update time of the
    first call are gone. *)
Theorem updatePaymentStatus_last_wins (id : string)
    (status1 status2 : payment_outcome) (upi1 upi2 : option string)
    (clk1 clk2 : clock) (d : db) :
  ∃ d1, tallyDb.updatePaymentStatus id status1 upi1 clk1 d = Ok d1
        ∧ tallyDb.updatePaymentStatus id status2 upi2 clk2 d1
          = tallyDb.updatePaymentStatus id status2 upi2 clk2 d.
Proof.
  eexists. split; [apply updatePaymentStatus_result|].
  rewrite !updatePaymentStatus_result. cbn [tally_items with_rows]. f_equal.
  rewrite map_touch_touch; [done|done|].
  intros c. unfold last_assoc. cbn [cells map reverse rev_append assoc fst snd].
  repeat (destruct (String.eqb _ c); [done|]). done.
Qed.

Lemma existsb_touch (sets : list (string * sqlval)) (idv x : sqlval) (rows : list row) :
  last_assoc "id" sets = None →
  existsb (has_id x) (map (λ r, if has_id idv r then assign sets r else r) rows)
  = existsb (has_id x) rows.
Proof.
  intros Hnoid. induction rows as [|r rows IH]; [done|]. simpl. rewrite IH. f_equal.
  destruct (has_id idv r); [by apply has_id_assign|done].
Qed.

Lemma filter_untouched (sets : list (string * sqlval)) (idv : sqlval) (rows : list row) :
  last_assoc "id" sets = None →
  List.filter (λ r, negb (has_id idv r))
    (map (λ r, if has_id idv r then assign sets r else r) rows)
  = List.filter (λ r, negb (has_id idv r)) rows.
Proof.
  intros Hnoid. induction rows as [|r rows IH]; [done|]. simpl.
  destruct (has_id idv r) eqn:E.
  - by rewrite has_id_assign, E.
  - rewrite E. simpl. by rewrite IH.
Qed.

Lemma filter_touched (sets : list (string * sqlval)) (idv : sqlval) (rows : list row) :
  last_assoc "id" sets = None →
  List.filter (has_id idv)
    (map (λ r, if has_id idv r then assign sets r else r) rows)
  = map (assign sets) (List.filter (has_id idv) rows).
Proof.
  intros Hnoid. induction rows as [|r rows IH]; [done|]. simpl.
  destruct (has_id idv r) eqn:E.
  - rewrite has_id_assign, E by done. simpl. by rewrite IH.
  - by rewrite E.
Qed.

Lemma column_violation_ext (d d' : db) (others : list row) (c : column) (x : sqlval) :
  (∀ parent, existsb (has_id x) (rows_of parent d')
             = existsb (has_id x) (rows_of parent d)) →
  column_violation d' others c x = column_violation d others c x.
Proof.
  intros H. unfold column_violation.
  destruct (col_references c) as [parent|]; [|done]. by rewrite H.
Qed.

Lemma assignment_violation_ext (d d' : db) (others : list row) (t : table)
    (sets : list (string * sqlval)) :
  (∀ x parent, existsb (has_id x) (rows_of parent d')
               = existsb (has_id x) (rows_of parent d)) →
  assignment_violation d' others t sets = assignment_violation d others t sets.
Proof.
  intros H. induction sets as [|[name x] sets IH]; [done|]. simpl. rewrite IH.
  destruct (column_named t name) as [c|]; [|done]. simpl.
  by rewrite (column_violation_ext d d').
Qed.

Lemma tail_map {A B : Type} (f : A → B) (l : list A) : tail (map f l) = map f (tail l).
Proof. by destruct l. Qed.

Lemma sql_update_twice (t : table) (sets : list (string * sqlval)) (idv : sqlval)
    (d d' : db) :
  last_assoc "id" sets = None →
  sql_update t sets idv d = Ok d' → sql_update t sets idv d' = Ok d'.
Proof.
  intros Hnoid H. unfold sql_update in H.
  destruct (existsb (has_id idv) (rows_of t d)) eqn:Eany; simpl in H.
  - destruct (assignment_violation _ _ _ _) eqn:Ev; [done|]. apply Ok_inj in H as <-.
    unfold sql_update. rewrite rows_of_with_rows, decide_True by done.
    rewrite existsb_touch, Eany by done. simpl.
    rewrite filter_untouched, filter_touched by done.
    rewrite tail_map, map_map.
    rewrite (map_ext (λ r, assign sets (assign sets r)) (assign sets))
      by (intros r; by apply assign_over).
    rewrite (assignment_violation_ext d), Ev.
    + by rewrite map_touch_touch, with_rows_with_rows.
    + intros x parent. rewrite rows_of_with_rows.
      destruct (decide (t = parent)) as [<-|]; [|done]. by apply existsb_touch.
  - apply Ok_inj in H as <-. unfold sql_update. by rewrite Eany.
Qed.

(** X15: repeating an [update] changes nothing more. When an [update]
    returns, the same [update] at the same reading of the clock returns
    again and leaves the store as the first call left it. *)
Theorem update_idempotent (t : table) (update : string → obj → clock → db → result db)
    (id : string) (updates : obj) (clk : clock) (d d' : db) :
  r_update (repository_of t) = Some update →
  update id updates clk d = Ok d' →
  update id updates clk d' = Ok d'.
Proof.
  intros Hu H. rewrite (r_update_run _ _ Hu) in H |- *.
  apply run_update_Ok in H as [Hb H]. rewrite run_update_bindable by done.
  apply (sql_update_twice _ _ _ d); [|done].
  rewrite last_assoc_cells. by rewrite update_sets_keep_id.
Qed.

Lemma update_idempotent_witness :
  ∃ d', customerDb.update "cust-1" {[ "email" := VStr "asha@example.com" ]}
          sample_clock one_customer = Ok d'
        ∧ customerDb.update "cust-1" {[ "email" := VStr "asha@example.com" ]}
            sample_clock d' = Ok d'.
Proof.
  destruct (is_Ok_true
    (customerDb.update "cust-1" {[ "email" := VStr "asha@example.com" ]}
       sample_clock one_customer)) as [d' E]; [vm_compute; reflexivity|].
  exists d'. split; [exact E|].
  exact (update_idempotent Customers customerDb.update _ _ _ _ _ eq_refl E).
Defined.

(** ** Rows without an id *)

Lemma has_id_null (idv : sqlval) (r : row) : r !!! "id" = SNull → has_id idv r = false.
Proof. unfold has_id. by intros ->. Qed.

Lemma sql_eqb_null_r (a : sqlval) : sql_eqb a SNull = false.
Proof. by destruct a. Qed.

Lemma only_id_unique (t : table) (c : column) :
  t ≠ Customers → c ∈ schema t → col_unique c = true → col_name c = "id".
Proof.
  intros Ht.
  assert (Forall (λ c, col_unique c = true → col_name c = "id") (schema t)) as H.
  { destruct t; [done|..]; cbn [schema app timestamps];
      repeat (constructor; [by cbn|]); constructor. }
  rewrite Forall_forall in H. apply H.
Qed.

Lemma insert_again (t : table) (r : row) (d : db) :
  t ≠ Customers → r !!! "id" = SNull →
  first_violation d (rows_of t d) (schema t) r = None →
  first_violation (with_rows t (rows_of t d ++ [r]) d) (rows_of t d ++ [r]) (schema t) r
  = None.
Proof.
  intros Ht Hid Hv. rewrite first_violation_None in Hv |- *.
  rewrite Forall_forall in Hv |- *. intros c Hc. specialize (Hv c Hc).
  apply column_violation_None in Hv as (Hnn & Hch & Hu & Hrf).
  apply column_violation_None. split_and!; try done.
  - intros Hcu. rewrite (only_id_unique t c Ht Hc Hcu), Hid.
    apply existsb_false_iff. intros r' _. apply sql_eqb_null_r.
  - intros parent Hp. destruct (Hrf parent Hp) as [?|Hex]; [by left|]. right.
    rewrite rows_of_with_rows. destruct (decide (t = parent)) as [<-|]; [|done].
    by apply existsb_mono_app.
Qed.

(** X16: rows without an id. A service, product or appointment that is
    created without an id is stored with a NULL id, which the TEXT PRIMARY
    KEY admits, and the same [create] can be repeated, adding one more such
    row each time. No [update] and no [delete], whatever id it is given,
    touches a row whose id is NULL: the row is there afterwards as it
    was. *)
Theorem rows_without_id (t : table) (d : db) :
  (∀ r del id d',
     r_delete (repository_of t) = Some del →
     r ∈ rows_of t d → r !!! "id" = SNull →
     del id d = Ok d' → r ∈ rows_of t d')
  ∧ (∀ r update id updates clk d',
     r_update (repository_of t) = Some update →
     r ∈ rows_of t d → r !!! "id" = SNull →
     update id updates clk d = Ok d' → r ∈ rows_of t d')
  ∧ (∀ create x clk out d',
     r_create (repository_of t) = Some create →
     t = Services ∨ t = Products ∨ t = Appointments →
     x !!! "id" = VUndef →
     create x clk d = Ok (out, d') →
     (∃ r, rows_of t d' = rows_of t d ++ [r] ∧ r !!! "id" = SNull)
     ∧ ∃ d'', create x clk d' = Ok (out, d'')).
Proof.
  split_and!.
  - intros r del id d' Hdel Hr Hid H. rewrite (r_delete_run _ _ Hdel) in H.
    apply sql_delete_Ok in H as ->. rewrite rows_of_with_rows, decide_True by done.
    apply list_elem_of_In, filter_In. split; [by apply list_elem_of_In|].
    by rewrite has_id_null.
  - intros r update id updates clk d' Hu Hr Hid H. rewrite (r_update_run _ _ Hu) in H.
    apply run_update_Ok in H as [_ H]. apply sql_update_Ok in H as ->.
    rewrite rows_of_with_rows, decide_True by done.
    apply list_elem_of_fmap. exists r. split; [|done]. by rewrite has_id_null.
  - intros create x clk out d' Hc Ht Hid H.
    assert (t ≠ Customers) as Hne by (by destruct Ht as [-> | [-> | ->]]).
    destruct Ht as [-> | [-> | ->]]; cbn [repository_of r_create] in Hc;
      injection Hc as <-; unfold returning_nothing in *;
      apply bind_Ok in H as (d1 & H & Hk); apply Ok_inj in Hk;
      injection Hk as <- <-;
      lazymatch type of H with ?f _ _ _ = _ => unfold f in H |- * end;
      insert_inversion H; rewrite Hid in *;
      (split;
       [ eexists; split; [apply inserted_rows|by given_cell]
       | erewrite run_insert_bindable; [|exact Hbind|reflexivity];
         unfold sql_insert;
         lazymatch goal with
         | |- context [first_violation ?d' ?rows ?s ?r] =>
             assert (first_violation d' rows s r = None) as ->
         end;
         [ rewrite inserted_rows; apply insert_again; [done|by given_cell|done]
         | rsimpl; eauto ] ]).
Qed.

Lemma rows_without_id_witness :
  ∃ d' d'',
    serviceDb.create (object [ ("name", VStr "Shave"); ("duration", VNum 15);
                               ("price", VNum 150); ("category", VStr "Grooming") ])
      sample_clock empty_db = Ok d'
    ∧ serviceDb.create (object [ ("name", VStr "Shave"); ("duration", VNum 15);
                                 ("price", VNum 150); ("category", VStr "Grooming") ])
        sample_clock d' = Ok d''.
Proof.
  set (shave := object [ ("name", VStr "Shave"); ("duration", VNum 15);
                         ("price", VNum 150); ("category", VStr "Grooming") ]).
  destruct (is_Ok_true (serviceDb.create shave sample_clock empty_db)) as [d' E];
    [vm_compute; reflexivity|].
  destruct (rows_without_id Services empty_db) as (_ & _ & H).
  destruct (H (returning_nothing serviceDb.create) shave sample_clock None d' eq_refl)
    as (_ & d'' & Hd'').
  - by left.
  - vm_compute. reflexivity.
  - unfold returning_nothing. by rewrite E.
  - exists d', d''. split; [exact E|].
    unfold returning_nothing in Hd''.
    destruct (serviceDb.create shave sample_clock d') as [d2|e]; [|done].
    rsimpl. by injection Hd'' as ->.
Defined.

(** ** A seeding that fails part-way *)

Lemma forEach_prefix (t : table) {A : Type} (f : A → db → result db)
    (l : list A) (d d' : db) (e : option error) :
  inserts_into t f → forEach f l d = (d', e) →
  ∀ t', rows_of t' d `prefix_of` rows_of t' d'.
Proof.
  intros Hf. revert d. induction l as [|x l IH]; intros d; simpl.
  - by intros [= <- <-] t'.
  - destruct (f x d) as [dx|ex] eqn:E; [|by intros [= <- <-] t'].
    intros H t'. etrans; [|by apply (IH dx)].
    destruct (Hf _ _ _ E) as [Ho [r Hr]].
    destruct (decide (t' = t)) as [->|Hne].
    + rewrite Hr. by apply prefix_app_r.
    + by rewrite Ho.
Qed.

Lemma seed_prefix (m : mockData) (clk : clock) (d d' : db) (e : option error) :
  seed m clk d = (d', e) → ∀ t, rows_of t d `prefix_of` rows_of t d'.
Proof.
  unfold seed. intros H t.
  destruct (forEach (insertCustomer clk) _ d) as [dc ec] eqn:Hc.
  pose proof (forEach_prefix Customers _ _ _ _ _ (insertCustomer_inserts clk) Hc t) as Pc.
  destruct ec as [ec|]; [by injection H as <- _|].
  destruct (forEach (insertEmployee clk) _ dc) as [de ee] eqn:He.
  pose proof (forEach_prefix Employees _ _ _ _ _ (insertEmployee_inserts clk) He t) as Pe.
  destruct ee as [ee|]; [injection H as <- _; by etrans|].
  destruct (forEach (insertService clk) _ de) as [ds es] eqn:Hs.
  pose proof (forEach_prefix Services _ _ _ _ _ (insertService_inserts clk) Hs t) as Ps.
  destruct es as [es|]; [injection H as <- _; etrans; [|done]; by etrans|].
  pose proof (forEach_prefix Products _ _ _ _ _ (insertProduct_inserts clk) H t) as Pp.
  etrans; [|done]. etrans; [|done]. by etrans.
Qed.

(** X17: a seeding that fails part-way is neither undone nor resumed. The
    rows inserted before the failing record stay where they are, behind
    the rows that were there. When it is a seed customer that fails,
    no employee, service or product is inserted at all. And once the
    first seed customer has gone in, the customers table is not empty, so
    no later bootstrap schedules the seeding again: what was not inserted
    stays out. *)
Theorem interrupted_seeding (m : mockData) (clk : clock) (d d' : db) (e : error) :
  seed m clk d = (d', Some e) →
  (∀ t, rows_of t d `prefix_of` rows_of t d')
  ∧ (∀ dc ec,
       forEach (insertCustomer clk) (mockCustomers m) d = (dc, Some ec) →
       d' = dc ∧ e = ec
       ∧ employees d' = employees d
       ∧ services d' = services d
       ∧ products d' = products d)
  ∧ (∀ x rest d1,
       mockCustomers m = x :: rest → insertCustomer clk x d = Ok d1 →
       initDatabase m d' = (d', None)).
Proof.
  intros H. split_and!.
  - by apply (seed_prefix m clk d d' (Some e)).
  - intros dc ec Hc. unfold seed in H. rewrite Hc in H. injection H as <- <-.
    apply (forEach_inserts Customers) in Hc as [Ho _]; [|apply insertCustomer_inserts].
    split_and!; try done.
    + apply (Ho Employees). done.
    + apply (Ho Services). done.
    + apply (Ho Products). done.
  - intros x rest d1 Hm Hx.
    assert (customers d' ≠ []) as Hne.
    { assert (rows_of Customers d1 `prefix_of` rows_of Customers d') as [k Hk].
      { unfold seed in H. rewrite Hm in H. simpl in H. rewrite Hx in H.
        destruct (forEach (insertCustomer clk) rest d1) as [dc ec] eqn:Hc.
        pose proof (forEach_prefix Customers _ _ _ _ _
                      (insertCustomer_inserts clk) Hc Customers) as Pc.
        destruct ec as [ec|]; [by injection H as <- _|].
        etrans; [exact Pc|].
        apply (seed_prefix (MockData [] (mockEmployees m) (mockServices m)
                              (mockProducts m)) clk dc d' (Some e)).
        unfold seed. simpl. exact H. }
      destruct (insertCustomer_inserts clk _ _ _ Hx) as [_ [r Hr]].
      change (customers d') with (rows_of Customers d').
      rewrite Hk, Hr. by destruct (rows_of Customers d). }
    unfold initDatabase, createTables, insertInitialData, sql_count.
    change (rows_of Customers d') with (customers d').
    by destruct (customers d').
Qed.

Lemma interrupted_seeding_witness :
  ∃ d' e,
    seed (MockData [priya; priya] [ravi_complete] [] []) sample_clock empty_db
      = (d', Some e)
    ∧ employees d' = []
    ∧ initDatabase (MockData [priya; priya] [ravi_complete] [] []) d' = (d', None).
Proof.
  set (m := MockData [priya; priya] [ravi_complete] [] []).
  assert (match snd (seed m sample_clock empty_db) with
          | Some _ => true
          | None => false
          end = true) as He by (vm_compute; reflexivity).
  destruct (seed m sample_clock empty_db) as [d' [e|]] eqn:E; [|done].
  exists d', e. split; [reflexivity|].
  destruct (interrupted_seeding m sample_clock empty_db d' e E) as (_ & Hc & Hinit).
  assert (match snd (forEach (insertCustomer sample_clock) (mockCustomers m) empty_db) with
          | Some _ => true
          | None => false
          end = true) as Hfail by (vm_compute; reflexivity).
  destruct (forEach (insertCustomer sample_clock) (mockCustomers m) empty_db)
    as [dc [ec|]] eqn:Ec; [|done].
  destruct (Hc dc ec eq_refl) as (_ & _ & Hemp & _).
  split; [exact Hemp|].
  destruct (is_Ok_true (insertCustomer sample_clock priya empty_db)) as [d1 E1];
    [vm_compute; reflexivity|].
  exact (Hinit priya [priya] d1 eq_refl E1).
Defined.

(** ** [getAll] keeps working *)

Lemma decodes_spec (d : db) :
  decodes d = true ↔ ∀ t r, r ∈ rows_of t d → decodes_row t r = true.
Proof.
  unfold decodes. rewrite forallb_true_iff. split.
  - intros H t r Hr. specialize (H t (every_table t)).
    rewrite forallb_true_iff in H. by apply H.
  - intros H t _. apply forallb_true_iff. intros r Hr. by apply H.
Qed.

Lemma is_Ok_bind {A B : Type} (m : result A) (f : A → B) :
  is_Ok (m ≫= λ x, Ok (f x)) = is_Ok m.
Proof. by destruct m. Qed.

Lemma decodes_row_column (t : table) (r r' : row) :
  r' !!! list_column t = r !!! list_column t →
  decodes_row t r' = decodes_row t r.
Proof.
  intros H. destruct t; [| | |..]; try reflexivity; unfold decodes_row;
    [ unfold customerDb.of_row | unfold employeeDb.of_row
    | unfold appointmentDb.of_row | unfold tallyDb.of_row ];
    rewrite !is_Ok_bind; unfold field; cbn [list_column] in H; rewrite H; reflexivity.
Qed.

Lemma decodes_row_list (t : table) (r : row) (v : value) :
  list_property t ≠ None →
  r !!! list_column t = cell_of (JSON_stringify v) →
  v = VUndef ∨ json_safe v = true →
  decodes_row t r = true.
Proof.
  intros Ht Hr Hv.
  assert (is_Ok (JSON_parse (js_or (js_of_sql (cell_of (JSON_stringify v))) (VStr "[]")))
            = true
          ∧ is_Ok (JSON_parse (js_of_sql (cell_of (JSON_stringify v)))) = true)
    as [H1 H2].
  { destruct Hv as [->|Hsafe]; [split; reflexivity|].
    destruct (JSON_round_trip _ Hsafe) as [-> ->]. done. }
  destruct t; try done; unfold decodes_row; cbn [list_column] in Hr;
    [ unfold customerDb.of_row | unfold employeeDb.of_row
    | unfold appointmentDb.of_row | unfold tallyDb.of_row ];
    rewrite is_Ok_bind; unfold field; rewrite Hr; done.
Qed.

Lemma insert_decodes (t : table) (r : row) (d : db) :
  decodes d = true → decodes_row t r = true →
  decodes (with_rows t (rows_of t d ++ [r]) d) = true.
Proof.
  rewrite !decodes_spec. intros Hd Hr t' r'. rewrite rows_of_with_rows.
  destruct (decide (t = t')) as [<-|]; [|by apply Hd].
  intros [?| ->%list_elem_of_singleton]%elem_of_app; [by apply Hd|done].
Qed.

Lemma update_decodes (t : table) (sets : list (string * sqlval)) (idv : sqlval)
    (d d' : db) :
  decodes d = true →
  (∀ r, decodes_row t r = true → decodes_row t (assign sets r) = true) →
  sql_update t sets idv d = Ok d' → decodes d' = true.
Proof.
  rewrite !decodes_spec. intros Hd Hassign ->%sql_update_Ok t' r'.
  rewrite rows_of_with_rows. destruct (decide (t = t')) as [<-|]; [|by apply Hd].
  intros (r & -> & Hr)%list_elem_of_fmap. specialize (Hd t r Hr).
  destruct (has_id idv r); [by apply Hassign|done].
Qed.

Lemma delete_decodes (t : table) (idv : sqlval) (d d' : db) :
  decodes d = true → sql_delete t idv d = Ok d' → decodes d' = true.
Proof.
  rewrite !decodes_spec. intros Hd ->%sql_delete_Ok t' r'.
  rewrite rows_of_with_rows. destruct (decide (t = t')) as [<-|]; [|by apply Hd].
  intros [Hr _]%list_elem_of_In%filter_In. by apply Hd, list_elem_of_In.
Qed.

Lemma assign_decodes (t : table) (sets : list (string * value)) (r : row) :
  last_assoc (list_column t) sets = None
  ∨ (list_property t ≠ None
     ∧ ∃ v, last_assoc (list_column t) sets = Some (JSON_stringify v)
            ∧ (v = VUndef ∨ json_safe v = true)) →
  decodes_row t r = true → decodes_row t (assign (cells sets) r) = true.
Proof.
  intros [Hnone|(Ht & v & Hv & Hsafe)] Hr.
  - rewrite (decodes_row_column t r); [done|].
    by rewrite assign_lookup, last_assoc_cells, Hnone.
  - apply (decodes_row_list t _ v); [done| |done].
    by rewrite assign_lookup, last_assoc_cells, Hv.
Qed.

Lemma forEach_keeps_in {A : Type} (P : db → Prop) (f : A → db → result db)
    (l : list A) (d d' : db) (e : option error) :
  (∀ x d d', x ∈ l → P d → f x d = Ok d' → P d') →
  P d → forEach f l d = (d', e) → P d'.
Proof.
  revert d. induction l as [|x l IH]; intros d Hf Hd; simpl.
  - by intros [= <- _].
  - destruct (f x d) as [dx|ex] eqn:E; [|by intros [= <- _]].
    apply IH.
    + intros y d0 d1 Hy. apply Hf. by right.
    + eapply Hf; [left|done|done].
Qed.

Lemma js_or_list (v : value) :
  v = VUndef ∨ json_safe v = true →
  js_or v (VArr []) = VUndef ∨ json_safe (js_or v (VArr [])) = true.
Proof.
  intros [->|H]; right; [done|]. unfold js_or. by destruct (truthy v).
Qed.

Lemma decodes_getAll (t : table) (order : list (string * direction)) (d : db)
    (of_row : row → result obj) :
  decodes d = true →
  (∀ r, decodes_row t r = is_Ok (of_row r)) →
  ∃ l, traverse of_row (sql_all t order d) = Ok l.
Proof.
  intros Hd Hrow. apply mapped_rows_total. apply Forall_forall. intros r Hr.
  rewrite decodes_spec in Hd. specialize (Hd t r Hr). rewrite Hrow in Hd.
  destruct (is_Ok_true _ Hd) as [o Ho]. eauto.
Qed.

(** X18: [getAll] keeps working. Say that the store decodes when the
    callback of each [getAll] returns on every row of its table. In a
    store that decodes, the four [getAll] with a JSON list column return;
    and a store that decodes still does after every [create] and [update]
    whose list argument is left out or is a list of JSON values, after
    every [delete] and [updatePaymentStatus], and after the seeding of
    seed records with such lists. *)
Theorem getAll_keeps_working (d : db) :
  decodes d = true →
  ((∃ l, customerDb.getAll d = Ok l) ∧ (∃ l, employeeDb.getAll d = Ok l)
   ∧ (∃ l, appointmentDb.getAll d = Ok l) ∧ (∃ l, tallyDb.getAll d = Ok l))
  ∧ (∀ t create x clk out d',
       r_create (repository_of t) = Some create → well_listed t x →
       create x clk d = Ok (out, d') → decodes d' = true)
  ∧ (∀ t update id updates clk d',
       r_update (repository_of t) = Some update → well_listed t updates →
       update id updates clk d = Ok d' → decodes d' = true)
  ∧ (∀ t del id d',
       r_delete (repository_of t) = Some del →
       del id d = Ok d' → decodes d' = true)
  ∧ (∀ id status upi clk d',
       tallyDb.updatePaymentStatus id status upi clk d = Ok d' → decodes d' = true)
  ∧ (∀ m clk d' e,
       Forall (well_listed Customers) (mockCustomers m) →
       Forall (well_listed Employees) (mockEmployees m) →
       seed m clk d = (d', e) → decodes d' = true).
Proof.
  intros Hd.
  assert (∀ t cols exprs args clk d d' v,
    decodes d = true → list_property t ≠ None →
    run_insert t cols exprs args clk d = Ok d' →
    (∀ cells, fill exprs (map cell_of args) = Ok cells →
       assoc (list_column t) (zip cols cells) = Some (cell_of (JSON_stringify v))) →
    v = VUndef ∨ json_safe v = true →
    decodes d' = true) as Hinsert.
  { intros t cols exprs args clk d0 d1 v Hd0 Ht H Hcell Hv.
    apply run_insert_Ok in H as (cells & _ & Hf & _ & ->).
    apply insert_decodes; [done|]. apply (decodes_row_list t _ v); [done| |done].
    apply new_row_cell. by apply Hcell. }
  assert (∀ t cols exprs args clk d d',
    decodes d = true → list_property t = None →
    run_insert t cols exprs args clk d = Ok d' → decodes d' = true) as Hplain.
  { intros t cols exprs args clk d0 d1 Hd0 Ht H.
    apply run_insert_Ok in H as (cells & _ & Hf & _ & ->).
    apply insert_decodes; [done|]. by destruct t. }
  split_and!.
  - by apply (decodes_getAll Customers).
  - by apply (decodes_getAll Employees).
  - by apply (decodes_getAll Appointments).
  - by apply (decodes_getAll TallyItems).
  - intros t create x clk out d' Hc Hx H.
    destruct t; cbn [repository_of r_create] in Hc; injection Hc as <-;
      unfold returning, returning_nothing in H;
      apply bind_Ok in H as (y & H & Hk);
      try destruct y as [rec d1]; cbn in Hk; apply Ok_inj in Hk; simplify_eq;
      try (apply bind_Ok in H as (d2 & H & Hk); apply Ok_inj in Hk; simplify_eq).
    + eapply (Hinsert Customers); [done|done|exact H| |exact Hx].
      intros cells Hf. cbn [fill map mbind result_bind rbind] in Hf.
      apply Ok_inj in Hf as <-. cbn [list_column zip zip_with assoc]. by eqb_norm.
    + eapply (Hinsert Employees); [done|done|exact H| |exact (js_or_list _ Hx)].
      intros cells Hf. cbn [fill map mbind result_bind rbind] in Hf.
      apply Ok_inj in Hf as <-. cbn [list_column zip zip_with assoc]. by eqb_norm.
    + by apply (Hplain Services _ _ _ _ _ _ Hd eq_refl H).
    + eapply (Hinsert Appointments); [done|done|exact H| |exact Hx].
      intros cells Hf. cbn [fill map mbind result_bind rbind] in Hf.
      apply Ok_inj in Hf as <-. cbn [list_column zip zip_with assoc]. by eqb_norm.
    + eapply (Hinsert TallyItems); [done|done|exact H| |exact Hx].
      intros cells Hf. cbn [fill map mbind result_bind rbind] in Hf.
      apply Ok_inj in Hf as <-. cbn [list_column zip zip_with assoc]. by eqb_norm.
    + by apply (Hplain Products _ _ _ _ _ _ Hd eq_refl H).
  - intros t update id updates clk d' Hu Hx H. rewrite (r_update_run _ _ Hu) in H.
    apply run_update_Ok in H as [_ H]. apply (update_decodes _ _ _ _ _ Hd) in H; [done|].
    intros r. apply assign_decodes.
    destruct t; cbn [update_sets_of list_column]; try discriminate Hu;
      assigned_value; try (by left).
    + destruct (truthy _); [|by left]. right. split; [done|]. eauto.
    + destruct (truthy _); [|by left]. right. split; [done|]. eauto.
  - intros t del id d' Hdel H. rewrite (r_delete_run _ _ Hdel) in H.
    by apply (delete_decodes _ _ _ _ Hd H).
  - intros id status upi clk d' [_ H]%run_update_Ok.
    apply (update_decodes _ _ _ _ _ Hd) in H; [done|].
    intros r. apply assign_decodes. by left.
  - intros m clk d' e Hcs Hes H. unfold seed in H.
    assert (∀ x d d', x ∈ mockCustomers m → decodes d = true →
                      insertCustomer clk x d = Ok d' → decodes d' = true) as Hcustomer.
    { intros x d0 d1 Hx H0 H1. rewrite Forall_forall in Hcs.
      eapply (Hinsert Customers); [done|done|exact H1| |exact (Hcs x Hx)].
      intros cells Hf. cbn [fill map mbind result_bind rbind] in Hf.
      apply Ok_inj in Hf as <-. cbn [list_column zip zip_with assoc]. by eqb_norm. }
    assert (∀ x d d', x ∈ mockEmployees m → decodes d = true →
                      insertEmployee clk x d = Ok d' → decodes d' = true) as Hemployee.
    { intros x d0 d1 Hx H0 (s & _ & H1)%bind_Ok. apply bind_Ok in H1 as (s' & _ & H1).
      rewrite Forall_forall in Hes.
      eapply (Hinsert Employees); [done|done|exact H1| |exact (Hes x Hx)].
      intros cells Hf. cbn [fill map mbind result_bind rbind] in Hf.
      apply Ok_inj in Hf as <-. cbn [list_column zip zip_with assoc]. by eqb_norm. }
    assert (∀ x d d', decodes d = true → insertService clk x d = Ok d' →
                      decodes d' = true) as Hservice.
    { intros x d0 d1 H0 H1. by apply (Hplain Services _ _ _ _ _ _ H0 eq_refl H1). }
    assert (∀ x d d', decodes d = true → insertProduct clk x d = Ok d' →
                      decodes d' = true) as Hproduct.
    { intros x d0 d1 H0 H1. by apply (Hplain Products _ _ _ _ _ _ H0 eq_refl H1). }
    destruct (forEach (insertCustomer clk) _ d) as [dc [ec|]] eqn:Ec.
    { injection H as <- _.
      by apply (forEach_keeps_in (λ d, decodes d = true) _ _ _ _ _ Hcustomer Hd Ec). }
    pose proof (forEach_keeps_in (λ d, decodes d = true) _ _ _ _ _ Hcustomer Hd Ec) as Hdc.
    destruct (forEach (insertEmployee clk) _ dc) as [de [ee|]] eqn:Ee.
    { injection H as <- _.
      by apply (forEach_keeps_in (λ d, decodes d = true) _ _ _ _ _ Hemployee Hdc Ee). }
    pose proof (forEach_keeps_in (λ d, decodes d = true) _ _ _ _ _ Hemployee Hdc Ee) as Hde.
    destruct (forEach (insertService clk) _ de) as [ds [es|]] eqn:Es.
    { injection H as <- _.
      by apply (forEach_keeps (λ d, decodes d = true) _ _ _ _ _ Hservice Hde Es). }
    pose proof (forEach_keeps (λ d, decodes d = true) _ _ _ _ _ Hservice Hde Es) as Hds.
    by apply (forEach_keeps (λ d, decodes d = true) _ _ _ _ _ Hproduct Hds H).
Qed.

Lemma getAll_keeps_working_witness :
  decodes empty_db = true
  ∧ ∃ rec d' l, customerDb.create asha sample_clock empty_db = Ok (rec, d')
                ∧ customerDb.getAll d' = Ok l.
Proof.
  assert (decodes empty_db = true) as Hd by (vm_compute; reflexivity).
  split; [exact Hd|].
  destruct (is_Ok_true (customerDb.create asha sample_clock empty_db))
    as [[rec d'] E]; [vm_compute; reflexivity|].
  destruct (getAll_keeps_working empty_db Hd) as (_ & Hc & _).
  assert (decodes d' = true) as Hd'.
  { apply (Hc Customers _ asha sample_clock (Some rec) d' eq_refl).
    - right. vm_compute. reflexivity.
    - unfold returning. by rewrite E. }
  destruct (getAll_keeps_working d' Hd') as ((Hall & _) & _).
  destruct Hall as [l Hl]. by exists rec, d', l.
Defined.

(** ** What is created is listed *)

Lemma field_given (t : table) (given : list (string * sqlval)) (clk : clock)
    (c : string) (v : value) :
  assoc c given = Some (cell_of v) → field (new_row t given clk) c = read_back v.
Proof. intros H. unfold field, read_back. by rewrite (new_row_cell _ _ _ _ _ H). Qed.

Lemma field_defaulted (t : table) (given : list (string * sqlval)) (clk : clock)
    (c : string) (x : sqlval) :
  assoc c given = None →
  assoc c (map (λ c, (col_name c, default_cell clk c)) (schema t)) = Some x →
  field (new_row t given clk) c = js_of_sql x.
Proof. intros H1 H2. unfold field. by rewrite new_row_lookup, H1, H2. Qed.

Ltac given_field :=
  erewrite field_given by (cbn [zip zip_with assoc]; by eqb_norm).

Ltac listed_keys :=
  repeat (constructor;
          [ cbn [fst snd]; rewrite ?object_lookup; cbn [assoc];
            eqb_norm; cbn [default]; try reflexivity | ]);
  try constructor.

(** X19: what is created is listed. The argument holding values of the
    types of their columns: after a [create] of an appointment with a list
    of JSON values as its services, every list that [getAll] returns holds
    a record with the properties of the argument as they come back from the
    table (a property left out reads null), the list of services as it was
    given, and [notes] defaulting to the empty string. After a [create] of
    a service or a product, [getAll] returns a list that holds its row:
    the columns the argument gave, under their column names, and beside
    them [created_at] and [updated_at] as the store set them. *)
Theorem created_items_are_listed (clk : clock) (d : db) :
  (∀ appointment d' l,
     appointmentDb.create appointment clk d = Ok d' →
     Forall (λ k, text_value (appointment !!! k) = true)
       ["id"; "customerId"; "employeeId"; "date"; "time"; "status"; "notes"] →
     number_value (appointment !!! "total") = true →
     json_safe (appointment !!! "serviceIds") = true →
     appointmentDb.getAll d' = Ok l →
     ∃ o, o ∈ l
        ∧ Forall (λ k, o !!! k = read_back (appointment !!! k))
            ["id"; "customerId"; "employeeId"; "date"; "time"; "status"; "total"]
        ∧ o !!! "serviceIds" = appointment !!! "serviceIds"
        ∧ o !!! "notes" = js_or (appointment !!! "notes") (VStr ""))
  ∧ (∀ service d',
     serviceDb.create service clk d = Ok d' →
     Forall (λ k, text_value (service !!! k) = true)
       ["id"; "name"; "category"; "description"] →
     Forall (λ k, number_value (service !!! k) = true) ["duration"; "price"] →
     ∃ l o, serviceDb.getAll d' = Ok l ∧ o ∈ l
        ∧ Forall (λ k, o !!! k = read_back (service !!! k))
            ["id"; "name"; "duration"; "price"; "category"; "description"]
        ∧ o !!! "created_at" = VStr (sql_timestamp clk)
        ∧ o !!! "updated_at" = VStr (sql_timestamp clk))
  ∧ (∀ product d',
     productDb.create product clk d = Ok d' →
     Forall (λ k, text_value (product !!! k) = true)
       ["id"; "name"; "image"; "category"; "description"; "brand"] →
     Forall (λ k, number_value (product !!! k) = true) ["price"; "stock"] →
     ∃ l o, productDb.getAll d' = Ok l ∧ o ∈ l
        ∧ Forall (λ k, o !!! k = read_back (product !!! k))
            ["id"; "name"; "price"; "image"; "category"; "stock"; "description"; "brand"]
        ∧ o !!! "created_at" = VStr (sql_timestamp clk)
        ∧ o !!! "updated_at" = VStr (sql_timestamp clk)).
Proof.
  split_and!.
  - intros appointment d' l H _ _ Hsafe Hl. unfold appointmentDb.create in H.
    insert_inversion H. bound Hbind.
    set (r := new_row Appointments _ clk) in *.
    assert (appointmentDb.of_row r = Ok (object
      [ ("id", read_back (appointment !!! "id"));
        ("customerId", read_back (appointment !!! "customerId"));
        ("employeeId", read_back (appointment !!! "employeeId"));
        ("serviceIds", appointment !!! "serviceIds");
        ("date", read_back (appointment !!! "date"));
        ("time", read_back (appointment !!! "time"));
        ("status", read_back (appointment !!! "status"));
        ("total", read_back (appointment !!! "total"));
        ("notes", js_or (appointment !!! "notes") (VStr "")) ])) as Hrow.
    { unfold appointmentDb.of_row. subst r. repeat given_field.
      change (read_back (JSON_stringify (appointment !!! "serviceIds")))
        with (js_of_sql (cell_of (JSON_stringify (appointment !!! "serviceIds")))).
      rewrite (proj2 (JSON_round_trip _ Hsafe)). rsimpl.
      do 2 f_equal. repeat f_equal.
      unfold read_back, js_or in *. destruct (truthy (appointment !!! "notes")) eqn:Et;
        [|done].
      apply bound_value; [done|]. intros Hu. by rewrite Hu in Et. }
    unfold appointmentDb.getAll in Hl.
    destruct (traverse_elem_of _ _ _ r Hl) as (o & Ho & Hro).
    { rewrite sql_all_Permutation, inserted_rows. apply elem_of_app. right. left. }
    rewrite Hrow in Hro. apply Ok_inj in Hro as <-.
    eexists. split; [exact Ho|]. split_and!.
    + listed_keys.
    + rewrite object_lookup. cbn [assoc]. by eqb_norm.
    + rewrite object_lookup. cbn [assoc]. by eqb_norm.
  - intros service d' H _ _. unfold serviceDb.create in H. insert_inversion H.
    set (r := new_row Services _ clk) in *.
    exists (raw_row Services <$> sql_all Services [("name", ASC)]
              (with_rows Services (rows_of Services d ++ [r]) d)),
      (raw_row Services r).
    split; [reflexivity|]. split.
    { apply list_elem_of_fmap. exists r. split; [done|].
      rewrite sql_all_Permutation, inserted_rows. apply elem_of_app. right. left. }
    split_and!.
    + repeat (constructor;
              [rewrite raw_row_lookup by in_list; subst r; given_field; reflexivity|]).
      constructor.
    + rewrite raw_row_lookup by in_list. subst r.
      rewrite (field_defaulted _ _ _ _ (SText (sql_timestamp clk)));
        [reflexivity|cbn [zip zip_with assoc]; by eqb_norm|].
      cbn [schema app timestamps map assoc col_name default_cell col_default
           COL NOT_NULL PRIMARY_KEY UNIQUE DEFAULT]. by eqb_norm.
    + rewrite raw_row_lookup by in_list. subst r.
      rewrite (field_defaulted _ _ _ _ (SText (sql_timestamp clk)));
        [reflexivity|cbn [zip zip_with assoc]; by eqb_norm|].
      cbn [schema app timestamps map assoc col_name default_cell col_default
           COL NOT_NULL PRIMARY_KEY UNIQUE DEFAULT]. by eqb_norm.
  - intros product d' H _ _. unfold productDb.create in H. insert_inversion H.
    set (r := new_row Products _ clk) in *.
    exists (raw_row Products <$> sql_all Products [("name", ASC)]
              (with_rows Products (rows_of Products d ++ [r]) d)),
      (raw_row Products r).
    split; [reflexivity|]. split.
    { apply list_elem_of_fmap. exists r. split; [done|].
      rewrite sql_all_Permutation, inserted_rows. apply elem_of_app. right. left. }
    split_and!.
    + repeat (constructor;
              [rewrite raw_row_lookup by in_list; subst r; given_field; reflexivity|]).
      constructor.
    + rewrite raw_row_lookup by in_list. subst r.
      rewrite (field_defaulted _ _ _ _ (SText (sql_timestamp clk)));
        [reflexivity|cbn [zip zip_with assoc]; by eqb_norm|].
      cbn [schema app timestamps map assoc col_name default_cell col_default
           COL NOT_NULL PRIMARY_KEY UNIQUE DEFAULT]. by eqb_norm.
    + rewrite raw_row_lookup by in_list. subst r.
      rewrite (field_defaulted _ _ _ _ (SText (sql_timestamp clk)));
        [reflexivity|cbn [zip zip_with assoc]; by eqb_norm|].
      cbn [schema app timestamps map assoc col_name default_cell col_default
           COL NOT_NULL PRIMARY_KEY UNIQUE DEFAULT]. by eqb_norm.
Qed.

Lemma created_items_are_listed_witness :
  ∃ d' l o, appointmentDb.create morning_cut sample_clock salon_of_two = Ok d'
            ∧ appointmentDb.getAll d' = Ok l
            ∧ o ∈ l
            ∧ o !!! "serviceIds" = VArr [VStr "svc-1"]
            ∧ o !!! "notes" = VStr "".
Proof.
  destruct (is_Ok_true (appointmentDb.create morning_cut sample_clock salon_of_two))
    as [d' E]; [vm_compute; reflexivity|].
  assert (is_Ok (appointmentDb.getAll d') = true) as Hl.
  { assert (match appointmentDb.create morning_cut sample_clock salon_of_two with
            | Ok d' => is_Ok (appointmentDb.getAll d')
            | Err _ => false
            end = true) as H by (vm_compute; reflexivity).
    by rewrite E in H. }
  destruct (is_Ok_true _ Hl) as [l El].
  destruct (created_items_are_listed sample_clock salon_of_two) as (H & _).
  destruct (H morning_cut d' l E) as (o & Ho & _ & Hs & Hn).
  - repeat (constructor; [vm_compute; reflexivity|]). constructor.
  - vm_compute. reflexivity.
  - vm_compute. reflexivity.
  - exact El.
  - exists d', l, o. split_and!; try done.
Defined.

(** X20: what [getAll] shows of an employee created with properties left
    out. After [employeeDb.create], every list [getAll] returns holds a
    record with the new id in which [available] is the boolean the
    argument's [available] was taken for (false when left out), and in
    which a missing, empty or zero email, phone, rating, nextAvailable and
    specialties read as the empty string, the empty string, 5, Now and the
    empty list, and missing working hours as 09:00 to 18:00. *)
Theorem employee_listed_with_defaults (employee : obj) (clk : clock) (d : db)
    (rec : obj) (d' : db) (l : list obj) :
  employeeDb.create employee clk d = Ok (rec, d') →
  well_listed Employees employee →
  employeeDb.getAll d' = Ok l →
  ∃ o, o ∈ l
     ∧ o !!! "id" = VStr (employeeDb.new_id clk)
     ∧ o !!! "available" = VBool (truthy (employee !!! "available"))
     ∧ (truthy (employee !!! "email") = false → o !!! "email" = VStr "")
     ∧ (truthy (employee !!! "phone") = false → o !!! "phone" = VStr "")
     ∧ (truthy (employee !!! "rating") = false → o !!! "rating" = VNum 5)
     ∧ (truthy (employee !!! "nextAvailable") = false →
          o !!! "nextAvailable" = VStr "Now")
     ∧ (truthy (employee !!! "specialties") = false → o !!! "specialties" = VArr [])
     ∧ (employee !!! "workingHours" = VUndef ∨ employee !!! "workingHours" = VNull →
          o !!! "workingHours" = VObj [("start", VStr "09:00"); ("end", VStr "18:00")]).
Proof.
  intros (d1 & H & Hrec)%bind_Ok Hlist Hl.
  apply Ok_inj in Hrec. injection Hrec as <- <-. insert_inversion H.
  set (r := new_row Employees _ clk) in *.
  assert (json_safe (js_or (employee !!! "specialties") (VArr [])) = true) as Hsafe.
  { unfold well_listed in Hlist. cbn [list_property] in Hlist.
    destruct Hlist as [Hu|Hs]; unfold js_or; [by rewrite Hu|].
    by destruct (truthy (employee !!! "specialties")). }
  assert (employeeDb.of_row r = Ok (object
      [ ("id", VStr (employeeDb.new_id clk));
        ("name", read_back (employee !!! "name"));
        ("role", read_back (employee !!! "role"));
        ("email", read_back (js_or (employee !!! "email") (VStr "")));
        ("phone", read_back (js_or (employee !!! "phone") (VStr "")));
        ("photo", read_back (employee !!! "photo"));
        ("available", VBool (truthy (employee !!! "available")));
        ("specialties", js_or (employee !!! "specialties") (VArr []));
        ("rating", read_back (js_or (employee !!! "rating") (VNum 5)));
        ("nextAvailable", read_back (js_or (employee !!! "nextAvailable") (VStr "Now")));
        ("workingHours",
          VObj [ ("start", read_back (js_or (opt_prop (employee !!! "workingHours") "start")
                                        (VStr "09:00")));
                 ("end", read_back (js_or (opt_prop (employee !!! "workingHours") "end")
                                      (VStr "18:00"))) ]) ])) as Hrow.
  { unfold employeeDb.of_row. subst r. repeat given_field.
    change (read_back (JSON_stringify (js_or (employee !!! "specialties") (VArr []))))
      with (js_of_sql (cell_of (JSON_stringify
                                  (js_or (employee !!! "specialties") (VArr []))))).
    rewrite (proj1 (JSON_round_trip _ Hsafe)). rsimpl.
    by destruct (truthy (employee !!! "available")). }
  unfold employeeDb.getAll in Hl.
  destruct (traverse_elem_of _ _ _ r Hl) as (o & Ho & Hro).
  { rewrite sql_all_Permutation, inserted_rows. apply elem_of_app. right. left. }
  rewrite Hrow in Hro. apply Ok_inj in Hro as <-.
  eexists. split; [exact Ho|].
  split_and!; try (intros Hf); rewrite object_lookup; cbn [assoc]; eqb_norm;
    cbn [default]; try reflexivity; unfold js_or; rewrite ?Hf; try reflexivity.
  destruct Hf as [-> | ->]; reflexivity.
Qed.

Lemma employee_listed_with_defaults_witness :
  ∃ rec d' l o,
    employeeDb.create ravi sample_clock empty_db = Ok (rec, d')
    ∧ employeeDb.getAll d' = Ok l
    ∧ o ∈ l
    ∧ o !!! "rating" = VNum 5
    ∧ o !!! "workingHours" = VObj [("start", VStr "09:00"); ("end", VStr "18:00")].
Proof.
  destruct (is_Ok_true (employeeDb.create ravi sample_clock empty_db))
    as [[rec d'] E]; [vm_compute; reflexivity|].
  assert (is_Ok (employeeDb.getAll d') = true) as Hl.
  { assert (match employeeDb.create ravi sample_clock empty_db with
            | Ok (_, d') => is_Ok (employeeDb.getAll d')
            | Err _ => false
            end = true) as H by (vm_compute; reflexivity).
    by rewrite E in H. }
  destruct (is_Ok_true _ Hl) as [l El].
  destruct (employee_listed_with_defaults ravi sample_clock empty_db rec d' l E)
    as (o & Ho & _ & _ & _ & _ & Hrating & _ & _ & Hwh).
  - left. vm_compute. reflexivity.
  - exact El.
  - exists rec, d', l, o. split_and!; try done.
    + apply Hrating. vm_compute. reflexivity.
    + apply Hwh. left. vm_compute. reflexivity.
Defined.

(** ** Seed employees without working hours *)

Lemma forEach_fails {A : Type} (f : A → db → result db) (l : list A) (x : A)
    (d d' : db) (e : option error) :
  x ∈ l → (∀ d0, is_Ok (f x d0) = false) →
  forEach f l d = (d', e) → e ≠ None.
Proof.
  intros Hx Hf. revert d. induction l as [|y l IH]; intros d; [by apply elem_of_nil in Hx|].
  simpl. destruct (f y d) as [dy|ey] eqn:E; [|by intros [= _ <-]].
  apply elem_of_cons in Hx as [->|Hx]; [|by apply IH].
  specialize (Hf d). by rewrite E in Hf.
Qed.

(** X21: a seed employee needs working hours. The seeding reads
    [employee.workingHours.start] without a guard: for a seed employee
    with no working hours the insert throws a [TypeError] before anything
    is run, so the seeding ends with an error and no service and no
    product is inserted. ([employeeDb.create] reads the same property with
    [?.] and stores 09:00 to 18:00 instead.) *)
Theorem seed_employee_needs_working_hours (m : mockData) (clk : clock) (x : obj)
    (d d' : db) (e : option error) :
  x ∈ mockEmployees m →
  x !!! "workingHours" = VUndef ∨ x !!! "workingHours" = VNull →
  seed m clk d = (d', e) →
  (∀ d0, insertEmployee clk x d0 = Err TypeError)
  ∧ e ≠ None
  ∧ services d' = services d
  ∧ products d' = products d.
Proof.
  intros Hx Hwh H.
  assert (∀ d0, insertEmployee clk x d0 = Err TypeError) as Hthrows.
  { intros d0. unfold insertEmployee. by destruct Hwh as [-> | ->]. }
  split; [exact Hthrows|]. unfold seed in H.
  destruct (forEach (insertCustomer clk) _ d) as [dc ec] eqn:Hc.
  apply (forEach_inserts Customers) in Hc as [Hco _]; [|apply insertCustomer_inserts].
  destruct ec as [ec|].
  { injection H as <- <-. split; [done|].
    split; [apply (Hco Services)|apply (Hco Products)]; done. }
  destruct (forEach (insertEmployee clk) _ dc) as [de ee] eqn:He.
  pose proof (forEach_fails _ _ x _ _ _ Hx
                ltac:(intros d0; by rewrite Hthrows) He) as Hee.
  apply (forEach_inserts Employees) in He as [Heo _]; [|apply insertEmployee_inserts].
  destruct ee as [ee|]; [|done]. injection H as <- <-. split; [done|].
  split.
  - change (rows_of Services de = rows_of Services d).
    by rewrite (Heo Services), (Hco Services).
  - change (rows_of Products de = rows_of Products d).
    by rewrite (Heo Products), (Hco Products).
Qed.

Lemma seed_employee_needs_working_hours_witness :
  ∃ d', seed (MockData [priya] [ravi] [shave] []) sample_clock empty_db
          = (d', Some TypeError)
        ∧ services d' = [].
Proof.
  set (m := MockData [priya] [ravi] [shave] []).
  assert (snd (seed m sample_clock empty_db) = Some TypeError) as He
    by (vm_compute; reflexivity).
  destruct (seed m sample_clock empty_db) as [d' e] eqn:E. simpl in He. subst e.
  exists d'. split; [reflexivity|].
  destruct (seed_employee_needs_working_hours m sample_clock ravi empty_db d'
              (Some TypeError)) as (_ & _ & Hs & _); [| |exact E|exact Hs].
  - subst m. simpl. in_list.
  - left. vm_compute. reflexivity.
Defined.

(** ** What the lists show of a store within its schema *)











(** ** A customer with an appointment stays *)

Lemma existsb_map_touch (f : row → bool) (sets : list (string * sqlval)) (idv : sqlval)
    (rows : list row) :
  (∀ r, f (assign sets r) = f r) →
  existsb f (map (λ r, if has_id idv r then assign sets r else r) rows) = existsb f rows.
Proof.
  intros Hf. induction rows as [|r rows IH]; [done|]. simpl. rewrite IH. f_equal.
  destruct (has_id idv r); [apply Hf|done].
Qed.

Lemma insert_booked (t : table) (r : row) (id : string) (d : db) :
  booked id d = true → booked id (with_rows t (rows_of t d ++ [r]) d) = true.
Proof.
  unfold booked. intros [Hc Ha]%andb_true_iff. apply andb_true_iff.
  change (customers ?x) with (rows_of Customers x).
  change (appointments ?x) with (rows_of Appointments x).
  rewrite !rows_of_with_rows. split.
  - destruct (decide (t = Customers)) as [->|]; [by apply existsb_mono_app|done].
  - destruct (decide (t = Appointments)) as [->|]; [by apply existsb_mono_app|done].
Qed.

Lemma run_insert_booked (t : table) (cols : list string) (exprs : list sql_expr)
    (args : list value) (clk : clock) (id : string) (d d' : db) :
  booked id d = true → run_insert t cols exprs args clk d = Ok d' →
  booked id d' = true.
Proof.
  intros Hb (cells & _ & _ & _ & ->)%run_insert_Ok. by apply insert_booked.
Qed.

Lemma update_booked (t : table) (sets : list (string * value)) (id id' : string)
    (d d' : db) :
  booked id d = true →
  last_assoc "id" sets = None → last_assoc "customer_id" sets = None →
  run_update t sets id' d = Ok d' → booked id d' = true.
Proof.
  unfold booked. intros [Hc Ha]%andb_true_iff Hid Hcid [_ ->%sql_update_Ok]%run_update_Ok.
  apply andb_true_iff.
  change (customers ?x) with (rows_of Customers x).
  change (appointments ?x) with (rows_of Appointments x).
  rewrite !rows_of_with_rows. split.
  - destruct (decide (t = Customers)) as [->|]; [|done].
    rewrite existsb_map_touch; [done|]. intros r. apply has_id_assign.
    by rewrite last_assoc_cells, Hid.
  - destruct (decide (t = Appointments)) as [->|]; [|done].
    rewrite existsb_map_touch; [done|]. intros r.
    by rewrite assign_lookup, last_assoc_cells, Hcid.
Qed.

Lemma update_sets_keep_customer (t : table) (u : obj) (clk : clock) :
  last_assoc "customer_id" (update_sets_of t u clk) = None.
Proof.
  destruct t; cbn [update_sets_of];
    rewrite ?customer_sets, ?employee_sets, ?appointment_sets, ?service_sets,
      ?product_sets; reflexivity.
Qed.

(** X23: a customer with an appointment stays. Once a customer is stored
    and an appointment names it, [customerDb.delete] of that customer
    fails; and whatever else is called, [create], [update], [delete] of
    anything, [updatePaymentStatus] or the seeding, the customer is still
    stored and still named by an appointment afterwards: no repository
    removes an appointment or changes its customer. *)
Theorem booked_customers_stay (id : string) (d : db) :
  booked id d = true →
  is_Ok (customerDb.delete id d) = false
  ∧ (∀ t create x clk out d',
       r_create (repository_of t) = Some create →
       create x clk d = Ok (out, d') → booked id d' = true)
  ∧ (∀ t update id' updates clk d',
       r_update (repository_of t) = Some update →
       update id' updates clk d = Ok d' → booked id d' = true)
  ∧ (∀ t del id' d',
       r_delete (repository_of t) = Some del →
       del id' d = Ok d' → booked id d' = true)
  ∧ (∀ id' status upi clk d',
       tallyDb.updatePaymentStatus id' status upi clk d = Ok d' → booked id d' = true)
  ∧ (∀ m clk d' e, seed m clk d = (d', e) → booked id d' = true).
Proof.
  intros Hb.
  assert (is_Ok (customerDb.delete id d) = false) as Hdel.
  { unfold customerDb.delete, run_delete.
    rewrite (delete_referenced Customers "customer_id") by reflexivity.
    unfold booked in Hb. change (rows_of Customers d) with (customers d).
    by rewrite Hb. }
  split_and!.
  - exact Hdel.
  - intros t create x clk out d' Hc H.
    destruct t; simplify_eq/=; unfold returning, returning_nothing in H;
      apply bind_Ok in H as (y & H & Hk);
      try destruct y as [rec d1]; cbn in Hk; apply Ok_inj in Hk; simplify_eq;
      try (apply bind_Ok in H as (d2 & H & Hk); apply Ok_inj in Hk; simplify_eq);
      by apply (run_insert_booked _ _ _ _ _ _ _ _ Hb H).
  - intros t update id' updates clk d' Hu H. rewrite (r_update_run _ _ Hu) in H.
    apply (update_booked _ _ _ _ _ _ Hb) in H; [done| |].
    + apply update_sets_keep_id.
    + apply update_sets_keep_customer.
  - intros t del id' d' Hd H. rewrite (r_delete_run _ _ Hd) in H.
    pose proof H as ->%sql_delete_Ok.
    unfold booked in Hb |- *. apply andb_true_iff in Hb as [Hc Ha].
    apply andb_true_iff.
    change (customers ?x) with (rows_of Customers x).
    change (appointments ?x) with (rows_of Appointments x).
    rewrite !rows_of_with_rows. split.
    + destruct (decide (t = Customers)) as [->|]; [|done].
      destruct (String.eqb_spec id' id) as [->|Hne].
      { exfalso. unfold customerDb.delete, run_delete in Hdel. by rewrite H in Hdel. }
      apply existsb_true_iff in Hc as (r & Hr & Hid).
      apply existsb_true_iff. exists r. split; [|done].
      apply list_elem_of_In, filter_In. split; [by apply list_elem_of_In|].
      apply negb_true_iff. destruct (has_id (SText id') r) eqn:E; [|done].
      by destruct Hne; apply (has_id_unique _ _ r).
    + destruct (decide (t = Appointments)) as [->|]; [|done]. discriminate Hd.
  - intros id' status upi clk d' H.
    by apply (update_booked _ _ _ _ _ _ Hb) in H.
  - intros m clk d' e H. unfold seed in H.
    assert (∀ x d d', booked id d = true → insertCustomer clk x d = Ok d' →
                      booked id d' = true) as Hcustomer.
    { intros x d0 d1 H0 H1. by apply (run_insert_booked _ _ _ _ _ _ _ _ H0 H1). }
    assert (∀ x d d', booked id d = true → insertEmployee clk x d = Ok d' →
                      booked id d' = true) as Hemployee.
    { intros x d0 d1 H0 (s & _ & H1)%bind_Ok. apply bind_Ok in H1 as (s' & _ & H1).
      by apply (run_insert_booked _ _ _ _ _ _ _ _ H0 H1). }
    assert (∀ x d d', booked id d = true → insertService clk x d = Ok d' →
                      booked id d' = true) as Hservice.
    { intros x d0 d1 H0 H1. by apply (run_insert_booked _ _ _ _ _ _ _ _ H0 H1). }
    assert (∀ x d d', booked id d = true → insertProduct clk x d = Ok d' →
                      booked id d' = true) as Hproduct.
    { intros x d0 d1 H0 H1. by apply (run_insert_booked _ _ _ _ _ _ _ _ H0 H1). }
    destruct (forEach (insertCustomer clk) _ d) as [dc [ec|]] eqn:Ec.
    { injection H as <- _.
      by apply (forEach_keeps (λ d, booked id d = true) _ _ _ _ _ Hcustomer Hb Ec). }
    pose proof (forEach_keeps (λ d, booked id d = true) _ _ _ _ _ Hcustomer Hb Ec) as Hdc.
    destruct (forEach (insertEmployee clk) _ dc) as [de [ee|]] eqn:Ee.
    { injection H as <- _.
      by apply (forEach_keeps (λ d, booked id d = true) _ _ _ _ _ Hemployee Hdc Ee). }
    pose proof (forEach_keeps (λ d, booked id d = true) _ _ _ _ _ Hemployee Hdc Ee) as Hde.
    destruct (forEach (insertService clk) _ de) as [ds [es|]] eqn:Es.
    { injection H as <- _.
      by apply (forEach_keeps (λ d, booked id d = true) _ _ _ _ _ Hservice Hde Es). }
    pose proof (forEach_keeps (λ d, booked id d = true) _ _ _ _ _ Hservice Hde Es) as Hds.
    by apply (forEach_keeps (λ d, booked id d = true) _ _ _ _ _ Hproduct Hds H).
Qed.

Lemma booked_customers_stay_witness :
  ∃ d, appointmentDb.create morning_cut sample_clock salon_of_two = Ok d
       ∧ booked "cust-1" d = true
       ∧ is_Ok (customerDb.delete "cust-1" d) = false.
Proof.
  destruct (is_Ok_true (appointmentDb.create morning_cut sample_clock salon_of_two))
    as [d E]; [vm_compute; reflexivity|].
  assert (match appointmentDb.create morning_cut sample_clock salon_of_two with
          | Ok d => booked "cust-1" d
          | Err _ => false
          end = true) as Hb by (vm_compute; reflexivity).
  rewrite E in Hb. exists d. split; [exact E|]. split; [exact Hb|].
  by destruct (booked_customers_stay "cust-1" d Hb) as (H & _).
Defined.

(** ** A tally item, as created and as listed *)

(** X24: a tally item, as created and as listed. After [tallyDb.create]
    of an item with values of the types of their columns and a list of
    JSON values as its services, every list that [getAll] returns holds a
    record with the id and the payment date of the record [create]
    returned, the properties of the argument as they come back from the
    table (a payment status left out reads null), and the services as they
    were given. Its [upiTransactionId] is null, where the returned record
    holds undefined. *)
Theorem tally_item_listed (item : obj) (clk : clock) (d : db) (rec : obj) (d' : db)
    (l : list obj) :
  tallyDb.create item clk d = Ok (rec, d') →
  Forall (λ k, text_value (item !!! k) = true)
    ["date"; "time"; "customerName"; "customerPhone"; "staffName"; "paymentMethod";
     "paymentStatus"] →
  number_value (item !!! "totalCost") = true →
  json_safe (item !!! "services") = true →
  tallyDb.getAll d' = Ok l →
  ∃ o, o ∈ l
     ∧ o !!! "id" = rec !!! "id"
     ∧ o !!! "paymentDate" = rec !!! "paymentDate"
     ∧ Forall (λ k, o !!! k = read_back (item !!! k))
         ["date"; "time"; "customerName"; "customerPhone"; "staffName"; "totalCost";
          "paymentMethod"; "paymentStatus"]
     ∧ o !!! "services" = item !!! "services"
     ∧ o !!! "upiTransactionId" = VNull
     ∧ rec !!! "upiTransactionId" = VUndef.
Proof.
  intros (d1 & H & Hrec)%bind_Ok _ _ Hsafe Hl.
  apply Ok_inj in Hrec. injection Hrec as <- <-. insert_inversion H.
  set (r := new_row TallyItems _ clk) in *.
  assert (tallyDb.of_row r = Ok (object
    [ ("id", VStr (tallyDb.new_id clk));
      ("date", read_back (item !!! "date"));
      ("time", read_back (item !!! "time"));
      ("customerName", read_back (item !!! "customerName"));
      ("customerPhone", read_back (item !!! "customerPhone"));
      ("staffName", read_back (item !!! "staffName"));
      ("services", item !!! "services");
      ("totalCost", read_back (item !!! "totalCost"));
      ("paymentMethod", read_back (item !!! "paymentMethod"));
      ("paymentStatus", read_back (item !!! "paymentStatus"));
      ("paymentDate", VStr (toISOString clk));
      ("upiTransactionId", VNull) ])) as Hrow.
  { unfold tallyDb.of_row. subst r.
    rewrite (field_defaulted _ _ _ "upi_transaction_id" SNull);
      [|cbn [zip zip_with assoc]; by eqb_norm
       |cbn [schema app timestamps map assoc col_name default_cell col_default
             COL NOT_NULL PRIMARY_KEY UNIQUE DEFAULT CHECK_IN]; by eqb_norm].
    repeat given_field.
    change (read_back (JSON_stringify (item !!! "services")))
      with (js_of_sql (cell_of (JSON_stringify (item !!! "services")))).
    rewrite (proj2 (JSON_round_trip _ Hsafe)). reflexivity. }
  unfold tallyDb.getAll in Hl.
  destruct (traverse_elem_of _ _ _ r Hl) as (o & Ho & Hro).
  { rewrite sql_all_Permutation, inserted_rows. apply elem_of_app. right. left. }
  rewrite Hrow in Hro. apply Ok_inj in Hro as <-.
  eexists. split; [exact Ho|]. split_and!.
  - rewrite object_lookup, !lookup_total_insert_value. cbn [assoc]. by eqb_norm.
  - rewrite object_lookup, !lookup_total_insert_value. cbn [assoc]. by eqb_norm.
  - listed_keys.
  - rewrite object_lookup. cbn [assoc]. by eqb_norm.
  - rewrite object_lookup. cbn [assoc]. by eqb_norm.
  - rewrite !lookup_total_insert_value. by eqb_norm.
Qed.

Lemma tally_item_listed_witness :
  ∃ rec d' l o,
    tallyDb.create haircut_sale sample_clock empty_db = Ok (rec, d')
    ∧ tallyDb.getAll d' = Ok l
    ∧ o ∈ l
    ∧ o !!! "upiTransactionId" = VNull
    ∧ rec !!! "upiTransactionId" = VUndef.
Proof.
  destruct (is_Ok_true (tallyDb.create haircut_sale sample_clock empty_db))
    as [[rec d'] E]; [vm_compute; reflexivity|].
  assert (match tallyDb.create haircut_sale sample_clock empty_db with
          | Ok (_, d') => is_Ok (tallyDb.getAll d')
          | Err _ => false
          end = true) as H by (vm_compute; reflexivity).
  rewrite E in H. destruct (is_Ok_true _ H) as [l El].
  destruct (tally_item_listed haircut_sale sample_clock empty_db rec d' l E)
    as (o & Ho & _ & _ & _ & _ & Hnull & Hundef).
  - repeat (constructor; [vm_compute; reflexivity|]). constructor.
  - vm_compute. reflexivity.
  - vm_compute. reflexivity.
  - exact El.
  - exists rec, d', l, o. split; [exact E|]. split; [exact El|].
    split; [exact Ho|]. split; [exact Hnull|exact Hundef].
Defined.
